(** * fmgNICE-Video: playback core, checked against its specification

    The development embeds, function by function, the parts of the plugin
    that the specification's testable properties speak about:

    - [RingBuffer]  : src/lockfree-ringbuffer.c (+ lockfree-ringbuffer.h)
    - [FrameCache]  : frame-cache.c (+ src/frame-cache.h)
    - [Decoder]     : ffmpeg-decoder.c (clock, display loop, hardware
                      fallback, pause-ready / resume, playback control,
                      flushes and first frame of the decoding thread)
    - [VideoSource] : fmgnice-video-source.c (duration cache, position on
                      the playlist timeline, global timeline)
    - [AlignedMemory] : aligned-memory.h
    - [FramePool]   : ffmpeg-decoder.c (the pool of frame buffers)

    C integers are modelled as [Z] with their wrap-around written out,
    pointers as [option positive] ([None] is NULL), arrays as lists indexed
    with stdpp's lookup and insert, [double] as IEEE-754 binary64
    ([spec_float] with the [SF64*] operations of the standard library). *)

From Stdlib Require Import ZArith Lia Bool List.
From Stdlib Require Import Floats.SpecFloat.
From stdpp Require Import base option list gmap.

Local Open Scope Z_scope.

(** ** Machine integers *)

Definition u32 (z : Z) : Z := z mod 2 ^ 32.
Definition u64 (z : Z) : Z := z mod 2 ^ 64.

(** Reinterpretation of a 64-bit pattern as a signed [int64_t]
    (two's complement), used for casts and for signed arithmetic. *)
Definition s64 (z : Z) : Z := (z + 2 ^ 63) mod 2 ^ 64 - 2 ^ 63.

Definition UINT64_MAX : Z := 2 ^ 64 - 1.

(** A nullable pointer to a heap object; [None] is [NULL]. *)
Definition ptr := option positive.

(** ** The lock-free ring buffer (src/lockfree-ringbuffer.c) *)

Module RingBuffer.

Definition RING_BUFFER_SIZE : Z := 4.

(** [enum slot_state] *)
Inductive slot_state : Set :=
| SLOT_EMPTY
| SLOT_WRITING
| SLOT_READY
| SLOT_READING.

#[global] Instance slot_state_eq_dec : EqDecision slot_state.
Proof. solve_decision. Defined.

(** [struct lockfree_frame_slot] (padding left out) *)
Record lockfree_frame_slot : Type := Slot {
  frame : ptr;
  timestamp : Z;
  state : slot_state
}.

(** [struct lockfree_ringbuffer]; the two cursors live in the padded
    [producer] and [consumer] sub-structures. *)
Record lockfree_ringbuffer : Type := Ring {
  write_pos : Z;
  read_pos : Z;
  slots : list lockfree_frame_slot;
  frames_written : Z;
  frames_read : Z;
  write_failures : Z;
  read_failures : Z
}.

Definition set_write_pos (rb : lockfree_ringbuffer) (p : Z) :=
  Ring p (read_pos rb) (slots rb) (frames_written rb) (frames_read rb)
       (write_failures rb) (read_failures rb).

Definition set_read_pos (rb : lockfree_ringbuffer) (p : Z) :=
  Ring (write_pos rb) p (slots rb) (frames_written rb) (frames_read rb)
       (write_failures rb) (read_failures rb).

Definition set_slots (rb : lockfree_ringbuffer) (l : list lockfree_frame_slot) :=
  Ring (write_pos rb) (read_pos rb) l (frames_written rb) (frames_read rb)
       (write_failures rb) (read_failures rb).

Definition set_frames_written (rb : lockfree_ringbuffer) (n : Z) :=
  Ring (write_pos rb) (read_pos rb) (slots rb) n (frames_read rb)
       (write_failures rb) (read_failures rb).

Definition set_frames_read (rb : lockfree_ringbuffer) (n : Z) :=
  Ring (write_pos rb) (read_pos rb) (slots rb) (frames_written rb) n
       (write_failures rb) (read_failures rb).

Definition set_write_failures (rb : lockfree_ringbuffer) (n : Z) :=
  Ring (write_pos rb) (read_pos rb) (slots rb) (frames_written rb)
       (frames_read rb) n (read_failures rb).

Definition set_read_failures (rb : lockfree_ringbuffer) (n : Z) :=
  Ring (write_pos rb) (read_pos rb) (slots rb) (frames_written rb)
       (frames_read rb) (write_failures rb) n.

(** [rb->slots[i]] and the store to it.  The cursors are always masked
    with [RING_BUFFER_SIZE - 1], so the index is in range whenever the
    buffer is well formed ([rb_wf] below). *)
Definition slot_at (rb : lockfree_ringbuffer) (i : Z) : option lockfree_frame_slot :=
  slots rb !! Z.to_nat i.

Definition store_slot (rb : lockfree_ringbuffer) (i : Z) (s : lockfree_frame_slot) :=
  set_slots rb (<[Z.to_nat i := s]> (slots rb)).

(** [atomic_compare_exchange_32(&rb->slots[i].state, &expected, desired)]:
    [Some rb'] when the exchange took place. *)
Definition cas_state (rb : lockfree_ringbuffer) (i : Z)
    (expected desired : slot_state) : option lockfree_ringbuffer :=
  match slot_at rb i with
  | Some s =>
      if decide (state s = expected)
      then Some (store_slot rb i (Slot (frame s) (timestamp s) desired))
      else None
  | None => None
  end.

Definition empty_slot : lockfree_frame_slot := Slot None 0 SLOT_EMPTY.

(** [lockfree_ringbuffer_init] *)
Definition lockfree_ringbuffer_init : lockfree_ringbuffer :=
  Ring 0 0 (replicate (Z.to_nat RING_BUFFER_SIZE) empty_slot) 0 0 0 0.

(** [lockfree_ringbuffer_write_begin]: [Some slot] stands for [true] with
    the claimed index stored through [*slot], [None] for [false]. *)
Definition lockfree_ringbuffer_write_begin (rb : lockfree_ringbuffer)
    : option Z * lockfree_ringbuffer :=
  let wp := write_pos rb in
  let next_pos := Z.land (wp + 1) (RING_BUFFER_SIZE - 1) in
  match cas_state rb wp SLOT_EMPTY SLOT_WRITING with
  | None => (None, set_write_failures rb (u64 (write_failures rb + 1)))
  | Some rb1 => (Some wp, set_write_pos rb1 next_pos)
  end.

(** [lockfree_ringbuffer_write_commit] *)
Definition lockfree_ringbuffer_write_commit (rb : lockfree_ringbuffer)
    (slot : Z) (f : ptr) (ts : Z) : lockfree_ringbuffer :=
  if Z.leb RING_BUFFER_SIZE slot then rb
  else
    let rb1 :=
      match slot_at rb slot with
      | Some s => store_slot rb slot (Slot f ts SLOT_READY)
      | None => rb
      end in
    set_frames_written rb1 (u64 (frames_written rb1 + 1)).

(** [lockfree_ringbuffer_write_abort] *)
Definition lockfree_ringbuffer_write_abort (rb : lockfree_ringbuffer)
    (slot : Z) : lockfree_ringbuffer :=
  if Z.leb RING_BUFFER_SIZE slot then rb
  else
    match slot_at rb slot with
    | Some s => store_slot rb slot (Slot (frame s) (timestamp s) SLOT_EMPTY)
    | None => rb
    end.

(** [lockfree_ringbuffer_read_begin]: [Some (slot, frame, timestamp)] stands
    for [true] with the three out-parameters written. *)
Definition lockfree_ringbuffer_read_begin (rb : lockfree_ringbuffer)
    : option (Z * ptr * Z) * lockfree_ringbuffer :=
  let rp := read_pos rb in
  let next_pos := Z.land (rp + 1) (RING_BUFFER_SIZE - 1) in
  match cas_state rb rp SLOT_READY SLOT_READING with
  | None => (None, set_read_failures rb (u64 (read_failures rb + 1)))
  | Some rb1 =>
      match slot_at rb1 rp with
      | Some s =>
          let rb2 := store_slot rb1 rp (Slot None 0 (state s)) in
          let rb3 := set_read_pos rb2 next_pos in
          (Some (rp, frame s, timestamp s),
           set_frames_read rb3 (u64 (frames_read rb3 + 1)))
      | None => (None, rb1)
      end
  end.

(** [lockfree_ringbuffer_read_complete] *)
Definition lockfree_ringbuffer_read_complete (rb : lockfree_ringbuffer)
    (slot : Z) : lockfree_ringbuffer :=
  if Z.leb RING_BUFFER_SIZE slot then rb
  else
    match slot_at rb slot with
    | Some s => store_slot rb slot (Slot (frame s) (timestamp s) SLOT_EMPTY)
    | None => rb
    end.

(** [lockfree_ringbuffer_available_slots] *)
Definition lockfree_ringbuffer_available_slots (rb : lockfree_ringbuffer) : Z :=
  Z.of_nat (length (filter (fun s => state s = SLOT_EMPTY) (slots rb))).

(** *** The producer and consumer protocols

    An enqueue is [write_begin] followed, on success, by [write_commit] on
    the slot it returned; a dequeue is [read_begin], optionally followed by
    [read_complete] on the slot it returned. *)

Definition enqueue (rb : lockfree_ringbuffer) (item : ptr * Z)
    : bool * lockfree_ringbuffer :=
  match lockfree_ringbuffer_write_begin rb with
  | (Some slot, rb1) =>
      (true, lockfree_ringbuffer_write_commit rb1 slot (fst item) (snd item))
  | (None, rb1) => (false, rb1)
  end.

(** All of [items] enqueued in order; [None] as soon as one attempt fails. *)
Fixpoint enqueue_all (rb : lockfree_ringbuffer) (items : list (ptr * Z))
    : option lockfree_ringbuffer :=
  match items with
  | [] => Some rb
  | it :: rest =>
      match enqueue rb it with
      | (true, rb1) => enqueue_all rb1 rest
      | (false, _) => None
      end
  end.

Definition dequeue (complete : bool) (rb : lockfree_ringbuffer)
    : option (ptr * Z) * lockfree_ringbuffer :=
  match lockfree_ringbuffer_read_begin rb with
  | (Some (slot, f, ts), rb1) =>
      (Some (f, ts),
       if complete then lockfree_ringbuffer_read_complete rb1 slot else rb1)
  | (None, rb1) => (None, rb1)
  end.

(** [k] successive dequeue attempts; the frames obtained, in order. *)
Fixpoint drain (complete : bool) (k : nat) (rb : lockfree_ringbuffer)
    : list (ptr * Z) * lockfree_ringbuffer :=
  match k with
  | O => ([], rb)
  | S k' =>
      match dequeue complete rb with
      | (Some it, rb1) =>
          let '(got, rb2) := drain complete k' rb1 in (it :: got, rb2)
      | (None, rb1) => drain complete k' rb1
      end
  end.

(** Well-formedness: the array has [RING_BUFFER_SIZE] slots and both
    cursors index it. *)
Definition rb_wf (rb : lockfree_ringbuffer) : Prop :=
  length (slots rb) = Z.to_nat RING_BUFFER_SIZE /\
  0 <= write_pos rb < RING_BUFFER_SIZE /\
  0 <= read_pos rb < RING_BUFFER_SIZE.

(** An idle buffer: nothing in flight and the cursors meet. *)
Definition rb_idle (rb : lockfree_ringbuffer) : Prop :=
  rb_wf rb /\
  Forall (fun s => state s = SLOT_EMPTY) (slots rb) /\
  read_pos rb = write_pos rb.

(** Slot [s] is owned by someone: its state is not Empty. *)
Definition slot_held (rb : lockfree_ringbuffer) (s : Z) : Prop :=
  exists sl, slot_at rb s = Some sl /\ state sl <> SLOT_EMPTY.

(** A stream relayed through the buffer: each item is enqueued and then
    dequeued (with [read_complete]) before the next one; [None] as soon as
    one of the calls fails. *)
Fixpoint relay (rb : lockfree_ringbuffer) (items : list (ptr * Z))
    : option (list (ptr * Z) * lockfree_ringbuffer) :=
  match items with
  | [] => Some ([], rb)
  | it :: rest =>
      match enqueue rb it with
      | (true, rb1) =>
          match dequeue true rb1 with
          | (Some got, rb2) =>
              match relay rb2 rest with
              | Some (gs, rb3) => Some (got :: gs, rb3)
              | None => None
              end
          | (None, _) => None
          end
      | (false, _) => None
      end
  end.

(** *** Arbitrary call sequences

    The calls a producer and a consumer can make, and a run of them in
    some interleaved order; slot arguments are [uint32_t]. *)

Inductive rb_op : Type :=
| OpWriteBegin
| OpWriteCommit (slot : Z) (f : ptr) (ts : Z)
| OpWriteAbort (slot : Z)
| OpReadBegin
| OpReadComplete (slot : Z).

Definition rb_op_slot (op : rb_op) : option Z :=
  match op with
  | OpWriteCommit slot _ _ | OpWriteAbort slot | OpReadComplete slot => Some slot
  | OpWriteBegin | OpReadBegin => None
  end.

(** One call; the result is the slot claimed when the call is a
    successful [write_begin]. *)
Definition rb_step (rb : lockfree_ringbuffer) (op : rb_op)
    : option Z * lockfree_ringbuffer :=
  match op with
  | OpWriteBegin => lockfree_ringbuffer_write_begin rb
  | OpWriteCommit slot f ts => (None, lockfree_ringbuffer_write_commit rb slot f ts)
  | OpWriteAbort slot => (None, lockfree_ringbuffer_write_abort rb slot)
  | OpReadBegin => (None, snd (lockfree_ringbuffer_read_begin rb))
  | OpReadComplete slot => (None, lockfree_ringbuffer_read_complete rb slot)
  end.

#[global] Instance rb_op_eq_dec : EqDecision rb_op.
Proof. solve_decision. Defined.

(** The slot argument of a call is a [uint32_t]. *)
Definition rb_op_ok (op : rb_op) : Prop :=
  match rb_op_slot op with
  | Some slot => 0 <= slot < 2 ^ 32
  | None => True
  end.

(** A run of calls; the slots claimed by its [write_begin]s, in order. *)
Fixpoint rb_run (rb : lockfree_ringbuffer) (ops : list rb_op)
    : list Z * lockfree_ringbuffer :=
  match ops with
  | [] => ([], rb)
  | op :: rest =>
      let '(claimed, rb1) := rb_step rb op in
      let '(more, rb2) := rb_run rb1 rest in
      (match claimed with Some s => s :: more | None => more end, rb2)
  end.

(** *** Example data *)

Definition sample_items : list (ptr * Z) :=
  [(Some 11%positive, 0); (Some 12%positive, 33000);
   (Some 13%positive, 66000); (Some 14%positive, 99000)].

Definition sample_ops : list rb_op :=
  [OpWriteBegin; OpWriteCommit 0 (Some 11%positive) 0; OpReadBegin;
   OpWriteBegin; OpWriteBegin; OpWriteCommit 1 (Some 12%positive) 33000;
   OpWriteBegin; OpReadBegin; OpReadComplete 1; OpWriteBegin; OpWriteAbort 1;
   OpWriteBegin].

End RingBuffer.

(** ** The frame cache (frame-cache.c, src/frame-cache.h) *)

Module FrameCache.

Definition FRAME_CACHE_SIZE : Z := 30.

(** [enum cache_state] *)
Inductive cache_state : Set :=
| CACHE_EMPTY
| CACHE_LOADING
| CACHE_READY.

#[global] Instance cache_state_eq_dec : EqDecision cache_state.
Proof. solve_decision. Defined.

(** What the cache needs to know of an [AVFrame]: the reference-counted
    data buffers it points to and its properties.  [av_frame_clone] makes
    a new [AVFrame] object with the same contents. *)
Record AVFrame : Type := Frame {
  buf_ref : positive;
  frame_pts : Z
}.

(** The live [AVFrame] objects, by address. *)
Abbreviation frame_heap := (gmap positive AVFrame).

(** [struct cached_frame].  The converted pixel buffer is owned by the
    entry and modelled by its contents. *)
Record cached_frame : Type := Entry {
  frame : ptr;
  pts : Z;
  ref_count : Z;
  state : cache_state;
  bgra_data : option (list Z);
  bgra_linesize : list Z;
  width : Z;
  height : Z;
  last_access_time : Z;
  access_count : Z
}.

(** [struct frame_cache] (the mutex left out) *)
Record frame_cache : Type := Cache {
  entries : list cached_frame;
  current_gen : Z;
  hits : Z;
  misses : Z;
  evictions : Z;
  insertions : Z;
  enabled : bool;
  cache_converted_frames : bool;
  max_entries : Z
}.

Definition set_entries (c : frame_cache) (l : list cached_frame) :=
  Cache l (current_gen c) (hits c) (misses c) (evictions c) (insertions c)
        (enabled c) (cache_converted_frames c) (max_entries c).

Definition set_hits (c : frame_cache) (n : Z) :=
  Cache (entries c) (current_gen c) n (misses c) (evictions c) (insertions c)
        (enabled c) (cache_converted_frames c) (max_entries c).

Definition set_misses (c : frame_cache) (n : Z) :=
  Cache (entries c) (current_gen c) (hits c) n (evictions c) (insertions c)
        (enabled c) (cache_converted_frames c) (max_entries c).

Definition set_evictions (c : frame_cache) (n : Z) :=
  Cache (entries c) (current_gen c) (hits c) (misses c) n (insertions c)
        (enabled c) (cache_converted_frames c) (max_entries c).

Definition set_insertions (c : frame_cache) (n : Z) :=
  Cache (entries c) (current_gen c) (hits c) (misses c) (evictions c) n
        (enabled c) (cache_converted_frames c) (max_entries c).

Definition set_current_gen (c : frame_cache) (n : Z) :=
  Cache (entries c) n (hits c) (misses c) (evictions c) (insertions c)
        (enabled c) (cache_converted_frames c) (max_entries c).

Definition set_frame (e : cached_frame) (f : ptr) :=
  Entry f (pts e) (ref_count e) (state e) (bgra_data e) (bgra_linesize e)
        (width e) (height e) (last_access_time e) (access_count e).

Definition set_state (e : cached_frame) (st : cache_state) :=
  Entry (frame e) (pts e) (ref_count e) st (bgra_data e) (bgra_linesize e)
        (width e) (height e) (last_access_time e) (access_count e).

Definition set_bgra_data (e : cached_frame) (b : option (list Z)) :=
  Entry (frame e) (pts e) (ref_count e) (state e) b (bgra_linesize e)
        (width e) (height e) (last_access_time e) (access_count e).

Definition set_ref_count (e : cached_frame) (n : Z) :=
  Entry (frame e) (pts e) n (state e) (bgra_data e) (bgra_linesize e)
        (width e) (height e) (last_access_time e) (access_count e).

(** [cache->entries[i]]; every loop of the source runs [i] over
    [0 .. FRAME_CACHE_SIZE - 1], the length of the array. *)
Definition entry_at (c : frame_cache) (i : Z) : option cached_frame :=
  entries c !! Z.to_nat i.

Definition store_entry (c : frame_cache) (i : Z) (e : cached_frame) :=
  set_entries c (<[Z.to_nat i := e]> (entries c)).

Definition empty_entry : cached_frame :=
  Entry None 0 0 CACHE_EMPTY None [0; 0; 0; 0] 0 0 0 0.

(** [frame_cache_init] *)
Definition frame_cache_init (enable_converted_cache : bool) : frame_cache :=
  Cache (replicate (Z.to_nat FRAME_CACHE_SIZE) empty_entry)
        1 0 0 0 0 true enable_converted_cache FRAME_CACHE_SIZE.

(** *** The allocator, as seen from the cache

    [av_frame_clone] and [bmalloc] may fail; whether they do is decided
    outside the cache and passed in. *)
Record alloc_env : Set := Alloc {
  clone_ok : bool;
  bmalloc_ok : bool
}.

(** [av_frame_clone(src)]: a new [AVFrame] at an address not in use, with
    the contents of [*src]; [NULL] on failure.  (Cloning a dangling [src]
    has no meaning in C; the model answers [NULL].) *)
Definition av_frame_clone (h : frame_heap) (src : positive) (ok : bool)
    : ptr * frame_heap :=
  match h !! src with
  | Some fr =>
      if ok then
        let a := fresh (dom h) in (Some a, <[a := fr]> h)
      else (None, h)
  | None => (None, h)
  end.

(** [av_frame_free(&p)] *)
Definition av_frame_free (h : frame_heap) (p : ptr) : frame_heap :=
  match p with
  | Some a => delete a h
  | None => h
  end.

(** The loop of [find_lru_entry], from index [i] on, with the running
    [oldest_time] and [lru_idx]. *)
Fixpoint find_lru_loop (es : list cached_frame) (i : Z)
    (oldest_time : Z) (lru_idx : Z) : Z :=
  match es with
  | [] => lru_idx
  | e :: rest =>
      if decide (state e = CACHE_EMPTY) then i
      else if bool_decide (state e = CACHE_READY) && (ref_count e =? 0)
              && (last_access_time e <? oldest_time)
      then find_lru_loop rest (i + 1) (last_access_time e) i
      else find_lru_loop rest (i + 1) oldest_time lru_idx
  end.

(** [find_lru_entry] *)
Definition find_lru_entry (c : frame_cache) : Z :=
  find_lru_loop (entries c) 0 UINT64_MAX (-1).

(** The scan of [frame_cache_get]: index of the first Ready entry whose
    [pts] matches. *)
Fixpoint find_ready (es : list cached_frame) (p : Z) (i : Z) : option Z :=
  match es with
  | [] => None
  | e :: rest =>
      if bool_decide (state e = CACHE_READY) && (pts e =? p) then Some i
      else find_ready rest p (i + 1)
  end.

(** [frame_cache_get]; [now] is the value of [os_gettime_ns()].  The
    result is the index of the entry whose address is returned, [None] for
    [NULL]. *)
Definition frame_cache_get (c : frame_cache) (p : Z) (now : Z)
    : option Z * frame_cache :=
  if negb (enabled c) then (None, c)
  else
    match find_ready (entries c) p 0 with
    | Some i =>
        match entry_at c i with
        | Some e =>
            let e' :=
              Entry (frame e) (pts e) (u32 (ref_count e + 1)) (state e)
                    (bgra_data e) (bgra_linesize e) (width e) (height e)
                    now (u32 (access_count e + 1)) in
            let c1 := store_entry c i e' in
            (Some i, set_hits c1 (u64 (hits c1 + 1)))
        | None => (None, c)
        end
    | None => (None, set_misses c (u64 (misses c + 1)))
    end.

(** [frame_cache_put].  [frame_arg] is the caller's frame, [src_bgra] and
    [src_linesize] the optional converted pixels and their line sizes,
    [now] the value of [os_gettime_ns()].  The successive stores to
    [cache->entries[slot]] are collected into the entry written back. *)
Definition frame_cache_put (h : frame_heap) (c : frame_cache)
    (frame_arg : ptr) (p : Z)
    (src_bgra : option (list Z)) (src_linesize : option (list Z))
    (w ht : Z) (now : Z) (env : alloc_env)
    : bool * frame_heap * frame_cache :=
  match frame_arg with
  | None => (false, h, c)
  | Some src =>
      if negb (enabled c) then (false, h, c)
      else
        let slot := find_lru_entry c in
        if slot <? 0 then (false, h, c)
        else
          match entry_at c slot with
          | None => (false, h, c)
          | Some e0 =>
              (* state = CACHE_LOADING; evict the old frame if there is one *)
              let h1 := av_frame_free h (frame e0) in
              let ev :=
                match frame e0 with
                | Some _ => u64 (evictions c + 1)
                | None => evictions c
                end in
              (* the old pixel buffer, if any, is freed and set to NULL;
                 clone the frame for the cache *)
              let '(cl, h2) := av_frame_clone h1 src (clone_ok env) in
              match cl with
              | None =>
                  let e' :=
                    Entry None (pts e0) (ref_count e0) CACHE_EMPTY None
                          (bgra_linesize e0) (width e0) (height e0)
                          (last_access_time e0) (access_count e0) in
                  (false, h2, set_evictions (store_entry c slot e') ev)
              | Some _ =>
                  (* cache the converted BGRA data if enabled *)
                  let conv : option (list Z * list Z) :=
                    match src_bgra, src_linesize with
                    | Some data, Some lsz =>
                        if cache_converted_frames c && bmalloc_ok env then
                          let data_size := u32 (nth 0 lsz 0 * ht) in
                          Some (take (Z.to_nat data_size) data, take 4 lsz)
                        else None
                    | _, _ => None
                    end in
                  (* entry metadata; state = CACHE_READY *)
                  let e' :=
                    Entry cl p 0 CACHE_READY
                          (fst <$> conv)
                          (from_option snd (bgra_linesize e0) conv)
                          (if conv is Some _ then w else width e0)
                          (if conv is Some _ then ht else height e0)
                          now 0 in
                  let c1 := set_evictions (store_entry c slot e') ev in
                  (true, h2, set_insertions c1 (u64 (insertions c1 + 1)))
              end
          end
  end.

(** [frame_cache_invalidate] *)
Definition frame_cache_invalidate (h : frame_heap) (c : frame_cache)
    : frame_heap * frame_cache :=
  let h' := foldl (fun hh e => av_frame_free hh (frame e)) h (entries c) in
  let es :=
    map (fun e => set_bgra_data (set_frame (set_state e CACHE_EMPTY) None) None)
        (entries c) in
  (h', set_current_gen (set_entries c es) (u32 (current_gen c + 1))).

(** [frame_cache_destroy]: the frames are freed and the structure is
    zeroed. *)
Definition frame_cache_destroy (h : frame_heap) (c : frame_cache)
    : frame_heap * frame_cache :=
  let h' := foldl (fun hh e => av_frame_free hh (frame e)) h (entries c) in
  (h',
   Cache (replicate (Z.to_nat FRAME_CACHE_SIZE) empty_entry)
         0 0 0 0 0 false false 0).

(** [frame_cache_release]: the caller hands back the entry obtained from
    [frame_cache_get]. *)
Definition frame_cache_release (c : frame_cache) (i : Z) : frame_cache :=
  match entry_at c i with
  | Some e => store_entry c i (set_ref_count e (u32 (ref_count e - 1)))
  | None => c
  end.

(** Successive insertions of the frames [items] (frame, pts, time of the
    call), none with converted pixels; [None] as soon as one call returns
    false. *)
Fixpoint put_all (h : frame_heap) (c : frame_cache)
    (items : list (positive * Z * Z)) (env : alloc_env)
    : option (frame_heap * frame_cache) :=
  match items with
  | [] => Some (h, c)
  | (src, p, now) :: rest =>
      match frame_cache_put h c (Some src) p None None 0 0 now env with
      | (true, h1, c1) => put_all h1 c1 rest env
      | (false, _, _) => None
      end
  end.

(** Entries that [find_lru_entry] may pick once no slot is empty. *)
Definition evictable (e : cached_frame) : Prop :=
  state e = CACHE_READY /\ ref_count e = 0.

(** The representation invariant of the entries: integers in the range of
    their C types, and a Ready entry owns a frame. *)
Definition entry_ok (e : cached_frame) : Prop :=
  0 <= ref_count e < 2 ^ 32 /\
  0 <= last_access_time e <= UINT64_MAX /\
  (state e = CACHE_READY -> frame e <> None).

Definition cache_ok (c : frame_cache) : Prop :=
  length (entries c) = Z.to_nat FRAME_CACHE_SIZE /\
  Forall entry_ok (entries c).

(** No slot is free. *)
Definition all_occupied (c : frame_cache) : Prop :=
  Forall (fun e => state e <> CACHE_EMPTY) (entries c).

(** Entry [k] is the least recently used among the evictable ones: no
    evictable entry was accessed earlier, and none before it in the array
    as early. *)
Definition lru_at (es : list cached_frame) (k : nat) (e : cached_frame) : Prop :=
  es !! k = Some e /\
  evictable e /\
  (forall k' e', es !! k' = Some e' -> evictable e' ->
     last_access_time e <= last_access_time e') /\
  (forall k' e', (k' < k)%nat -> es !! k' = Some e' -> evictable e' ->
     last_access_time e < last_access_time e').

#[global] Instance evictable_dec e : Decision (evictable e).
Proof. unfold evictable. apply _. Defined.

(** *** Example data: a full cache.  Entry 0 is pinned and the oldest,
    entry 5 is the least recently used of the others. *)

Definition sample_entry (pinned_all : bool) (i : nat) : cached_frame :=
  Entry (Some (Pos.of_succ_nat i)) (Z.of_nat i * 33333)
        (if pinned_all || (i =? 0)%nat then 1 else 0)
        CACHE_READY None [0; 0; 0; 0] 0 0
        (if (i =? 0)%nat then 10
         else if (i =? 5)%nat then 50 else 100 + Z.of_nat i)
        0.

Definition sample_cache (pinned_all : bool) : frame_cache :=
  Cache (map (sample_entry pinned_all) (seq 0 (Z.to_nat FRAME_CACHE_SIZE)))
        1 0 0 0 30 true false FRAME_CACHE_SIZE.

(** The frames owned by the sample cache, at addresses 1 to 30, and the
    caller's frame at address 31. *)
Definition sample_heap : frame_heap :=
  list_to_map
    (map (fun i => (Pos.of_succ_nat i, Frame (Pos.of_succ_nat i) (Z.of_nat i * 33333)))
         (seq 0 31)).

Definition sample_env (ok : bool) : alloc_env := Alloc ok true.

(** Three calls of [frame_cache_put] on the caller's frame. *)
Definition sample_puts : list (positive * Z * Z) :=
  [(31%positive, 0, 1000); (31%positive, 33333, 2000); (31%positive, 66666, 3000)].

End FrameCache.

(** ** The decoder (ffmpeg-decoder.c, ffmpeg-decoder.h) *)

Module Decoder.

(** *** IEEE-754 binary64, the C [double] *)

Definition prec : Z := 53.
Definition emax : Z := 1024.

Abbreviation double := spec_float.

(** [(double)z] for an integer [z]: rounding to nearest, ties to even. *)
Definition double_of_int (z : Z) : double := binary_normalize prec emax z 0 false.

Definition double_mul (x y : double) : double := SFmul prec emax x y.
Definition double_div (x y : double) : double := SFdiv prec emax x y.

(** The literals [1000.0] and [1.0]. *)
Definition lit_1000 : double := S754_finite false 8796093022208000 (-43).
Definition lit_1 : double := S754_finite false 4503599627370496 (-52).

(** The mantissa of [1000.0]. *)
Definition M1000 : Z := 8796093022208000.

(** [(uint64_t)x]: the fractional part is discarded; when the truncated
    value is not representable in [uint64_t] (negative, too large,
    infinite or NaN) the conversion is undefined in C, here [None]. *)
Definition double_to_uint64 (x : double) : option Z :=
  match x with
  | S754_zero _ => Some 0
  | S754_finite s m e =>
      let t := Z.shiftl (Z.pos m) e in
      let v := if s then - t else t in
      if (0 <=? v) && (v <? 2 ^ 64) then Some v else None
  | S754_infinity _ | S754_nan => None
  end.

(** *** Data *)

(** The anonymous [clock] structure of [struct ffmpeg_decoder] *)
Record clock_t : Type := Clock {
  system_start : Z;
  media_start_pts : Z;
  last_pts : Z;
  last_system : Z;
  playback_rate : double
}.

(** [struct buffered_frame]; of the pixel planes only whether the NV12
    planes are there matters to the control flow. *)
Record buffered_frame : Type := Buffered {
  frame : ptr;
  pts : Z;
  system_time : Z;
  ready : bool;
  is_hw_frame : bool;
  zero_copy : bool;
  nv12_present : bool
}.

(** The legacy three-slot [buffer] of [struct ffmpeg_decoder] *)
Record frame_buffer : Type := Buffer {
  frames : list buffered_frame;
  write_idx : Z;
  read_idx : Z;
  count : Z
}.

(** [perf_monitor_t], the field used here *)
Record perf_monitor_t : Type := PerfMonitor {
  frames_dropped : Z
}.

Inductive decoder_state : Set :=
| DECODER_STATE_STOPPED
| DECODER_STATE_PAUSED_READY
| DECODER_STATE_PLAYING.

#[global] Instance decoder_state_eq_dec : EqDecision decoder_state.
Proof. solve_decision. Defined.

(** [struct ffmpeg_decoder], the fields read or written by the functions
    below.  [delivered] is not a field of the C structure: it records the
    [pts] of every frame handed to the sink callback [video_cb], in
    order. *)
Record ffmpeg_decoder : Type := Decoder {
  initialized : bool;
  playing : bool;
  stopping : bool;
  thread_running : bool;
  display_thread_created : bool;
  format_ctx : ptr;
  hw_decoding_active : bool;
  seek_request : bool;
  seek_target : Z;
  clock : clock_t;
  buffer : frame_buffer;
  frame_pts : Z;
  video_cb : ptr;
  opaque : ptr;
  perf_monitor : option perf_monitor_t;
  state : decoder_state;
  preserved_seek_position : Z;
  preserved_playback_position : Z;
  state_preserved_time : Z;
  seek_was_in_progress : bool;
  delivered : list Z
}.

Definition set_playing (d : ffmpeg_decoder) (v : bool) : ffmpeg_decoder :=
  Decoder (initialized d) v (stopping d) (thread_running d)
    (display_thread_created d) (format_ctx d) (hw_decoding_active d)
    (seek_request d) (seek_target d) (clock d) (buffer d) (frame_pts d)
    (video_cb d) (opaque d) (perf_monitor d) (state d)
    (preserved_seek_position d) (preserved_playback_position d)
    (state_preserved_time d) (seek_was_in_progress d) (delivered d).

Definition set_hw_decoding_active (d : ffmpeg_decoder) (v : bool) : ffmpeg_decoder :=
  Decoder (initialized d) (playing d) (stopping d) (thread_running d)
    (display_thread_created d) (format_ctx d) v (seek_request d)
    (seek_target d) (clock d) (buffer d) (frame_pts d) (video_cb d)
    (opaque d) (perf_monitor d) (state d) (preserved_seek_position d)
    (preserved_playback_position d) (state_preserved_time d)
    (seek_was_in_progress d) (delivered d).

Definition set_seek_request (d : ffmpeg_decoder) (v : bool) : ffmpeg_decoder :=
  Decoder (initialized d) (playing d) (stopping d) (thread_running d)
    (display_thread_created d) (format_ctx d) (hw_decoding_active d) v
    (seek_target d) (clock d) (buffer d) (frame_pts d) (video_cb d)
    (opaque d) (perf_monitor d) (state d) (preserved_seek_position d)
    (preserved_playback_position d) (state_preserved_time d)
    (seek_was_in_progress d) (delivered d).

Definition set_seek_target (d : ffmpeg_decoder) (v : Z) : ffmpeg_decoder :=
  Decoder (initialized d) (playing d) (stopping d) (thread_running d)
    (display_thread_created d) (format_ctx d) (hw_decoding_active d)
    (seek_request d) v (clock d) (buffer d) (frame_pts d) (video_cb d)
    (opaque d) (perf_monitor d) (state d) (preserved_seek_position d)
    (preserved_playback_position d) (state_preserved_time d)
    (seek_was_in_progress d) (delivered d).

Definition set_clock (d : ffmpeg_decoder) (v : clock_t) : ffmpeg_decoder :=
  Decoder (initialized d) (playing d) (stopping d) (thread_running d)
    (display_thread_created d) (format_ctx d) (hw_decoding_active d)
    (seek_request d) (seek_target d) v (buffer d) (frame_pts d) (video_cb d)
    (opaque d) (perf_monitor d) (state d) (preserved_seek_position d)
    (preserved_playback_position d) (state_preserved_time d)
    (seek_was_in_progress d) (delivered d).

Definition set_buffer (d : ffmpeg_decoder) (v : frame_buffer) : ffmpeg_decoder :=
  Decoder (initialized d) (playing d) (stopping d) (thread_running d)
    (display_thread_created d) (format_ctx d) (hw_decoding_active d)
    (seek_request d) (seek_target d) (clock d) v (frame_pts d) (video_cb d)
    (opaque d) (perf_monitor d) (state d) (preserved_seek_position d)
    (preserved_playback_position d) (state_preserved_time d)
    (seek_was_in_progress d) (delivered d).

Definition set_frame_pts (d : ffmpeg_decoder) (v : Z) : ffmpeg_decoder :=
  Decoder (initialized d) (playing d) (stopping d) (thread_running d)
    (display_thread_created d) (format_ctx d) (hw_decoding_active d)
    (seek_request d) (seek_target d) (clock d) (buffer d) v (video_cb d)
    (opaque d) (perf_monitor d) (state d) (preserved_seek_position d)
    (preserved_playback_position d) (state_preserved_time d)
    (seek_was_in_progress d) (delivered d).

Definition set_perf_monitor (d : ffmpeg_decoder) (v : option perf_monitor_t) : ffmpeg_decoder :=
  Decoder (initialized d) (playing d) (stopping d) (thread_running d)
    (display_thread_created d) (format_ctx d) (hw_decoding_active d)
    (seek_request d) (seek_target d) (clock d) (buffer d) (frame_pts d)
    (video_cb d) (opaque d) v (state d) (preserved_seek_position d)
    (preserved_playback_position d) (state_preserved_time d)
    (seek_was_in_progress d) (delivered d).

Definition set_state (d : ffmpeg_decoder) (v : decoder_state) : ffmpeg_decoder :=
  Decoder (initialized d) (playing d) (stopping d) (thread_running d)
    (display_thread_created d) (format_ctx d) (hw_decoding_active d)
    (seek_request d) (seek_target d) (clock d) (buffer d) (frame_pts d)
    (video_cb d) (opaque d) (perf_monitor d) v (preserved_seek_position d)
    (preserved_playback_position d) (state_preserved_time d)
    (seek_was_in_progress d) (delivered d).

Definition set_preserved_seek_position (d : ffmpeg_decoder) (v : Z) : ffmpeg_decoder :=
  Decoder (initialized d) (playing d) (stopping d) (thread_running d)
    (display_thread_created d) (format_ctx d) (hw_decoding_active d)
    (seek_request d) (seek_target d) (clock d) (buffer d) (frame_pts d)
    (video_cb d) (opaque d) (perf_monitor d) (state d) v
    (preserved_playback_position d) (state_preserved_time d)
    (seek_was_in_progress d) (delivered d).

Definition set_preserved_playback_position (d : ffmpeg_decoder) (v : Z) : ffmpeg_decoder :=
  Decoder (initialized d) (playing d) (stopping d) (thread_running d)
    (display_thread_created d) (format_ctx d) (hw_decoding_active d)
    (seek_request d) (seek_target d) (clock d) (buffer d) (frame_pts d)
    (video_cb d) (opaque d) (perf_monitor d) (state d)
    (preserved_seek_position d) v (state_preserved_time d)
    (seek_was_in_progress d) (delivered d).

Definition set_state_preserved_time (d : ffmpeg_decoder) (v : Z) : ffmpeg_decoder :=
  Decoder (initialized d) (playing d) (stopping d) (thread_running d)
    (display_thread_created d) (format_ctx d) (hw_decoding_active d)
    (seek_request d) (seek_target d) (clock d) (buffer d) (frame_pts d)
    (video_cb d) (opaque d) (perf_monitor d) (state d)
    (preserved_seek_position d) (preserved_playback_position d) v
    (seek_was_in_progress d) (delivered d).

Definition set_seek_was_in_progress (d : ffmpeg_decoder) (v : bool) : ffmpeg_decoder :=
  Decoder (initialized d) (playing d) (stopping d) (thread_running d)
    (display_thread_created d) (format_ctx d) (hw_decoding_active d)
    (seek_request d) (seek_target d) (clock d) (buffer d) (frame_pts d)
    (video_cb d) (opaque d) (perf_monitor d) (state d)
    (preserved_seek_position d) (preserved_playback_position d)
    (state_preserved_time d) v (delivered d).

Definition set_delivered (d : ffmpeg_decoder) (v : list Z) : ffmpeg_decoder :=
  Decoder (initialized d) (playing d) (stopping d) (thread_running d)
    (display_thread_created d) (format_ctx d) (hw_decoding_active d)
    (seek_request d) (seek_target d) (clock d) (buffer d) (frame_pts d)
    (video_cb d) (opaque d) (perf_monitor d) (state d)
    (preserved_seek_position d) (preserved_playback_position d)
    (state_preserved_time d) (seek_was_in_progress d) v.

(** [ffmpeg_decoder_create]: the initial values of these fields (the
    structure is zero-allocated); [f0], [f1], [f2] are the frames that
    [av_frame_alloc] returned for the three buffer slots. *)
Definition ffmpeg_decoder_create (monitor_allocated : bool)
    (f0 f1 f2 : positive) : ffmpeg_decoder :=
  Decoder false false false false false None false false 0
          (Clock 0 0 0 0 lit_1)
          (Buffer [Buffered (Some f0) 0 0 false false false false;
                   Buffered (Some f1) 0 0 false false false false;
                   Buffered (Some f2) 0 0 false false false false]
                  0 0 0)
          0 None None
          (if monitor_allocated then Some (PerfMonitor 0) else None)
          DECODER_STATE_STOPPED 0 0 0 false [].

(** *** The clock *)

(** [clock_get_system_time_for_pts] *)
Definition clock_get_system_time_for_pts (d : ffmpeg_decoder) (p : Z) : option Z :=
  let pts_delta := s64 (p - media_start_pts (clock d)) in
  let system_delta_ms :=
    double_div (double_of_int pts_delta)
               (double_mul lit_1000 (playback_rate (clock d))) in
  match double_to_uint64 system_delta_ms with
  | Some delta => Some (u64 (system_start (clock d) + delta))
  | None => None
  end.

(** [clock_reset]; [now_ns] is the value of [os_gettime_ns()]. *)
Definition clock_reset (d : ffmpeg_decoder) (start_pts : Z) (now_ns : Z)
    : ffmpeg_decoder :=
  set_clock d
    (Clock (now_ns / 1000000) start_pts start_pts (now_ns / 1000000)
           (playback_rate (clock d))).

(** [clock_update] *)
Definition clock_update (d : ffmpeg_decoder) (p : Z) (now_ns : Z)
    : ffmpeg_decoder :=
  set_clock d
    (Clock (system_start (clock d)) (media_start_pts (clock d)) p
           (now_ns / 1000000) (playback_rate (clock d))).

(** *** The display thread *)

(** What one pass through the loop body of [display_thread] does. *)
Inductive display_outcome : Set :=
| D_stop            (* [stopping] seen: the thread leaves the loop *)
| D_idle            (* not playing: sleep 20 ms *)
| D_wait_frame      (* buffer empty: wait on the condition *)
| D_not_ready       (* slot not ready: sleep 1 ms *)
| D_skip_invalid    (* frame from before a loop: consumed, not shown *)
| D_drop_late       (* more than 500 ms late: dropped *)
| D_wait_early      (* more than 3 ms early: sleep or spin, then retry *)
| D_bad_payload     (* NV12 planes missing: retry *)
| D_emit            (* frame handed to the sink and consumed *)
| D_discard.        (* no sink: consumed without being shown *)

Definition store_frame (b : frame_buffer) (i : Z) (f : buffered_frame) : frame_buffer :=
  Buffer (<[Z.to_nat i := f]> (frames b)) (write_idx b) (read_idx b) (count b).

(** The slot at [idx] is given back: the zero-copy reference is released,
    [ready] and [zero_copy] are cleared, the read index advances and the
    count goes down. *)
Definition consume_slot (b : frame_buffer) (idx : Z) (f : buffered_frame)
    : frame_buffer :=
  let f' :=
    Buffered (if zero_copy f then None else frame f) (pts f) (system_time f)
             false (is_hw_frame f) false (nv12_present f) in
  Buffer (<[Z.to_nat idx := f']> (frames b)) (write_idx b)
         (Z.rem (read_idx b + 1) 3) (count b - 1).

(** One pass through the body of the [while] loop of [display_thread].
    [now_ns] is the clock reading that decides about the frame, [now2_ns]
    the later one taken by [clock_update].  A pass that finds the buffer
    empty ends in the wait on the condition; what the source does after
    the wake-up is what the next pass does.  The signed product
    [time_until_display_ms * 1000000] wraps as on the two's complement
    targets of the plugin. *)
Definition display_iteration (d : ffmpeg_decoder) (now_ns now2_ns : Z)
    : display_outcome * ffmpeg_decoder :=
  if stopping d then (D_stop, d)
  else if negb (playing d) then (D_idle, d)
  else
    let b := buffer d in
    if count b =? 0 then (D_wait_frame, d)
    else
      let current_read_idx := read_idx b in
      match frames b !! Z.to_nat current_read_idx with
      | None => (D_not_ready, d)
      | Some buf_frame =>
          if negb (ready buf_frame) || (count b =? 0) then (D_not_ready, d)
          else
            let display_time := system_time buf_frame in
            let p := pts buf_frame in
            if (p <? 0) || (display_time =? 0) then
              (* marked consumed, skipped *)
              let f' :=
                Buffered (frame buf_frame) (pts buf_frame)
                         (system_time buf_frame) false (is_hw_frame buf_frame)
                         (zero_copy buf_frame) (nv12_present buf_frame) in
              (D_skip_invalid,
               set_buffer d
                 (Buffer (<[Z.to_nat current_read_idx := f']> (frames b))
                         (write_idx b) (Z.rem (read_idx b + 1) 3) (count b - 1)))
            else
              let current_time_ms := now_ns / 1000000 in
              let time_until_display_ms := s64 (display_time - current_time_ms) in
              let time_until_display := s64 (time_until_display_ms * 1000000) in
              if time_until_display <? -500000000 then
                (* way too late: drop *)
                let pm :=
                  match perf_monitor d with
                  | Some m => Some (PerfMonitor (u32 (frames_dropped m + 1)))
                  | None => None
                  end in
                (D_drop_late,
                 set_buffer (set_perf_monitor d pm)
                            (consume_slot b current_read_idx buf_frame))
              else if time_until_display >? 3000000 then (D_wait_early, d)
              else
                match video_cb d, opaque d with
                | Some _, Some _ =>
                    if negb (zero_copy buf_frame && bool_decide (frame buf_frame <> None))
                       && is_hw_frame buf_frame && negb (nv12_present buf_frame)
                    then (D_bad_payload, d)
                    else
                      let d1 := set_delivered d (delivered d ++ [p]) in
                      let d2 := clock_update (set_frame_pts d1 (u64 p)) p now2_ns in
                      (D_emit,
                       set_buffer d2 (consume_slot b current_read_idx buf_frame))
                | _, _ =>
                    (D_discard,
                     set_buffer d (consume_slot b current_read_idx buf_frame))
                end
      end.

(** *** Hardware frame transfer in [decoder_thread] *)

Inductive hw_outcome : Set :=
| HW_skip_frame       (* [continue]: this frame is not processed further *)
| HW_transferred      (* the transferred frame is used *)
| HW_not_used.        (* software path: the decoded frame is used as is *)

(** The block of [decoder_thread] that handles one decoded frame's
    transfer from the accelerator.  [count] is the function-static
    [hw_failure_count], [is_hw_fmt] tells whether the frame's format is
    [hw_pix_fmt], [ret] is the result of [av_hwframe_transfer_data], and
    [scaler_failed] whether a scaler had to be created and could not. *)
Definition hw_transfer_block (d : ffmpeg_decoder) (hw_failure_count : Z)
    (is_hw_fmt : bool) (ret : Z) (scaler_failed : bool)
    : hw_outcome * ffmpeg_decoder * Z :=
  if hw_decoding_active d && is_hw_fmt then
    if ret <? 0 then
      let n := hw_failure_count + 1 in
      if n >? 5 then
        (* persistent failures: fall back to software *)
        (HW_skip_frame, set_hw_decoding_active d false, 0)
      else
        (* temporary failure: retry *)
        (HW_skip_frame, d, n)
    else if scaler_failed then
      (HW_skip_frame, set_hw_decoding_active d false, hw_failure_count)
    else (HW_transferred, d, hw_failure_count)
  else (HW_not_used, d, hw_failure_count).

(** The block run over a sequence of decoded frames, each in the hardware
    format, given the result of each transfer ([ret] < 0 is a failure). *)
Fixpoint hw_run (d : ffmpeg_decoder) (hw_failure_count : Z) (rets : list Z)
    : ffmpeg_decoder * Z :=
  match rets with
  | [] => (d, hw_failure_count)
  | ret :: rest =>
      let '(_, d1, n1) := hw_transfer_block d hw_failure_count true ret false in
      hw_run d1 n1 rest
  end.



(** *** Pause-ready and resume *)

(** [ffmpeg_decoder_pause_ready] *)
Definition ffmpeg_decoder_pause_ready (d : ffmpeg_decoder) (now_ns : Z)
    : ffmpeg_decoder :=
  if negb (initialized d) then d
  else
    let d1 := set_state d DECODER_STATE_PAUSED_READY in
    let d2 := set_state_preserved_time d1 (now_ns / 1000000) in
    let d3 := set_preserved_playback_position d2 (s64 (frame_pts d2)) in
    let d4 :=
      if seek_request d3 then
        set_preserved_seek_position (set_seek_was_in_progress d3 true)
                                    (seek_target d3)
      else set_seek_was_in_progress d3 false in
    set_playing d4 false.

(** [ffmpeg_decoder_resume] *)
Definition ffmpeg_decoder_resume (d : ffmpeg_decoder) (now_ns : Z)
    : bool * ffmpeg_decoder :=
  if negb (initialized d) then (false, d)
  else if negb (bool_decide (state d = DECODER_STATE_PAUSED_READY)) then (false, d)
  else
    let current_time := now_ns / 1000000 in
    if u64 (current_time - state_preserved_time d) >? 10000 then
      (false, set_state d DECODER_STATE_STOPPED)
    else
      let d1 := set_playing (set_state d DECODER_STATE_PLAYING) true in
      let d2 :=
        if seek_was_in_progress d1 then
          set_seek_target (set_seek_request d1 true) (preserved_seek_position d1)
        else d1 in
      (true, d2).

(** [ffmpeg_decoder_is_paused_ready] *)
Definition ffmpeg_decoder_is_paused_ready (d : ffmpeg_decoder) : bool :=
  initialized d && bool_decide (state d = DECODER_STATE_PAUSED_READY).

(** *** Example data *)

(** A decoder that has been initialized and is playing, with two frames
    queued; the frame under the read index has the given [pts] and display
    time. *)
Definition sample_decoder (p display_time : Z) : ffmpeg_decoder :=
  Decoder true true false true true (Some 7%positive) true false 0
          (Clock 1000 0 0 1000 lit_1)
          (Buffer [Buffered (Some 1%positive) p display_time true false false false;
                   Buffered (Some 2%positive) 33000 1033 true false false false;
                   Buffered (Some 3%positive) 0 0 false false false false]
                  2 0 2)
          0 (Some 8%positive) (Some 9%positive)
          (Some (PerfMonitor 0))
          DECODER_STATE_PLAYING 0 0 0 false [].

(** *** Runs of the display loop and of the transfer block *)


(** The number of failed transfers in a sequence of results. *)
Fixpoint count_failures (rets : list Z) : Z :=
  match rets with
  | [] => 0
  | ret :: rest => (if ret <? 0 then 1 else 0) + count_failures rest
  end.

(** *** Playback control *)

Definition set_stopping (d : ffmpeg_decoder) (v : bool) : ffmpeg_decoder :=
  Decoder (initialized d) (playing d) v (thread_running d)
    (display_thread_created d) (format_ctx d) (hw_decoding_active d)
    (seek_request d) (seek_target d) (clock d) (buffer d) (frame_pts d)
    (video_cb d) (opaque d) (perf_monitor d) (state d)
    (preserved_seek_position d) (preserved_playback_position d)
    (state_preserved_time d) (seek_was_in_progress d) (delivered d).

Definition set_thread_running (d : ffmpeg_decoder) (v : bool) : ffmpeg_decoder :=
  Decoder (initialized d) (playing d) (stopping d) v
    (display_thread_created d) (format_ctx d) (hw_decoding_active d)
    (seek_request d) (seek_target d) (clock d) (buffer d) (frame_pts d)
    (video_cb d) (opaque d) (perf_monitor d) (state d)
    (preserved_seek_position d) (preserved_playback_position d)
    (state_preserved_time d) (seek_was_in_progress d) (delivered d).

Definition set_display_thread_created (d : ffmpeg_decoder) (v : bool)
    : ffmpeg_decoder :=
  Decoder (initialized d) (playing d) (stopping d) (thread_running d)
    v (format_ctx d) (hw_decoding_active d)
    (seek_request d) (seek_target d) (clock d) (buffer d) (frame_pts d)
    (video_cb d) (opaque d) (perf_monitor d) (state d)
    (preserved_seek_position d) (preserved_playback_position d)
    (state_preserved_time d) (seek_was_in_progress d) (delivered d).

(** [ffmpeg_decoder_pause] *)
Definition ffmpeg_decoder_pause (d : ffmpeg_decoder) : ffmpeg_decoder :=
  set_playing d false.

(** [ffmpeg_decoder_stop] *)
Definition ffmpeg_decoder_stop (d : ffmpeg_decoder) : ffmpeg_decoder :=
  set_playing (set_state d DECODER_STATE_STOPPED) false.

(** [ffmpeg_decoder_seek] *)
Definition ffmpeg_decoder_seek (d : ffmpeg_decoder) (position_us : Z)
    : ffmpeg_decoder :=
  if negb (initialized d) then d
  else set_seek_target (set_seek_request d true) position_us.

(** [ffmpeg_decoder_get_position] *)
Definition ffmpeg_decoder_get_position (d : ffmpeg_decoder) : Z :=
  if negb (initialized d) then 0 else s64 (frame_pts d).

(** [ffmpeg_decoder_is_playing] *)
Definition ffmpeg_decoder_is_playing (d : ffmpeg_decoder) : bool := playing d.

(** The decoder together with the further fields of
    [struct ffmpeg_decoder] that [ffmpeg_decoder_play_with_timeline] and
    the decoding thread read or write. *)
Record decoder_session : Type := Session {
  dec : ffmpeg_decoder;
  interrupt_request : bool;
  looping : bool;
  waiting_for_first_frame : bool;
  waiting_for_first_audio : bool;
  global_timeline_start_ms : Z;
  pts_offset : Z;
  start_time_ns : Z
}.


(** [ffmpeg_decoder_play_with_timeline]; [display_created] tells whether
    [pthread_create] of the display thread returned 0. *)
Definition ffmpeg_decoder_play_with_timeline (s : decoder_session)
    (timeline_start_ms : Z) (display_created : bool) : decoder_session :=
  if negb (initialized (dec s)) then s
  else
    let d1 := set_state (dec s) DECODER_STATE_PLAYING in
    let d2 := set_stopping (set_playing d1 true) false in
    let d3 :=
      if negb (display_thread_created d2)
      then (if display_created then set_display_thread_created d2 true else d2)
      else d2 in
    let d4 :=
      if negb (thread_running d3) then set_thread_running d3 true else d3 in
    Session d4 false true true true timeline_start_ms
            (pts_offset s) (start_time_ns s).

(** [ffmpeg_decoder_play] *)
Definition ffmpeg_decoder_play (s : decoder_session) (display_created : bool)
    : decoder_session :=
  ffmpeg_decoder_play_with_timeline s 0 display_created.

(** *** The decoding thread: flushes and the first frame *)

Definition AV_NOPTS_VALUE : Z := - 2 ^ 63.



(** The clock reset of [decoder_thread] on the first frame after a
    start, a seek or a loop; [pts_us] is the frame's timestamp, [now_ns]
    and [now2_ns] are the two readings of [os_gettime_ns()]. *)
Definition decoder_first_frame (s : decoder_session) (pts_us : Z)
    (now_ns now2_ns : Z) : decoder_session :=
  if waiting_for_first_frame s && negb (pts_us =? AV_NOPTS_VALUE) then
    Session (clock_reset (dec s) pts_us now_ns)
            (interrupt_request s) (looping s) false
            (waiting_for_first_audio s) (global_timeline_start_ms s)
            (s64 (pts_us * 1000))
            (if waiting_for_first_audio s then now2_ns else start_time_ns s)
  else s.

(** The clock handling of a run of decoded frames, each with its
    timestamp and the two clock readings. *)
Fixpoint decoder_frames (s : decoder_session) (fs : list (Z * Z * Z))
    : decoder_session :=
  match fs with
  | [] => s
  | (pts_us, now_ns, now2_ns) :: rest =>
      decoder_frames (decoder_first_frame s pts_us now_ns now2_ns) rest
  end.

(** *** Example data *)

(** A session around the sample decoder, as [play] leaves the further
    fields. *)
Definition sample_session (p display_time : Z) : decoder_session :=
  Session (sample_decoder p display_time) false true true true 0 0 0.

End Decoder.

(** ** The playlist timeline of the video source (fmgnice-video-source.c) *)

Module VideoSource.

(** [struct fvs_source], the fields of the timeline *)
Record fvs_source : Type := Source {
  current_index : Z;
  loop : bool;
  timeline_start_time : Z;
  timeline_active : bool;
  durations : list Z;
  total_duration : Z;
  last_expected_offset : Z;
  deactivate_timer_active : bool
}.

Definition set_durations (s : fvs_source) (ds : list Z) (total : Z) : fvs_source :=
  Source (current_index s) (loop s) (timeline_start_time s) (timeline_active s)
         ds total (last_expected_offset s) (deactivate_timer_active s).

(** What opening one file of the playlist gives [cache_durations]:
    [avformat_open_input] failed, [avformat_find_stream_info] failed, or
    the duration field of the format context. *)
Inductive probe_result : Type :=
| ProbeOpenFailed
| ProbeNoStreamInfo
| ProbeDuration (d : Z).

Definition AV_NOPTS_VALUE : Z := - 2 ^ 63.

(** The fallback of thirty minutes, [30 * 60 * 1000000] microseconds *)
Definition default_duration : Z := 30 * 60 * 1000000.

(** The duration [cache_durations] settles on for one file. *)
Definition probed_duration (r : probe_result) : Z :=
  match r with
  | ProbeDuration d =>
      if (d =? AV_NOPTS_VALUE) || (d <=? 0) then default_duration else d
  | ProbeNoStreamInfo | ProbeOpenFailed => default_duration
  end.

(** The loop of [cache_durations] over the playlist, with the array and
    the running total. *)
Fixpoint cache_durations_loop (probes : list probe_result)
    (ds : list Z) (total : Z) : list Z * Z :=
  match probes with
  | [] => (ds, total)
  | r :: rest =>
      let duration := probed_duration r in
      cache_durations_loop rest (ds ++ [duration]) (s64 (total + duration))
  end.

(** [cache_durations]; [probes] is what opening each file of the playlist
    gives, in order. *)
Definition cache_durations (s : fvs_source) (probes : list probe_result)
    : fvs_source :=
  let '(ds, total) := cache_durations_loop probes [] 0 in
  set_durations s ds total.

(** The scan of [calculate_timeline_position] for the file that contains
    [elapsed_us], from index [i] on with [accumulated] microseconds
    before it. *)
Fixpoint find_position (ds : list Z) (i : Z) (accumulated elapsed_us : Z)
    : option (Z * Z) :=
  match ds with
  | [] => None
  | dur :: rest =>
      if elapsed_us <? s64 (accumulated + dur)
      then Some (i, s64 (elapsed_us - accumulated))
      else find_position rest (i + 1) (s64 (accumulated + dur)) elapsed_us
  end.

(** [calculate_timeline_position]: the pair of [*out_index] and
    [*out_offset]; [now_ns] is the value of [os_gettime_ns()]. *)
Definition calculate_timeline_position (s : fvs_source) (now_ns : Z) : Z * Z :=
  let num := Z.of_nat (length (durations s)) in
  if (timeline_start_time s =? 0) || (num =? 0) then (0, 0)
  else
    let current_time := now_ns / 1000000 in
    let elapsed_ms := u64 (current_time - timeline_start_time s) in
    let elapsed_us0 := s64 (elapsed_ms * 1000) in
    let looping := loop s && (total_duration s >? 0) in
    let elapsed_us :=
      if looping then Z.rem elapsed_us0 (total_duration s) else elapsed_us0 in
    match find_position (durations s) 0 0 elapsed_us with
    | Some r => r
    | None =>
        if looping then (0, 0)
        else (num - 1, nth (Z.to_nat (num - 1)) (durations s) 0)
    end.

(** The global timeline: [g_global_timeline_start]. *)

(** [fmgnice_reset_global_timeline] *)
Definition fmgnice_reset_global_timeline (g : Z) : Z := 0.

(** The first part of [fvs_activate], up to the decision between resume
    and restart: a pending deactivation is cancelled, the global timeline
    is claimed if no source has done so, the source adopts it, and the
    durations are cached if they are not yet.  The result is the global
    timeline and the source. *)
Definition fvs_activate_timeline (g : Z) (s : fvs_source) (now_ns : Z)
    (probes : list probe_result) : Z * fvs_source :=
  let g' := if g =? 0 then now_ns / 1000000 else g in
  let s1 :=
    Source (current_index s) (loop s) g' (timeline_active s)
           (durations s) (total_duration s) (last_expected_offset s) false in
  let s2 :=
    if Z.of_nat (length (durations s1)) =? 0 then cache_durations s1 probes
    else s1 in
  (g',
   Source (current_index s2) (loop s2) (timeline_start_time s2) true
          (durations s2) (total_duration s2) (last_expected_offset s2)
          (deactivate_timer_active s2)).

(** Activations of several sources, one after the other, each with its
    clock reading and the probes of its playlist; the sources as
    activated, in order. *)
Fixpoint activate_all (g : Z) (acts : list (fvs_source * Z * list probe_result))
    : Z * list fvs_source :=
  match acts with
  | [] => (g, [])
  | (s, now_ns, probes) :: rest =>
      let '(g1, s1) := fvs_activate_timeline g s now_ns probes in
      let '(g2, ss) := activate_all g1 rest in
      (g2, s1 :: ss)
  end.

(** The microseconds of a list of files. *)
Definition sum_us (ds : list Z) : Z := foldr Z.add 0 ds.

(** *** Example data: a playlist of three files *)

Definition sample_probes : list probe_result :=
  [ProbeDuration 60000000; ProbeOpenFailed; ProbeDuration 90000000].

Definition sample_source : fvs_source :=
  Source 0 true 0 false [] 0 0 true.

End VideoSource.

(** ** Aligned memory (aligned-memory.h) and the frame pool
    (ffmpeg-decoder.c) *)

Module AlignedMemory.

Definition SIMD_ALIGNMENT : Z := 32.
Definition CACHE_ALIGNMENT : Z := 64.

(** [~x] on a [size_t] *)
Definition not64 (x : Z) : Z := u64 (Z.lnot x).

(** [is_aligned]; the pointer as an address *)
Definition is_aligned (p : Z) (alignment : Z) : bool :=
  Z.land p (u64 (alignment - 1)) =? 0.

(** [align_size] *)
Definition align_size (size alignment : Z) : Z :=
  Z.land (u64 (size + alignment - 1)) (not64 (u64 (alignment - 1))).

(** [memcpy(dst, src, size)] on the contents of the two buffers *)
Definition memcpy (dst src : list Z) (size : Z) : list Z :=
  take (Z.to_nat size) src ++ drop (Z.to_nat size) dst.

(** One aligned 32-byte store [_mm256_store_si256(d + i, _mm256_load_si256(s + i))] *)
Definition store_chunk (dst src : list Z) (i : nat) : list Z :=
  take (32 * i) dst ++ take 32 (drop (32 * i) src) ++ drop (32 * i + 32) dst.

(** The loop of [aligned_memcpy] over the chunks [i .. chunks - 1];
    [n] counts the chunks that remain. *)
Fixpoint copy_chunks (dst src : list Z) (i n : nat) : list Z :=
  match n with
  | O => dst
  | S n' => copy_chunks (store_chunk dst src i) src (S i) n'
  end.

(** [aligned_memcpy] as compiled for the plugin's target (MSVC);
    [dst_addr] and [src_addr] are the addresses of the two buffers. *)
Definition aligned_memcpy (dst_addr src_addr : Z) (dst src : list Z) (size : Z)
    : list Z :=
  if is_aligned dst_addr 32 && is_aligned src_addr 32 && (64 <=? size) then
    let chunks := size / 32 in
    let d1 := copy_chunks dst src 0 (Z.to_nat chunks) in
    let remaining := Z.land size 31 in
    if negb (remaining =? 0) then
      let off := Z.to_nat (chunks * 32) in
      take off d1 ++ take (Z.to_nat remaining) (drop off src)
           ++ drop (off + Z.to_nat remaining) d1
    else d1
  else memcpy dst src size.

(** *** Example data: the bytes 0, 1, 2, ... *)
Definition seq_bytes (n : nat) : list Z := map Z.of_nat (seq 0 n).

End AlignedMemory.

(** ** The frame pool (ffmpeg-decoder.c) *)

Module FramePool.
Import AlignedMemory.

Definition FRAME_POOL_SIZE : Z := 10.
Definition MAX_FRAME_SIZE : Z := 3840 * 2160 * 4.

(** Wrap-around of an [atomic_int] *)
Definition s32 (z : Z) : Z := (z + 2 ^ 31) mod 2 ^ 32 - 2 ^ 31.

(** The allocated blocks, by address, with their sizes. *)
Abbreviation block_heap := (gmap positive Z).

(** [aligned_alloc_simd(size)]: a block at an address not in use, [NULL]
    when the allocator fails; whether it does is decided outside and
    passed in. *)
Definition aligned_alloc_simd (m : block_heap) (size : Z) (ok : bool)
    : ptr * block_heap :=
  if ok then let a := fresh (dom m) in (Some a, <[a := size]> m) else (None, m).

(** [bmalloc(size)] *)
Definition bmalloc (m : block_heap) (size : Z) (ok : bool) : ptr * block_heap :=
  if ok then let a := fresh (dom m) in (Some a, <[a := size]> m) else (None, m).

(** [aligned_free(ptr)] *)
Definition aligned_free (m : block_heap) (p : ptr) : block_heap :=
  match p with
  | Some a => delete a m
  | None => m
  end.

(** The static [frame_pool] *)
Record frame_pool_t : Type := Pool {
  buffers : list ptr;
  used : list bool;
  buffer_size : Z;
  initialized : bool;
  allocation_count : Z;
  pool_hits : Z;
  pool_misses : Z
}.

(** [frame_pool = {0}] *)
Definition frame_pool_zero : frame_pool_t :=
  Pool (replicate (Z.to_nat FRAME_POOL_SIZE) None)
       (replicate (Z.to_nat FRAME_POOL_SIZE) false) 0 false 0 0 0.

(** The loop of [init_frame_pool]; for each buffer, [oks] tells whether
    the aligned allocation and the fallback [bmalloc] succeed. *)
Fixpoint init_buffers (m : block_heap) (frame_size : Z) (oks : list (bool * bool))
    : list ptr * block_heap :=
  match oks with
  | [] => ([], m)
  | (ok_simd, ok_bmalloc) :: rest =>
      let '(p, m1) := aligned_alloc_simd m frame_size ok_simd in
      let '(p', m2) :=
        match p with
        | Some _ => (p, m1)
        | None => bmalloc m1 frame_size ok_bmalloc
        end in
      let '(ps, m3) := init_buffers m2 frame_size rest in
      (p' :: ps, m3)
  end.

(** [init_frame_pool] *)
Definition init_frame_pool (pool : frame_pool_t) (m : block_heap)
    (frame_size : Z) (oks : nat -> bool * bool) : frame_pool_t * block_heap :=
  if initialized pool then (pool, m)
  else
    let frame_size := align_size frame_size SIMD_ALIGNMENT in
    let '(bufs, m') :=
      init_buffers m frame_size (map oks (seq 0 (Z.to_nat FRAME_POOL_SIZE))) in
    (Pool bufs (replicate (Z.to_nat FRAME_POOL_SIZE) false) frame_size true 0 0 0,
     m').

(** The scan of [get_frame_buffer] for a buffer that is not in use: the
    index of the first flag that is false, and the flags with it set. *)
Fixpoint claim_first (flags : list bool) (i : nat) : option (nat * list bool) :=
  match flags with
  | [] => None
  | u :: rest =>
      if u then
        match claim_first rest (S i) with
        | Some (k, r) => Some (k, u :: r)
        | None => None
        end
      else Some (i, true :: rest)
  end.

(** [get_frame_buffer]; [oks] are the outcomes of the allocations of a
    first initialization, [ok] that of an allocation outside the pool. *)
Definition get_frame_buffer (pool : frame_pool_t) (m : block_heap) (size : Z)
    (oks : nat -> bool * bool) (ok : bool)
    : ptr * frame_pool_t * block_heap :=
  let outside (pl : frame_pool_t) (mm : block_heap) (exhausted : bool) :=
    let '(p, m') := aligned_alloc_simd mm (align_size size SIMD_ALIGNMENT) ok in
    (p,
     Pool (buffers pl) (used pl) (buffer_size pl) (initialized pl)
          (if exhausted then s32 (allocation_count pl + 1) else allocation_count pl)
          (pool_hits pl) (s32 (pool_misses pl + 1)),
     m') in
  let from_pool (pl : frame_pool_t) (mm : block_heap) :=
    match claim_first (used pl) 0 with
    | Some (i, flags) =>
        (nth i (buffers pl) None,
         Pool (buffers pl) flags (buffer_size pl) (initialized pl)
              (allocation_count pl) (s32 (pool_hits pl + 1)) (pool_misses pl),
         mm)
    | None => outside pl mm true
    end in
  if negb (initialized pool) || (buffer_size pool <? size) then
    if negb (initialized pool) && (size <=? MAX_FRAME_SIZE) then
      let '(pool1, m1) := init_frame_pool pool m MAX_FRAME_SIZE oks in
      from_pool pool1 m1
    else outside pool m false
  else from_pool pool m.

(** The scan of [release_frame_buffer]: the first index whose buffer is
    [a]. *)
Fixpoint find_buffer (bufs : list ptr) (a : positive) (i : nat) : option nat :=
  match bufs with
  | [] => None
  | b :: rest =>
      if decide (b = Some a) then Some i else find_buffer rest a (S i)
  end.

(** [release_frame_buffer] *)
Definition release_frame_buffer (pool : frame_pool_t) (m : block_heap)
    (buffer : ptr) : frame_pool_t * block_heap :=
  match buffer with
  | None => (pool, m)
  | Some a =>
      match find_buffer (buffers pool) a 0 with
      | Some i =>
          (Pool (buffers pool) (<[i := false]> (used pool)) (buffer_size pool)
                (initialized pool) (allocation_count pool) (pool_hits pool)
                (pool_misses pool),
           m)
      | None => (pool, aligned_free m buffer)
      end
  end.

(** [cleanup_frame_pool] *)
Definition cleanup_frame_pool (pool : frame_pool_t) (m : block_heap)
    : frame_pool_t * block_heap :=
  if negb (initialized pool) then (pool, m)
  else
    (Pool (map (fun _ => None) (buffers pool)) (used pool) (buffer_size pool)
          false (allocation_count pool) (pool_hits pool) (pool_misses pool),
     foldl aligned_free m (buffers pool)).

(** Calls of the pool by its user, and a run of them; the buffers the
    [get_frame_buffer] calls returned, in order. *)
Inductive pool_op : Type :=
| OpGet (size : Z) (ok : bool)
| OpRelease (buffer : ptr).

#[global] Instance pool_op_eq_dec : EqDecision pool_op.
Proof. solve_decision. Defined.

Fixpoint pool_run (pool : frame_pool_t) (m : block_heap)
    (oks : nat -> bool * bool) (ops : list pool_op)
    : list ptr * frame_pool_t * block_heap :=
  match ops with
  | [] => ([], pool, m)
  | OpGet size ok :: rest =>
      let '(p, pool1, m1) := get_frame_buffer pool m size oks ok in
      let '(ps, pool2, m2) := pool_run pool1 m1 oks rest in
      (p :: ps, pool2, m2)
  | OpRelease buffer :: rest =>
      let '(pool1, m1) := release_frame_buffer pool m buffer in
      pool_run pool1 m1 oks rest
  end.

(** Buffer [a] is handed out: its block is allocated, and where it is a
    buffer of the pool it is flagged as used. *)
Definition handed_out (pool : frame_pool_t) (m : block_heap) (a : positive) : Prop :=
  is_Some (m !! a) /\
  forall i, buffers pool !! i = Some (Some a) -> used pool !! i = Some true.

(** The pool after a successful initialization: ten distinct allocated
    buffers. *)
Definition pool_ok (pool : frame_pool_t) (m : block_heap) : Prop :=
  initialized pool = true /\
  length (buffers pool) = Z.to_nat FRAME_POOL_SIZE /\
  length (used pool) = Z.to_nat FRAME_POOL_SIZE /\
  NoDup (buffers pool) /\
  Forall (fun b => exists a, b = Some a /\ is_Some (m !! a)) (buffers pool).

Definition all_ok : nat -> bool * bool := fun _ => (true, true).

End FramePool.

(** * Properties *)

(** ** Machine integers *)

Lemma u64_range z : 0 <= u64 z < 2 ^ 64.
Proof. unfold u64. apply Z.mod_pos_bound. lia. Qed.

Lemma u64_small z : 0 <= z < 2 ^ 64 -> u64 z = z.
Proof. intros H. unfold u64. apply Z.mod_small. lia. Qed.

Lemma u32_small z : 0 <= z < 2 ^ 32 -> u32 z = z.
Proof. intros H. unfold u32. apply Z.mod_small. lia. Qed.

Lemma s64_small z : - 2 ^ 63 <= z < 2 ^ 63 -> s64 z = z.
Proof. intros H. unfold s64. rewrite Z.mod_small; lia. Qed.


(** ** Ring buffer: capacity and FIFO order *)

Module RingBufferSpec.
Import RingBuffer.

Lemma wf_slots4 rb :
  rb_wf rb ->
  exists s0 s1 s2 s3, slots rb = [s0; s1; s2; s3].
Proof.
  intros (Hlen & _ & _).
  destruct (slots rb) as [|s0 [|s1 [|s2 [|s3 [|s4 l]]]]]; try discriminate Hlen.
  by exists s0, s1, s2, s3.
Qed.

Lemma pos_cases p :
  0 <= p < RING_BUFFER_SIZE -> p = 0 \/ p = 1 \/ p = 2 \/ p = 3.
Proof. unfold RING_BUFFER_SIZE. lia. Qed.

(** What one successful enqueue does: the slot under the write cursor was
    empty, now holds the item in state Ready, and the cursor moved on. *)
Lemma enqueue_true rb it rb' :
  0 <= write_pos rb < RING_BUFFER_SIZE ->
  enqueue rb it = (true, rb') ->
  (exists s, slots rb !! Z.to_nat (write_pos rb) = Some s /\
             state s = SLOT_EMPTY) /\
  rb' = Ring (Z.land (write_pos rb + 1) (RING_BUFFER_SIZE - 1)) (read_pos rb)
             (<[Z.to_nat (write_pos rb) := Slot (fst it) (snd it) SLOT_READY]>
                (slots rb))
             (u64 (frames_written rb + 1)) (frames_read rb)
             (write_failures rb) (read_failures rb).
Proof.
  intros Hw. unfold enqueue, lockfree_ringbuffer_write_begin, cas_state, slot_at.
  destruct (slots rb !! Z.to_nat (write_pos rb)) as [s|] eqn:Hs; [|discriminate].
  destruct (decide (state s = SLOT_EMPTY)) as [He|]; [|discriminate].
  intros [= <-]. split; [by exists s|].
  unfold lockfree_ringbuffer_write_commit, slot_at, store_slot, set_slots,
    set_write_pos, set_frames_written; cbn [write_pos read_pos slots
    frames_written frames_read write_failures read_failures].
  destruct (Z.leb_spec RING_BUFFER_SIZE (write_pos rb)) as [Hge|_]; [lia|].
  rewrite list_lookup_insert_eq by (by eapply lookup_lt_Some).
  by rewrite list_insert_insert_eq.
Qed.

(** A failed [write_begin] touches nothing but the failure counter. *)
Lemma write_begin_none rb rb' :
  lockfree_ringbuffer_write_begin rb = (None, rb') ->
  rb' = set_write_failures rb (u64 (write_failures rb + 1)).
Proof.
  unfold lockfree_ringbuffer_write_begin.
  destruct (cas_state rb (write_pos rb) SLOT_EMPTY SLOT_WRITING); congruence.
Qed.

(** C3. Bounded capacity: after [RING_BUFFER_SIZE] successful enqueues with
    no dequeue in between, the next [write_begin] returns false, adds one
    to [write_failures], and leaves the slots and both cursors (and the
    other counters) as they were. *)
Theorem write_begin_fails_when_full
    (rb rb4 : lockfree_ringbuffer) (items : list (ptr * Z)) :
  rb_wf rb ->
  length items = Z.to_nat RING_BUFFER_SIZE ->
  enqueue_all rb items = Some rb4 ->
  exists rb5,
    lockfree_ringbuffer_write_begin rb4 = (None, rb5) /\
    write_failures rb5 = u64 (write_failures rb4 + 1) /\
    slots rb5 = slots rb4 /\
    write_pos rb5 = write_pos rb4 /\
    read_pos rb5 = read_pos rb4 /\
    frames_written rb5 = frames_written rb4 /\
    frames_read rb5 = frames_read rb4 /\
    read_failures rb5 = read_failures rb4.
Proof.
  intros Hwf Hlen Henq.
  destruct (wf_slots4 rb Hwf) as (s0 & s1 & s2 & s3 & Hs).
  destruct Hwf as (_ & Hw & _). apply pos_cases in Hw.
  destruct rb as [wp rp sl fw fr wf rf]; simpl in Hs, Hw; subst sl.
  destruct items as [|i0 [|i1 [|i2 [|i3 [|i4 l]]]]]; try discriminate Hlen.
  clear Hlen.
  destruct s0 as [f0 t0 st0], s1 as [f1 t1 st1],
           s2 as [f2 t2 st2], s3 as [f3 t3 st3].
  cbn [enqueue_all] in Henq.
  destruct (enqueue _ i0) as [[] rb1] eqn:E0; [|discriminate].
  destruct (enqueue rb1 i1) as [[] rb2] eqn:E1; [|discriminate].
  destruct (enqueue rb2 i2) as [[] rb3] eqn:E2; [|discriminate].
  destruct (enqueue rb3 i3) as [[] rb4'] eqn:E3; [|discriminate].
  injection Henq as ->.
  destruct Hw as [-> | [-> | [-> | ->]]].
  all: apply enqueue_true in E0 as [_ ->]; [|by vm_compute]; simpl in E1.
  all: apply enqueue_true in E1 as [_ ->]; [|by vm_compute]; simpl in E2.
  all: apply enqueue_true in E2 as [_ ->]; [|by vm_compute]; simpl in E3.
  all: apply enqueue_true in E3 as [_ ->]; [|by vm_compute]; simpl.
  all: eexists; split; [reflexivity|repeat split; reflexivity].
Qed.

(** A dequeue attempt on a slot that is not Ready fails and only counts. *)
Lemma dequeue_not_ready complete rb :
  (forall s, slot_at rb (read_pos rb) = Some s -> state s <> SLOT_READY) ->
  dequeue complete rb =
    (None, set_read_failures rb (u64 (read_failures rb + 1))).
Proof.
  intros Hn. unfold dequeue, lockfree_ringbuffer_read_begin, cas_state.
  destruct (slot_at rb (read_pos rb)) as [s|] eqn:Hs; [|done].
  destruct (decide (state s = SLOT_READY)) as [He|]; [|done].
  by destruct (Hn s).
Qed.

Lemma drain_stuck complete k rb :
  (forall s, slot_at rb (read_pos rb) = Some s -> state s <> SLOT_READY) ->
  fst (drain complete k rb) = [].
Proof.
  revert rb. induction k as [|k IH]; intros rb Hn; [done|].
  cbn [drain]. rewrite dequeue_not_ready by done. by apply IH.
Qed.


Lemma enqueue_empty rb it s :
  0 <= write_pos rb < RING_BUFFER_SIZE ->
  slots rb !! Z.to_nat (write_pos rb) = Some s ->
  state s = SLOT_EMPTY ->
  enqueue rb it =
    (true,
     Ring (Z.land (write_pos rb + 1) (RING_BUFFER_SIZE - 1)) (read_pos rb)
          (<[Z.to_nat (write_pos rb) := Slot (fst it) (snd it) SLOT_READY]>
             (slots rb))
          (u64 (frames_written rb + 1)) (frames_read rb)
          (write_failures rb) (read_failures rb)).
Proof.
  intros Hw Hs He.
  destruct (enqueue rb it) as [b rb'] eqn:E.
  destruct b.
  - by apply enqueue_true in E as [_ ->].
  - exfalso. revert E.
    unfold enqueue, lockfree_ringbuffer_write_begin, cas_state, slot_at.
    rewrite Hs. by destruct (decide (state s = SLOT_EMPTY)).
Qed.

Lemma dequeue_ready complete rb f ts :
  0 <= read_pos rb < RING_BUFFER_SIZE ->
  slots rb !! Z.to_nat (read_pos rb) = Some (Slot f ts SLOT_READY) ->
  dequeue complete rb =
    (Some (f, ts),
     Ring (write_pos rb) (Z.land (read_pos rb + 1) (RING_BUFFER_SIZE - 1))
          (<[Z.to_nat (read_pos rb) :=
               Slot None 0 (if complete then SLOT_EMPTY else SLOT_READING)]>
             (slots rb))
          (frames_written rb) (u64 (frames_read rb + 1))
          (write_failures rb) (read_failures rb)).
Proof.
  intros Hr Hs.
  assert (Hlt : (Z.to_nat (read_pos rb) < length (slots rb))%nat)
    by (by eapply lookup_lt_Some).
  unfold dequeue, lockfree_ringbuffer_read_begin, cas_state, slot_at.
  rewrite Hs. cbn [state frame timestamp].
  destruct (decide (SLOT_READY = SLOT_READY)); [|done].
  unfold store_slot, set_slots, set_read_pos, set_frames_read,
    lockfree_ringbuffer_read_complete, slot_at, store_slot, set_slots;
    cbn [write_pos read_pos slots frames_written frames_read
         write_failures read_failures].
  rewrite list_lookup_insert_eq by done. cbn [state frame timestamp].
  rewrite list_insert_insert_eq.
  destruct complete; [|done].
  destruct (Z.leb_spec RING_BUFFER_SIZE (read_pos rb)) as [Hge|_]; [lia|].
  cbn [write_pos read_pos slots frames_written frames_read
       write_failures read_failures].
  rewrite list_lookup_insert_eq by done. cbn [state frame timestamp].
  by rewrite list_insert_insert_eq.
Qed.

#[local] Arguments u64 : simpl never.

Ltac rb_side :=
  cbn [write_pos read_pos slots state];
  first [ reflexivity | unfold RING_BUFFER_SIZE; lia ].

(** Evaluation of the closed cursor arithmetic left behind by a step. *)
Ltac rb_eval :=
  unfold RING_BUFFER_SIZE;
  repeat match goal with
         | |- context [Z.land ?a ?b] =>
             let v := eval vm_compute in (Z.land a b) in
             change (Z.land a b) with v
         | |- context [Z.to_nat ?a] =>
             let v := eval vm_compute in (Z.to_nat a) in
             change (Z.to_nat a) with v
         end;
  cbn [write_pos read_pos slots frames_written frames_read write_failures
       read_failures fst snd insert list_insert lookup list_lookup
       state frame timestamp].

Ltac rb_enqueue :=
  cbn [enqueue_all];
  erewrite enqueue_empty by (rb_eval; rb_side);
  rb_eval.

Ltac rb_dequeue :=
  cbn [drain length];
  erewrite dequeue_ready by (rb_eval; rb_side);
  rb_eval.


Lemma init_idle : rb_idle lockfree_ringbuffer_init.
Proof.
  split; [|split]; [|by repeat constructor|done].
  split; [done|]. cbn. unfold RING_BUFFER_SIZE. lia.
Defined.

Lemma write_begin_fails_when_full_witness :
  exists rb4 rb5,
    enqueue_all lockfree_ringbuffer_init sample_items = Some rb4 /\
    lockfree_ringbuffer_write_begin rb4 = (None, rb5) /\
    write_failures rb5 = u64 (write_failures rb4 + 1) /\
    slots rb5 = slots rb4 /\
    write_pos rb5 = write_pos rb4.
Proof.
  let v := eval vm_compute in (enqueue_all lockfree_ringbuffer_init sample_items) in
  lazymatch v with
  | Some ?r =>
      exists r;
      assert (E : enqueue_all lockfree_ringbuffer_init sample_items = Some r)
        by (vm_compute; reflexivity);
      destruct (write_begin_fails_when_full lockfree_ringbuffer_init r sample_items)
        as (rb5 & H1 & H2 & H3 & H4 & _);
        [apply init_idle|vm_compute; reflexivity|exact E|]
  end.
  exists rb5. split; [exact E|]. split; [exact H1|].
  split; [exact H2|]. split; [exact H3|exact H4].
Defined.


End RingBufferSpec.

(** ** Frame cache: eviction, lookup, failure of [put] *)

Module FrameCacheSpec.
Import FrameCache.

Lemma find_lru_loop_none es i old idx :
  Forall (fun e => state e <> CACHE_EMPTY) es ->
  (forall k e, es !! k = Some e -> evictable e -> old <= last_access_time e) ->
  find_lru_loop es i old idx = idx.
Proof.
  revert i. induction es as [|e0 es IH]; intros i Hocc Hno; [done|].
  apply Forall_cons in Hocc as [Hne Hocc]. cbn [find_lru_loop].
  destruct (decide (state e0 = CACHE_EMPTY)); [done|].
  destruct (bool_decide (state e0 = CACHE_READY) && (ref_count e0 =? 0)
            && (last_access_time e0 <? old)) eqn:Hc.
  - apply andb_prop in Hc as [Hc Hlt]. apply andb_prop in Hc as [Hst Hrc].
    apply bool_decide_eq_true in Hst. apply Z.eqb_eq in Hrc.
    apply Z.ltb_lt in Hlt.
    specialize (Hno 0%nat e0 eq_refl (conj Hst Hrc)). lia.
  - apply IH; [done|]. intros k e Hk. by apply (Hno (S k)).
Qed.

Lemma find_lru_loop_min es i old idx k e :
  Forall (fun e => state e <> CACHE_EMPTY) es ->
  lru_at es k e ->
  last_access_time e < old ->
  find_lru_loop es i old idx = i + Z.of_nat k.
Proof.
  revert i old idx k.
  induction es as [|e0 es IH]; intros i old idx k Hocc (Hk & Hev & Hmin & Hfst) Hlt;
    [done|].
  apply Forall_cons in Hocc as [Hne Hocc]. cbn [find_lru_loop].
  destruct (decide (state e0 = CACHE_EMPTY)); [done|].
  destruct k as [|k].
  - injection Hk as ->. destruct Hev as [Hst Hrc].
    rewrite bool_decide_eq_true_2 by done.
    rewrite (proj2 (Z.eqb_eq _ _) Hrc), (proj2 (Z.ltb_lt _ _) Hlt).
    cbn [andb]. rewrite find_lru_loop_none; [lia|done|].
    intros k' e' Hk' He'. by apply (Hmin (S k')).
  - assert (Hrest : lru_at es k e).
    { split; [done|]. split; [done|]. split.
      - intros k' e' Hk'. by apply (Hmin (S k')).
      - intros k' e' Hlt' Hk'. apply (Hfst (S k')); [lia|done]. }
    destruct (bool_decide (state e0 = CACHE_READY) && (ref_count e0 =? 0)
              && (last_access_time e0 <? old)) eqn:Hc.
    + apply andb_prop in Hc as [Hc _]. apply andb_prop in Hc as [Hst Hrc].
      apply bool_decide_eq_true in Hst. apply Z.eqb_eq in Hrc.
      rewrite (IH (i + 1) _ _ k); [lia|done|done|].
      apply (Hfst 0%nat e0); [lia|done|done].
    + rewrite (IH (i + 1) _ _ k); [lia|done|done|done].
Qed.

(** The index returned by [find_lru_entry] is never that of an occupied
    entry that is not evictable. *)
Lemma find_lru_loop_sound es i old idx r :
  find_lru_loop es i old idx = r ->
  r = idx \/
  exists k e, r = i + Z.of_nat k /\ es !! k = Some e /\
              (state e = CACHE_EMPTY \/ evictable e).
Proof.
  revert i old idx. induction es as [|e0 es IH]; intros i old idx; [by left|].
  cbn [find_lru_loop].
  destruct (decide (state e0 = CACHE_EMPTY)) as [He|He].
  - intros <-. right. exists 0%nat, e0. split; [lia|]. split; [done|by left].
  - destruct (bool_decide (state e0 = CACHE_READY) && (ref_count e0 =? 0)
              && (last_access_time e0 <? old)) eqn:Hc.
    + apply andb_prop in Hc as [Hc _]. apply andb_prop in Hc as [Hst Hrc].
      apply bool_decide_eq_true in Hst. apply Z.eqb_eq in Hrc.
      intros Hr. apply IH in Hr as [-> | (k & e & -> & Hk & Hp)].
      * right. exists 0%nat, e0. split; [lia|]. split; [done|by right].
      * right. exists (S k), e. split; [lia|done].
    + intros Hr. apply IH in Hr as [-> | (k & e & -> & Hk & Hp)]; [by left|].
      right. exists (S k), e. split; [lia|done].
Qed.

Lemma find_lru_entry_lru c k e :
  all_occupied c ->
  lru_at (entries c) k e ->
  last_access_time e < UINT64_MAX ->
  find_lru_entry c = Z.of_nat k.
Proof.
  intros Hocc Hlru Hlt. unfold find_lru_entry.
  by rewrite (find_lru_loop_min _ _ _ _ k e).
Qed.

Lemma find_lru_entry_pinned c :
  all_occupied c ->
  Forall (fun e => ref_count e <> 0) (entries c) ->
  find_lru_entry c = -1.
Proof.
  intros Hocc Hpin. unfold find_lru_entry.
  apply find_lru_loop_none; [done|].
  intros k e Hk [_ Hrc]. rewrite Forall_lookup in Hpin.
  by destruct (Hpin k e Hk).
Qed.

(** Whatever [frame_cache_put] returns, it wrote to at most one entry, the
    one picked by [find_lru_entry]. *)
Lemma put_entries h c fa p bg ls w ht now env b h' c' :
  frame_cache_put h c fa p bg ls w ht now env = (b, h', c') ->
  c' = c \/
  exists e', 0 <= find_lru_entry c /\
             entries c' = <[Z.to_nat (find_lru_entry c) := e']> (entries c).
Proof.
  unfold frame_cache_put. destruct fa as [a|]; [|intros [= <- <- <-]; by left].
  destruct (negb (enabled c)); [intros [= <- <- <-]; by left|].
  destruct (Z.ltb_spec (find_lru_entry c) 0) as [|Hge];
    [intros [= <- <- <-]; by left|].
  destruct (entry_at c (find_lru_entry c)) as [e0|];
    [|intros [= <- <- <-]; by left].
  destruct (av_frame_clone _ a (clone_ok env)) as [[cl|] h2];
    intros [= <- <- <-]; right; eexists; (split; [done|]); reflexivity.
Qed.

(** C5. LRU eviction.  With every slot occupied, [frame_cache_put] picks
    the evictable (Ready, reference count 0) entry with the oldest
    last-access time, releases what it owned and counts one eviction; an
    occupied entry with a non-zero reference count is never written to;
    and when every entry is pinned, [put] returns false and changes
    nothing. *)
Theorem put_evicts_lru
    (h : frame_heap) (c : frame_cache) (a : positive) (p : Z)
    (bg ls : option (list Z)) (w ht now : Z) (env : alloc_env) :
  cache_ok c ->
  enabled c = true ->
  all_occupied c ->
  (forall k e,
     lru_at (entries c) k e ->
     last_access_time e < UINT64_MAX ->
     find_lru_entry c = Z.of_nat k /\
     exists b h' c' e' a0,
       frame_cache_put h c (Some a) p bg ls w ht now env = (b, h', c') /\
       evictions c' = u64 (evictions c + 1) /\
       entries c' = <[k := e']> (entries c) /\
       frame e = Some a0 /\
       h' = snd (av_frame_clone (delete a0 h) a (clone_ok env)) /\
       ((b = true /\ state e' = CACHE_READY /\ pts e' = p /\
         ref_count e' = 0 /\ frame e' <> None) \/
        (b = false /\ state e' = CACHE_EMPTY /\ frame e' = None))) /\
  (forall j e,
     entries c !! j = Some e -> ref_count e <> 0 ->
     find_lru_entry c <> Z.of_nat j /\
     forall b h' c',
       frame_cache_put h c (Some a) p bg ls w ht now env = (b, h', c') ->
       entries c' !! j = Some e) /\
  (Forall (fun e => ref_count e <> 0) (entries c) ->
   frame_cache_put h c (Some a) p bg ls w ht now env = (false, h, c)).
Proof.
  intros [Hlen Hok] Hen Hocc. split; [|split].
  - intros k e Hlru Hlt.
    pose proof (find_lru_entry_lru c k e Hocc Hlru Hlt) as Hfind.
    split; [done|].
    destruct Hlru as (Hk & [Hst Hrc] & _).
    rewrite Forall_lookup in Hok. destruct (Hok k e Hk) as (_ & _ & Hfr).
    destruct (frame e) as [a0|] eqn:Ha0; [|by destruct (Hfr Hst)].
    unfold frame_cache_put. rewrite Hen, Hfind. cbn [negb].
    destruct (Z.ltb_spec (Z.of_nat k) 0) as [|_]; [lia|].
    unfold entry_at, store_entry. rewrite Nat2Z.id, Hk.
    rewrite Ha0. cbn [av_frame_free].
    destruct (av_frame_clone (delete a0 h) a (clone_ok env))
      as [[cl|] h2] eqn:Hcl.
    + eexists true, h2, _, _, a0. split; [reflexivity|].
      cbn. do 3 (split; [reflexivity|]). split; [by rewrite Hcl|].
      left. by repeat split.
    + eexists false, h2, _, _, a0. split; [reflexivity|].
      cbn. do 3 (split; [reflexivity|]). split; [by rewrite Hcl|].
      right. by repeat split.
  - intros j e Hj Hrc.
    assert (Hne : find_lru_entry c <> Z.of_nat j).
    { destruct (find_lru_loop_sound (entries c) 0 UINT64_MAX (-1) _ eq_refl)
        as [Hr | (k & ek & Hr & Hk & Hp)];
        fold (find_lru_entry c) in *; [lia|].
      rewrite Hr, Z.add_0_l. intros Hkj. apply Nat2Z.inj in Hkj as ->.
      rewrite Hk in Hj. injection Hj as ->.
      destruct Hp as [He | [_ H0]]; [|done].
      unfold all_occupied in Hocc. rewrite Forall_lookup in Hocc.
      by destruct (Hocc j e Hk). }
    split; [done|]. intros b h' c' Hput.
    apply put_entries in Hput as [-> | (e' & Hge & ->)]; [done|].
    rewrite list_lookup_insert_ne; [done|]. lia.
  - intros Hpin. unfold frame_cache_put.
    by rewrite Hen, (find_lru_entry_pinned c Hocc Hpin).
Qed.

Lemma find_ready_first es p i k e :
  es !! k = Some e ->
  state e = CACHE_READY -> pts e = p ->
  (forall k' e', (k' < k)%nat -> es !! k' = Some e' ->
     state e' = CACHE_READY -> pts e' <> p) ->
  find_ready es p i = Some (i + Z.of_nat k).
Proof.
  revert i k. induction es as [|e0 es IH]; intros i k Hk Hst Hp Hfst; [done|].
  cbn [find_ready]. destruct k as [|k].
  - injection Hk as ->. rewrite bool_decide_eq_true_2 by done.
    rewrite (proj2 (Z.eqb_eq _ _) Hp). cbn [andb]. f_equal. lia.
  - destruct (bool_decide (state e0 = CACHE_READY) && (pts e0 =? p)) eqn:Hc.
    + apply andb_prop in Hc as [Hst0 Hp0].
      apply bool_decide_eq_true in Hst0. apply Z.eqb_eq in Hp0.
      destruct (Hfst 0%nat e0); [lia|done..].
    + rewrite (IH (i + 1) k); [f_equal; lia|done..|].
      intros k' e' Hlt Hk'. apply (Hfst (S k')); [lia|done].
Qed.

Lemma find_ready_none es p i :
  (forall k e, es !! k = Some e -> state e = CACHE_READY -> pts e <> p) ->
  find_ready es p i = None.
Proof.
  revert i. induction es as [|e0 es IH]; intros i Hno; [done|].
  cbn [find_ready].
  destruct (bool_decide (state e0 = CACHE_READY) && (pts e0 =? p)) eqn:Hc.
  - apply andb_prop in Hc as [Hst0 Hp0].
    apply bool_decide_eq_true in Hst0. apply Z.eqb_eq in Hp0.
    by destruct (Hno 0%nat e0).
  - apply IH. intros k e Hk. by apply (Hno (S k)).
Qed.

Lemma get_hit c p now k e :
  enabled c = true ->
  entries c !! k = Some e ->
  state e = CACHE_READY -> pts e = p ->
  (forall k' e', (k' < k)%nat -> entries c !! k' = Some e' ->
     state e' = CACHE_READY -> pts e' <> p) ->
  frame_cache_get c p now =
    (Some (Z.of_nat k),
     set_hits
       (store_entry c (Z.of_nat k)
          (Entry (frame e) (pts e) (u32 (ref_count e + 1)) (state e)
                 (bgra_data e) (bgra_linesize e) (width e) (height e)
                 now (u32 (access_count e + 1))))
       (u64 (hits c + 1))).
Proof.
  intros Hen Hk Hst Hp Hfst. unfold frame_cache_get.
  rewrite Hen. cbn [negb].
  rewrite (find_ready_first _ _ _ k e) by done. rewrite Z.add_0_l.
  unfold entry_at. by rewrite Nat2Z.id, Hk.
Qed.

Lemma get_miss c p now :
  enabled c = true ->
  (forall k e, entries c !! k = Some e -> state e = CACHE_READY -> pts e <> p) ->
  frame_cache_get c p now = (None, set_misses c (u64 (misses c + 1))).
Proof.
  intros Hen Hno. unfold frame_cache_get. rewrite Hen. cbn [negb].
  by rewrite find_ready_none.
Qed.



(** C10. [frame_cache_put] is not atomic on failure.  With every slot
    occupied and the clone failing, [put] returns false, yet the victim it
    had picked is gone: its frame is freed, its pixel buffer released, its
    slot Empty (and the eviction counted, with no insertion); every other
    entry is as before.  A lookup that hit the victim's [pts] before the
    call misses after it. *)
Theorem put_failure_not_atomic
    (h : frame_heap) (c : frame_cache) (a : positive) (p : Z)
    (bg ls : option (list Z)) (w ht now : Z) (env : alloc_env)
    (k : nat) (e : cached_frame) :
  cache_ok c ->
  enabled c = true ->
  all_occupied c ->
  lru_at (entries c) k e ->
  last_access_time e < UINT64_MAX ->
  clone_ok env = false ->
  exists a0 c' e',
    frame e = Some a0 /\
    frame_cache_put h c (Some a) p bg ls w ht now env = (false, delete a0 h, c') /\
    delete a0 h !! a0 = None /\
    entries c' = <[k := e']> (entries c) /\
    state e' = CACHE_EMPTY /\ frame e' = None /\ bgra_data e' = None /\
    evictions c' = u64 (evictions c + 1) /\
    insertions c' = insertions c /\
    (forall t,
       (forall k' e0, k' <> k -> entries c !! k' = Some e0 ->
          state e0 = CACHE_READY -> pts e0 <> pts e) ->
       fst (frame_cache_get c (pts e) t) = Some (Z.of_nat k) /\
       fst (frame_cache_get c' (pts e) t) = None).
Proof.
  intros [Hlen Hok] Hen Hocc Hlru Hlt Hcl.
  pose proof (find_lru_entry_lru c k e Hocc Hlru Hlt) as Hfind.
  destruct Hlru as (Hk & [Hst Hrc] & _).
  rewrite Forall_lookup in Hok. destruct (Hok k e Hk) as (_ & _ & Hfr).
  destruct (frame e) as [a0|] eqn:Ha0; [|by destruct (Hfr Hst)].
  assert (Hklt : (k < length (entries c))%nat) by (by eapply lookup_lt_Some).
  eexists a0, _, _. split; [done|]. split.
  { unfold frame_cache_put. rewrite Hen, Hfind. cbn [negb].
    destruct (Z.ltb_spec (Z.of_nat k) 0) as [|_]; [lia|].
    unfold entry_at, store_entry. rewrite Nat2Z.id, Hk, Ha0.
    cbn [av_frame_free]. unfold av_frame_clone. rewrite Hcl.
    by destruct (delete a0 h !! a). }
  split; [by apply lookup_delete_eq|].
  cbn. do 6 (split; [reflexivity|]).
  intros t Huniq. split.
  - rewrite (get_hit c (pts e) t k e); [done..|].
    intros k' e0 Hlt' Hk'. apply (Huniq k'); [lia|done].
  - rewrite get_miss; [done..|].
    intros k' e0. cbn [entries set_evictions set_entries].
    destruct (decide (k' = k)) as [->|Hne].
    + rewrite list_lookup_insert_eq by done. by intros [= <-].
    + rewrite list_lookup_insert_ne by done. by apply Huniq.
Qed.

(** *** The theorems at the sample cache *)

Lemma lru_at_Forall es k e :
  es !! k = Some e ->
  evictable e ->
  Forall (fun e' => evictable e' -> last_access_time e <= last_access_time e') es ->
  Forall (fun e' => evictable e' -> last_access_time e < last_access_time e')
         (take k es) ->
  lru_at es k e.
Proof.
  intros Hk Hev Hall Hfst. split; [done|]. split; [done|]. split.
  - intros k' e' Hk'. rewrite Forall_lookup in Hall. by apply (Hall k').
  - intros k' e' Hlt Hk'. rewrite Forall_lookup in Hfst. apply (Hfst k').
    by rewrite lookup_take_lt.
Qed.

Lemma sample_cache_ok b : cache_ok (sample_cache b).
Proof.
  split; [done|]. apply Forall_forall. intros e He.
  apply list_elem_of_fmap in He as (i & -> & Hi).
  apply elem_of_seq in Hi.
  change (Z.to_nat FRAME_CACHE_SIZE) with 30%nat in Hi.
  unfold entry_ok, sample_entry, UINT64_MAX; cbn.
  repeat split; try done;
    destruct (b || (i =? 0)%nat), (i =? 0)%nat, (i =? 5)%nat; lia.
Qed.

Lemma sample_cache_occupied b : all_occupied (sample_cache b).
Proof.
  apply Forall_forall. intros e He.
  by apply list_elem_of_fmap in He as (i & -> & _).
Qed.

Lemma sample_cache_lru :
  lru_at (entries (sample_cache false)) 5 (sample_entry false 5).
Proof.
  apply lru_at_Forall; [done|done|..];
    apply (bool_decide_unpack _); vm_compute; reflexivity.
Qed.

Lemma put_evicts_lru_witness :
  find_lru_entry (sample_cache false) = 5 /\
  (exists b h' c',
     frame_cache_put sample_heap (sample_cache false) (Some 31%positive)
       999999 None None 0 0 5000 (sample_env true) = (b, h', c') /\
     evictions c' = u64 (evictions (sample_cache false) + 1)) /\
  frame_cache_put sample_heap (sample_cache true) (Some 31%positive)
    999999 None None 0 0 5000 (sample_env true)
  = (false, sample_heap, sample_cache true).
Proof.
  destruct (put_evicts_lru sample_heap (sample_cache false) 31 999999
              None None 0 0 5000 (sample_env true))
    as (H1 & _ & _);
    [apply sample_cache_ok|reflexivity|apply sample_cache_occupied|].
  destruct (H1 5%nat (sample_entry false 5) sample_cache_lru)
    as (Hf & b & h' & c' & e' & a0 & Hput & Hev & _);
    [vm_compute; reflexivity|].
  split; [exact Hf|]. split; [by exists b, h', c'|].
  destruct (put_evicts_lru sample_heap (sample_cache true) 31 999999
              None None 0 0 5000 (sample_env true))
    as (_ & _ & H3);
    [apply sample_cache_ok|reflexivity|apply sample_cache_occupied|].
  apply H3. apply Forall_forall. intros e He.
  by apply list_elem_of_fmap in He as (i & -> & _).
Defined.



Lemma put_failure_not_atomic_witness :
  exists h' c',
    frame_cache_put sample_heap (sample_cache false) (Some 31%positive)
      999999 None None 0 0 5000 (sample_env false) = (false, h', c') /\
    h' !! 6%positive = None /\
    fst (frame_cache_get (sample_cache false) 166665 7000) = Some 5 /\
    fst (frame_cache_get c' 166665 7000) = None.
Proof.
  destruct (put_failure_not_atomic sample_heap (sample_cache false) 31 999999
              None None 0 0 5000 (sample_env false) 5 (sample_entry false 5))
    as (a0 & c' & e' & Ha0 & Hput & Hfree & _ & _ & _ & _ & _ & _ & Hget);
    [apply sample_cache_ok|reflexivity|apply sample_cache_occupied
    |apply sample_cache_lru|vm_compute; reflexivity|reflexivity|].
  injection Ha0 as <-.
  exists (delete 6%positive sample_heap), c'.
  split; [exact Hput|]. split; [exact Hfree|].
  apply (Hget 7000).
  intros k' e0 Hne Hk' _.
  assert (Hin : (k' < 30)%nat) by (by apply lookup_lt_Some in Hk').
  do 30 (destruct k' as [|k']; [first [done|injection Hk' as <-; by vm_compute]|]).
  lia.
Defined.

End FrameCacheSpec.

(** ** The clock's [double] arithmetic

    [clock_get_system_time_for_pts] divides a [double] by [1000.0 * rate]
    and truncates.  At the rate 1.0 that [ffmpeg_decoder_create] sets, the
    result is the integer quotient by 1000, for every delta below 2^53
    microseconds; this is proved here from the definitions of the binary64
    operations. *)

Module DoubleSpec.
Import Decoder.

Lemma lit_1000_ok : double_of_int 1000 = lit_1000.
Proof. vm_compute. reflexivity. Qed.
Lemma lit_1_ok : double_of_int 1 = lit_1.
Proof. vm_compute. reflexivity. Qed.
Lemma rate_one : double_mul lit_1000 lit_1 = lit_1000.
Proof. vm_compute. reflexivity. Qed.

Lemma digits2_pos_bounds (p : positive) :
  2 ^ (Z.pos (digits2_pos p) - 1) <= Z.pos p < 2 ^ Z.pos (digits2_pos p).
Proof.
  induction p as [p IH|p IH|]; cbn [digits2_pos].
  - rewrite Pos2Z.inj_succ.
    replace (Z.succ (Z.pos (digits2_pos p)) - 1) with (Z.succ (Z.pos (digits2_pos p) - 1)) by lia.
    rewrite !Z.pow_succ_r by lia. lia.
  - rewrite Pos2Z.inj_succ.
    replace (Z.succ (Z.pos (digits2_pos p)) - 1) with (Z.succ (Z.pos (digits2_pos p) - 1)) by lia.
    rewrite !Z.pow_succ_r by lia. lia.
  - split; by vm_compute.
Qed.

Lemma digits2_pos_unique (p : positive) (n : Z) :
  2 ^ (n - 1) <= Z.pos p < 2 ^ n -> 0 < n ->
  Z.pos (digits2_pos p) = n.
Proof.
  intros [Hlo Hhi] Hn.
  destruct (digits2_pos_bounds p) as [Hlo' Hhi'].
  set (k := Z.pos (digits2_pos p)) in *.
  assert (Hk : 0 < k) by (subst k; lia).
  destruct (Z.lt_trichotomy k n) as [Hlt|[Heq|Hgt]]; [|done|].
  - exfalso. assert (2 ^ k <= 2 ^ (n - 1)) by (apply Z.pow_le_mono_r; lia). lia.
  - exfalso. assert (2 ^ n <= 2 ^ (k - 1)) by (apply Z.pow_le_mono_r; lia). lia.
Qed.

Lemma iter_xO_pow (m d : positive) :
  Z.pos (Pos.iter xO m d) = Z.pos m * 2 ^ Z.pos d.
Proof.
  induction d as [|d IH] using Pos.peano_ind.
  - cbn [Pos.iter]. lia.
  - rewrite Pos.iter_succ, Pos2Z.inj_xO, IH, Pos2Z.inj_succ, Z.pow_succ_r by lia. lia.
Qed.

Lemma fexp_normal e : -1021 <= e -> fexp prec emax e = e - 53.
Proof. intros H. unfold fexp, emin, prec, emax. lia. Qed.

Lemma shr_fexp_53 m e l :
  Z.pos (digits2_pos m) = 53 -> -1074 <= e ->
  shr_fexp prec emax (Z.pos m) e l = (shr_record_of_loc (Z.pos m) l, e).
Proof.
  intros Hd He. unfold shr_fexp. cbn [Zdigits2]. rewrite Hd.
  rewrite fexp_normal by lia.
  replace (53 + e - 53 - e) with 0 by lia. reflexivity.
Qed.

Lemma shr_fexp_54 m e l :
  Z.pos (digits2_pos m) = 54 -> -1074 <= e ->
  shr_fexp prec emax (Z.pos m) e l = (shr_1 (shr_record_of_loc (Z.pos m) l), e + 1).
Proof.
  intros Hd He. unfold shr_fexp. cbn [Zdigits2]. rewrite Hd.
  rewrite fexp_normal by lia.
  replace (54 + e - 53 - e) with 1 by lia. reflexivity.
Qed.

Lemma loc_of_shr_record_of_loc m l :
  loc_of_shr_record (shr_record_of_loc m l) = l.
Proof. by destruct l as [|[]]. Qed.

Lemma shr_m_of_loc m l : shr_m (shr_record_of_loc m l) = m.
Proof. by destruct l as [|[]]. Qed.

(** The second normalisation step of [binary_round_aux] and its final
    test, on a mantissa of 53 bits, or of 54 after a carry. *)
Lemma round_finish (s : bool) (m1 : positive) (e1 : Z) :
  2 ^ 52 <= Z.pos m1 <= 2 ^ 53 -> -1074 <= e1 <= 970 ->
  exists Mres Eres,
    (let '(mrs, e2) := shr_fexp prec emax (Z.pos m1) e1 loc_Exact in
     match shr_m mrs with
     | Z0 => S754_zero s
     | Z.pos m => if e2 <=? emax - prec then S754_finite s m e2
                  else S754_infinity s
     | Z.neg _ => S754_nan
     end) = S754_finite s Mres Eres /\
    e1 <= Eres <= e1 + 1 /\
    Z.pos Mres * 2 ^ (Eres - e1) = Z.pos m1.
Proof.
  intros Hm He.
  destruct (Z.eq_dec (Z.pos m1) (2 ^ 53)) as [Heq|Hne].
  - assert (m1 = 9007199254740992%positive) as -> by (injection Heq as ->; reflexivity).
    rewrite shr_fexp_54 by (done || lia).
    exists 4503599627370496%positive, (e1 + 1).
    cbn [shr_record_of_loc shr_1 shr_m].
    destruct (Z.leb_spec (e1 + 1) (emax - prec)) as [_|Hgt];
      [|unfold emax, prec in Hgt; lia].
    split; [done|]. split; [lia|].
    replace (e1 + 1 - e1) with 1 by lia. reflexivity.
  - assert (Hd : Z.pos (digits2_pos m1) = 53) by (apply digits2_pos_unique; lia).
    rewrite shr_fexp_53 by (done || lia).
    exists m1, e1. cbn [shr_record_of_loc shr_m].
    destruct (Z.leb_spec e1 (emax - prec)) as [_|Hgt];
      [|unfold emax, prec in Hgt; lia].
    split; [done|]. split; [lia|].
    rewrite Z.sub_diag. lia.
Qed.

Lemma round_nearest_even_incr (m : positive) (l : location) :
  exists (m1 : positive) (c : Z),
    round_nearest_even (Z.pos m) l = Z.pos m1 /\
    (c = 0 \/ c = 1) /\ Z.pos m1 = Z.pos m + c /\
    (c = 1 -> l = loc_Inexact Eq \/ l = loc_Inexact Gt).
Proof.
  assert (H0 : forall l', exists (m1 : positive) (c : Z),
             Z.pos m = Z.pos m1 /\ (c = 0 \/ c = 1) /\ Z.pos m1 = Z.pos m + c /\
             (c = 1 -> l' = loc_Inexact Eq \/ l' = loc_Inexact Gt)).
  { intros l'. exists m, 0. split; [done|]. split; [by left|]. split; [lia|done]. }
  assert (H1 : forall l', l' = loc_Inexact Eq \/ l' = loc_Inexact Gt ->
             exists (m1 : positive) (c : Z),
             Z.pos m + 1 = Z.pos m1 /\ (c = 0 \/ c = 1) /\ Z.pos m1 = Z.pos m + c /\
             (c = 1 -> l' = loc_Inexact Eq \/ l' = loc_Inexact Gt)).
  { intros l' Hl. exists (m + 1)%positive, 1.
    split; [lia|]. split; [by right|]. split; [lia|done]. }
  destruct l as [|[]]; cbn [round_nearest_even].
  - apply H0.
  - destruct (Z.even (Z.pos m)); [apply H0|apply H1; by left].
  - apply H0.
  - apply H1; by right.
Qed.

(** [binary_round_aux] on a quotient of 53 or 54 bits: the mantissa is
    rounded at the 53rd bit, by at most one unit, and upwards only past
    the half-way point. *)
Lemma binary_round_aux_53_54 (q : positive) (e : Z) (l : location) :
  2 ^ 52 <= Z.pos q < 2 ^ 54 -> -1074 <= e <= 968 ->
  exists Mres Eres c,
    binary_round_aux prec emax false (Z.pos q) e l = S754_finite false Mres Eres /\
    (c = 0 \/ c = 1) /\
    ((Z.pos q < 2 ^ 53 /\ e <= Eres <= e + 1 /\
      Z.pos Mres * 2 ^ (Eres - e) = Z.pos q + c) \/
     (2 ^ 53 <= Z.pos q /\ e + 1 <= Eres <= e + 2 /\
      Z.pos Mres * 2 ^ (Eres - (e + 1)) = Z.pos q / 2 + c /\
      (c = 1 -> Z.odd (Z.pos q) = true))).
Proof.
  intros Hq He. unfold binary_round_aux.
  destruct (Z.lt_ge_cases (Z.pos q) (2 ^ 53)) as [Hlt|Hge].
  - assert (Hd : Z.pos (digits2_pos q) = 53) by (apply digits2_pos_unique; lia).
    rewrite shr_fexp_53 by (done || lia).
    rewrite loc_of_shr_record_of_loc, shr_m_of_loc.
    destruct (round_nearest_even_incr q l) as (m1 & c & -> & Hc & Hm1 & _).
    destruct (round_finish false m1 e) as (Mres & Eres & -> & HE & HM); [lia|lia|].
    exists Mres, Eres, c. split; [done|]. split; [done|]. left.
    split; [done|]. split; [done|]. lia.
  - assert (Hd : Z.pos (digits2_pos q) = 54) by (apply digits2_pos_unique; lia).
    rewrite shr_fexp_54 by (done || lia).
    assert (Hshr : exists (p : positive) (r s : bool),
               shr_1 (shr_record_of_loc (Z.pos q) l) = Build_shr_record (Z.pos p) r s /\
               Z.pos q / 2 = Z.pos p /\ (r = true -> Z.odd (Z.pos q) = true)).
    { destruct q as [p|p|]; [| |lia].
      - exists p. destruct l as [|[]]; cbn [shr_record_of_loc shr_1];
          eexists _, _; (split; [reflexivity|]); split; try done;
          rewrite Pos2Z.inj_xI; symmetry; apply Z.div_unique with 1; lia.
      - exists p. destruct l as [|[]]; cbn [shr_record_of_loc shr_1];
          eexists _, _; (split; [reflexivity|]); split; try done;
          rewrite Pos2Z.inj_xO; symmetry; apply Z.div_unique with 0; lia. }
    destruct Hshr as (p & r & s & -> & Hp & Hr).
    cbn [shr_m].
    destruct (round_nearest_even_incr p (loc_of_shr_record (Build_shr_record (Z.pos p) r s)))
      as (m1 & c & -> & Hc & Hm1 & Hup).
    assert (Hp52 : 2 ^ 52 <= Z.pos p < 2 ^ 53).
    { rewrite <- Hp. split.
      - apply Z.div_le_lower_bound; lia.
      - apply Z.div_lt_upper_bound; lia. }
    destruct (round_finish false m1 (e + 1)) as (Mres & Eres & -> & HE & HM); [lia|lia|].
    exists Mres, Eres, c. split; [done|]. split; [done|]. right.
    split; [done|]. split; [lia|]. split; [lia|].
    intros Hc1. apply Hr. destruct (Hup Hc1) as [Hl|Hl];
      destruct r, s; cbn in Hl; congruence.
Qed.

Lemma binary_round_aux_exact (s : bool) (M : positive) (E : Z) :
  Z.pos (digits2_pos M) = 53 -> -1074 <= E <= 971 ->
  binary_round_aux prec emax s (Z.pos M) E loc_Exact = S754_finite s M E.
Proof.
  intros Hd HE. unfold binary_round_aux.
  rewrite shr_fexp_53 by (done || lia).
  cbn [shr_record_of_loc shr_m loc_of_shr_record round_nearest_even].
  rewrite shr_fexp_53 by (done || lia).
  cbn [shr_record_of_loc shr_m].
  destruct (Z.leb_spec E (emax - prec)) as [_|Hgt]; [done|].
  unfold emax, prec in Hgt. lia.
Qed.

(** [(double)d] is exact for [0 < d < 2^53]: the mantissa is [d] shifted
    to 53 bits. *)
Lemma double_of_int_pos (m : positive) :
  Z.pos m < 2 ^ 53 ->
  exists (M : positive) (k : Z),
    1 <= k <= 53 /\ 2 ^ (k - 1) <= Z.pos m < 2 ^ k /\
    Z.pos M = Z.pos m * 2 ^ (53 - k) /\
    Z.pos (digits2_pos M) = 53 /\
    double_of_int (Z.pos m) = S754_finite false M (k - 53).
Proof.
  intros Hm.
  destruct (digits2_pos_bounds m) as [Hlo Hhi].
  set (k := Z.pos (digits2_pos m)) in *.
  assert (Hk1 : 1 <= k) by (subst k; lia).
  assert (Hk : k <= 53).
  { destruct (Z.le_gt_cases k 53) as [|Hgt]; [done|exfalso].
    assert (2 ^ 53 <= 2 ^ (k - 1)) by (apply Z.pow_le_mono_r; lia). lia. }
  unfold double_of_int, binary_normalize, binary_round.
  fold k. rewrite Z.add_0_r, fexp_normal by lia.
  unfold shl_align. rewrite Z.sub_0_r.
  destruct (Z.eq_dec k 53) as [Hk53|Hne].
  - rewrite Hk53. cbn [Z.sub Z.add Z.opp Z.pos_sub Pos.compare Pos.compare_cont].
    change (53 - 53) with 0.
    exists m, k. rewrite Hk53. change (2 ^ (53 - 53)) with 1.
    rewrite binary_round_aux_exact by (done || lia).
    split; [lia|]. split; [by rewrite <- Hk53|]. split; [lia|]. by split.
  - destruct (k - 53) as [|dd|dd] eqn:Hdd; [lia|lia|].
    assert (Hpow : Z.pos (Pos.iter xO m dd) = Z.pos m * 2 ^ (53 - k)).
    { rewrite iter_xO_pow. f_equal. f_equal. lia. }
    assert (H52 : 2 ^ (k - 1) * 2 ^ (53 - k) = 2 ^ 52).
    { rewrite <- Z.pow_add_r by lia. f_equal. lia. }
    assert (H53 : 2 ^ k * 2 ^ (53 - k) = 2 ^ 53).
    { rewrite <- Z.pow_add_r by lia. f_equal. lia. }
    assert (Hpos : 0 < 2 ^ (53 - k)) by (apply Z.pow_pos_nonneg; lia).
    assert (Hd : Z.pos (digits2_pos (Pos.iter xO m dd)) = 53).
    { apply digits2_pos_unique; [|lia]. rewrite Hpow.
      change (53 - 1) with 52. rewrite <- H52, <- H53. split.
      - apply Z.mul_le_mono_nonneg_r; lia.
      - apply Z.mul_lt_mono_pos_r; lia. }
    exists (Pos.iter xO m dd), k.
    rewrite binary_round_aux_exact by (done || lia).
    split; [lia|]. split; [done|]. split; [done|]. split; [done|].
    by rewrite Hdd.
Qed.

Lemma M1000_eq : M1000 = 1000 * 2 ^ 43.
Proof. reflexivity. Qed.

(** Division of a 53-bit mantissa by [1000.0]: the quotient handed to the
    rounding step. *)
Lemma double_div_1000 (M : positive) (E : Z) :
  Z.pos (digits2_pos M) = 53 -> -1000 <= E <= 900 ->
  double_div (S754_finite false M E) lit_1000 =
    binary_round_aux prec emax false
      (Z.pos M * 2 ^ 53 / M1000) (E - 10)
      (new_location_even M1000 ((Z.pos M * 2 ^ 53) mod M1000)).
Proof.
  intros Hd HE.
  unfold double_div, SFdiv, lit_1000, SFdiv_core_binary.
  cbn [Zdigits2 xorb]. rewrite Hd.
  change (Z.pos (digits2_pos 8796093022208000)) with 53.
  replace (53 + E - (53 + -43)) with (E + 43) by lia.
  rewrite fexp_normal by lia.
  rewrite Z.min_l by lia.
  replace (E - -43 - (E + 43 - 53)) with 53 by lia.
  cbv iota. rewrite Z.shiftl_mul_pow2 by lia.
  fold M1000.
  unfold Z.div, Z.modulo.
  destruct (Z.div_eucl (Z.pos M * 2 ^ 53) M1000) as [q r].
  unfold new_location. change (Z.even M1000) with true. cbv iota.
  f_equal. lia.
Qed.

(** Integer arithmetic behind the truncation: rounding the scaled quotient
    at a granularity finer than 1/1000 cannot reach the next integer. *)
Lemma scaled_quotient (d P : Z) :
  0 <= d -> 1024 <= P ->
  exists g, d * P / 1000 = d / 1000 * P + g /\ 0 <= g <= P - 2.
Proof.
  intros Hd HP.
  pose proof (Z.div_mod d 1000 ltac:(lia)) as Hdm.
  pose proof (Z.mod_pos_bound d 1000 ltac:(lia)) as Hf.
  set (j := d / 1000) in *. set (f := d mod 1000) in *.
  exists (f * P / 1000). split.
  - replace (d * P) with (j * P * 1000 + f * P) by (rewrite Hdm at 1; ring).
    by rewrite Z.div_add_l by lia.
  - split; [apply Z.div_pos; nia|].
    assert (f * P / 1000 < P - 1); [|lia].
    apply Z.div_lt_upper_bound; [lia|]. nia.
Qed.

Lemma trunc_round_53 (d P c : Z) :
  0 <= d -> 1024 <= P -> c = 0 \/ c = 1 ->
  (d * P / 1000 + c) / P = d / 1000.
Proof.
  intros Hd HP Hc.
  destruct (scaled_quotient d P Hd HP) as (g & -> & Hg).
  symmetry. apply Z.div_unique with (g + c); lia.
Qed.

Lemma trunc_round_54 (d P' c : Z) :
  0 <= d -> 512 <= P' -> c = 0 \/ c = 1 ->
  (c = 1 -> Z.odd (d * (2 * P') / 1000) = true) ->
  (d * (2 * P') / 1000 / 2 + c) / P' = d / 1000.
Proof.
  intros Hd HP Hc Hodd.
  destruct (scaled_quotient d (2 * P') Hd ltac:(lia)) as (g & Hq & Hg).
  rewrite Hq in *.
  replace (d / 1000 * (2 * P') + g) with (d / 1000 * P' * 2 + g) in * by ring.
  rewrite Z.div_add_l by lia.
  pose proof (Z.div_mod g 2 ltac:(lia)) as Hg2.
  pose proof (Z.mod_pos_bound g 2 ltac:(lia)) as Hr.
  symmetry. apply Z.div_unique with (g / 2 + c); [|lia].
  destruct Hc as [->| ->]; [lia|].
  specialize (Hodd eq_refl).
  replace (d / 1000 * P' * 2 + g) with (g + 2 * (d / 1000 * P')) in Hodd by ring.
  rewrite Z.odd_add_mul_2 in Hodd.
  apply Z.odd_spec in Hodd as [m Hm]. lia.
Qed.

Lemma shiftl_neg_div (a n : Z) : n <= 0 -> Z.shiftl a n = a / 2 ^ (- n).
Proof.
  intros Hn. rewrite <- Z.shiftr_opp_r. apply Z.shiftr_div_pow2. lia.
Qed.

(** Microseconds to milliseconds at rate 1.0: the [double] computation of
    the clock is exact after truncation, for every delta below 2^53. *)
Lemma ms_of_us_exact (d : Z) :
  0 <= d < 2 ^ 53 ->
  double_to_uint64
    (double_div (double_of_int d) (double_mul lit_1000 lit_1))
  = Some (d / 1000).
Proof.
  intros [Hd0 Hd]. rewrite rate_one.
  destruct d as [|m|m]; [by vm_compute| |lia].
  destruct (double_of_int_pos m Hd) as (M & k & Hk & Hmk & HM & HdM & ->).
  rewrite double_div_1000 by (done || lia).
  set (P := 2 ^ (63 - k)).
  assert (HP : 1024 <= P).
  { subst P. change 1024 with (2 ^ 10). apply Z.pow_le_mono_r; lia. }
  assert (Hnum : Z.pos M * 2 ^ 53 = Z.pos m * P * 2 ^ 43).
  { rewrite HM. subst P. rewrite <- !Z.mul_assoc, <- !Z.pow_add_r by lia.
    f_equal. f_equal. lia. }
  assert (H62 : 2 ^ (k - 1) * P = 2 ^ 62).
  { subst P. rewrite <- Z.pow_add_r by lia. f_equal. lia. }
  assert (H63 : 2 ^ k * P = 2 ^ 63).
  { subst P. rewrite <- Z.pow_add_r by lia. f_equal. lia. }
  assert (HmP : 2 ^ 62 <= Z.pos m * P < 2 ^ 63).
  { rewrite <- H62, <- H63. split.
    - apply Z.mul_le_mono_nonneg_r; lia.
    - apply Z.mul_lt_mono_pos_r; lia. }
  assert (Hquo : Z.pos M * 2 ^ 53 / M1000 = Z.pos m * P / 1000).
  { rewrite Hnum, M1000_eq. apply Z.div_mul_cancel_r; lia. }
  rewrite Hquo.
  assert (Hq : 2 ^ 52 <= Z.pos m * P / 1000 < 2 ^ 54).
  { split.
    - apply Z.div_le_lower_bound; lia.
    - apply Z.div_lt_upper_bound; lia. }
  destruct (Z.pos m * P / 1000) as [|q|q] eqn:Eq; [lia| |lia].
  destruct (binary_round_aux_53_54 q (k - 53 - 10)
              (new_location_even M1000 ((Z.pos M * 2 ^ 53) mod M1000)))
    as (Mres & Eres & c & -> & Hc & Hcase); [lia|lia|].
  unfold double_to_uint64.
  assert (Hval : Z.shiftl (Z.pos Mres) Eres = Z.pos m / 1000).
  { destruct Hcase as [(Hlt & HE & Hm1)|(Hge & HE & Hm1 & Hodd)].
    - rewrite shiftl_neg_div by lia.
      rewrite <- (trunc_round_53 (Z.pos m) P c) by (done || lia).
      rewrite Eq, <- Hm1.
      replace P with (2 ^ (- Eres) * 2 ^ (Eres - (k - 53 - 10))).
      + apply eq_sym, Z.div_mul_cancel_r.
        * apply Z.pow_nonzero; lia.
        * apply Z.pow_nonzero; lia.
      + subst P. rewrite <- Z.pow_add_r by lia. f_equal. lia.
    - rewrite shiftl_neg_div by lia.
      set (P' := 2 ^ (62 - k)).
      assert (HP' : P = 2 * P').
      { subst P P'. replace (63 - k) with (Z.succ (62 - k)) by lia.
        apply Z.pow_succ_r. lia. }
      assert (512 <= P') by lia.
      rewrite <- (trunc_round_54 (Z.pos m) P' c); [|lia|done|done|].
      + rewrite <- HP', Eq, <- Hm1.
        replace P' with (2 ^ (- Eres) * 2 ^ (Eres - (k - 53 - 10 + 1))).
        * apply eq_sym, Z.div_mul_cancel_r.
          -- apply Z.pow_nonzero; lia.
          -- apply Z.pow_nonzero; lia.
        * subst P'. rewrite <- Z.pow_add_r by lia. f_equal. lia.
      + rewrite <- HP', Eq. exact Hodd. }
  rewrite Hval.
  assert (Hr : 0 <= Z.pos m / 1000 < 2 ^ 64).
  { split; [apply Z.div_pos; lia|].
    apply Z.div_lt_upper_bound; lia. }
  destruct (Z.leb_spec 0 (Z.pos m / 1000)); [|lia].
  destruct (Z.ltb_spec (Z.pos m / 1000) (2 ^ 64)); [done|lia].
Qed.


End DoubleSpec.

(** ** Decoder: clock, late frames, hardware fallback, resume *)

Module DecoderSpec.
Import Decoder.

(** The rate is 1.0 from creation on; no function of the decoder writes
    [playback_rate] afterwards. *)
Lemma create_rate_one b f0 f1 f2 :
  playback_rate (clock (ffmpeg_decoder_create b f0 f1 f2)) = lit_1.
Proof. reflexivity. Qed.

(** The deadline at rate 1.0, in integers. *)
Lemma clock_deadline_rate_one (d : ffmpeg_decoder) (p : Z) :
  playback_rate (clock d) = lit_1 ->
  0 <= p - media_start_pts (clock d) < 2 ^ 53 ->
  clock_get_system_time_for_pts d p =
    Some (u64 (system_start (clock d) + (p - media_start_pts (clock d)) / 1000)).
Proof.
  intros Hr Hp. unfold clock_get_system_time_for_pts.
  rewrite Hr, s64_small by lia.
  by rewrite DoubleSpec.ms_of_us_exact.
Qed.


(** C2 (as the code has it). Within one epoch the deadline never
    decreases as [pts] grows, and it grows strictly once [pts] grows by a
    millisecond or more; two timestamps in the same millisecond after the
    start of the epoch have the same deadline. *)
Theorem clock_monotone (d : ffmpeg_decoder) (pts1 pts2 : Z) :
  playback_rate (clock d) = lit_1 ->
  0 <= system_start (clock d) < 2 ^ 63 ->
  0 <= pts1 - media_start_pts (clock d) ->
  pts1 < pts2 ->
  pts2 - media_start_pts (clock d) < 2 ^ 53 ->
  exists t1 t2,
    clock_get_system_time_for_pts d pts1 = Some t1 /\
    clock_get_system_time_for_pts d pts2 = Some t2 /\
    t1 <= t2 /\
    (pts1 + 1000 <= pts2 -> t1 < t2) /\
    ((pts1 - media_start_pts (clock d)) / 1000 =
     (pts2 - media_start_pts (clock d)) / 1000 -> t1 = t2).
Proof.
  intros Hr HT H1 Hlt H2.
  set (s := media_start_pts (clock d)) in *.
  assert (Hb : forall q, 0 <= q - s < 2 ^ 53 -> 0 <= (q - s) / 1000 < 2 ^ 53).
  { intros q Hq.
    split; [apply Z.div_pos; lia|apply Z.div_lt_upper_bound; lia]. }
  pose proof (Hb pts1 ltac:(lia)). pose proof (Hb pts2 ltac:(lia)).
  eexists _, _. rewrite !clock_deadline_rate_one by (done || lia).
  fold s. rewrite !u64_small by lia.
  split; [done|]. split; [done|]. split; [|split].
  - assert ((pts1 - s) / 1000 <= (pts2 - s) / 1000);
      [apply Z.div_le_mono; lia|lia].
  - intros Hms.
    assert ((pts1 - s) / 1000 + 1 <= (pts2 - s) / 1000); [|lia].
    replace ((pts1 - s) / 1000 + 1) with ((pts1 - s + 1 * 1000) / 1000)
      by (rewrite Z.div_add by lia; done).
    apply Z.div_le_mono; lia.
  - intros Heq. by rewrite Heq.
Qed.


Lemma resume_fresh d now_ns :
  initialized d = true ->
  state d = DECODER_STATE_PAUSED_READY ->
  u64 (now_ns / 1000000 - state_preserved_time d) <= 10000 ->
  ffmpeg_decoder_resume d now_ns =
    (true,
     let d1 := set_playing (set_state d DECODER_STATE_PLAYING) true in
     if seek_was_in_progress d then
       set_seek_target (set_seek_request d1 true) (preserved_seek_position d)
     else d1).
Proof.
  intros Hi Hs Hle. unfold ffmpeg_decoder_resume.
  rewrite Hi, bool_decide_eq_true_2 by done. cbn [negb].
  destruct (Z.gtb_spec (u64 (now_ns / 1000000 - state_preserved_time d)) 10000);
    [lia|done].
Qed.


(** A frame more than 500 ms late at [display_time] known to be late
    makes the lateness test of the loop succeed. *)
Lemma late_test (display_time now_ms : Z) :
  0 <= display_time -> 
  500 < now_ms - display_time <= 9223372036854 ->
  (s64 (s64 (display_time - now_ms) * 1000000) <? -500000000) = true.
Proof.
  intros Hd Hl. rewrite (s64_small (display_time - now_ms)) by lia.
  rewrite s64_small by lia. apply Z.ltb_lt. lia.
Qed.

(** C7 (as the code has it). Late-frame drop.  A ready frame at the read
    index whose display time lies more than 500 ms before the current
    millisecond reading is never handed to the sink: the pass consumes its
    slot and delivers nothing.  If the frame passes the validity check of
    the loop ([pts >= 0] and a non-zero display time) it is dropped as
    late, and the drop is counted in the performance monitor when one is
    attached; a frame that fails the validity check is discarded as
    invalid, without being counted. *)
Theorem late_frame_dropped
    (d : ffmpeg_decoder) (now_ns now2_ns : Z) (bf : buffered_frame) :
  stopping d = false ->
  playing d = true ->
  count (buffer d) <> 0 ->
  frames (buffer d) !! Z.to_nat (read_idx (buffer d)) = Some bf ->
  ready bf = true ->
  0 <= system_time bf ->
  500 < now_ns / 1000000 - system_time bf <= 9223372036854 ->
  let r := display_iteration d now_ns now2_ns in
  delivered (snd r) = delivered d /\
  (exists bf', frames (buffer (snd r)) !! Z.to_nat (read_idx (buffer d)) = Some bf' /\
               ready bf' = false) /\
  count (buffer (snd r)) = count (buffer d) - 1 /\
  read_idx (buffer (snd r)) = Z.rem (read_idx (buffer d) + 1) 3 /\
  (0 <= pts bf -> system_time bf <> 0 ->
   fst r = D_drop_late /\
   perf_monitor (snd r) =
     (fun m => PerfMonitor (u32 (frames_dropped m + 1))) <$> perf_monitor d) /\
  (pts bf < 0 \/ system_time bf = 0 ->
   fst r = D_skip_invalid /\ perf_monitor (snd r) = perf_monitor d).
Proof.
  intros Hst Hpl Hc Hbf Hr Hs Hl r. subst r.
  assert (Hlt : (Z.to_nat (read_idx (buffer d)) < length (frames (buffer d)))%nat)
    by (by eapply lookup_lt_Some).
  unfold display_iteration. rewrite Hst, Hpl. cbn [negb].
  rewrite (proj2 (Z.eqb_neq _ _) Hc), Hbf, Hr. cbn [negb orb].
  destruct ((pts bf <? 0) || (system_time bf =? 0)) eqn:Hinv.
  - cbn [fst snd]. unfold set_buffer; cbn.
    split; [done|]. split.
    { eexists. split; [by apply list_lookup_insert_eq|done]. }
    do 2 (split; [done|]). split.
    + intros Hp Hne. apply orb_prop in Hinv as [H|H];
        [apply Z.ltb_lt in H; lia|apply Z.eqb_eq in H; lia].
    + done.
  - rewrite late_test by done. cbn [fst snd].
    unfold set_buffer, set_perf_monitor, consume_slot; cbn.
    split; [done|]. split.
    { eexists. split; [by apply list_lookup_insert_eq|done]. }
    do 2 (split; [done|]). split.
    + intros _ _. split; [done|]. by destruct (perf_monitor d).
    + apply orb_false_elim in Hinv as [H1 H2].
      apply Z.ltb_ge in H1. apply Z.eqb_neq in H2. lia.
Qed.

(** The hardware path, once switched off, stays off: every later frame
    takes the software path, whatever the transfer would have returned. *)
Lemma hw_block_inactive d n is_hw ret sf :
  hw_decoding_active d = false ->
  hw_transfer_block d n is_hw ret sf = (HW_not_used, d, n).
Proof. intros H. unfold hw_transfer_block. by rewrite H. Qed.

Lemma hw_run_inactive d n rets :
  hw_decoding_active d = false -> hw_run d n rets = (d, n).
Proof.
  intros H. induction rets as [|ret rets IH]; [done|].
  cbn [hw_run]. by rewrite hw_block_inactive.
Qed.


(** *** The theorems at the sample decoder *)


(** C2 as the specification states it does not hold: deadlines are whole
    milliseconds, so two timestamps one microsecond apart have the same
    deadline. *)
Lemma clock_not_strictly_monotone :
  let d := clock_reset (sample_decoder 0 1000) 0 5000000000 in
  0 < 1 /\
  clock_get_system_time_for_pts d 0 = Some 5000 /\
  clock_get_system_time_for_pts d 1 = Some 5000.
Proof. vm_compute. repeat split. Qed.

Lemma clock_monotone_witness :
  let d := clock_reset (sample_decoder 0 1000) 0 5000000000 in
  exists t1 t2,
    clock_get_system_time_for_pts d 33000 = Some t1 /\
    clock_get_system_time_for_pts d 66000 = Some t2 /\
    t1 < t2.
Proof.
  destruct (clock_monotone (clock_reset (sample_decoder 0 1000) 0 5000000000)
              33000 66000)
    as (t1 & t2 & H1 & H2 & _ & Hlt & _);
    [reflexivity|vm_compute; split; [discriminate|reflexivity]
    |vm_compute; discriminate|lia|vm_compute; reflexivity|].
  exists t1, t2. split; [exact H1|]. split; [exact H2|].
  apply Hlt. lia.
Defined.


(** C7 as the specification states it does not hold: a frame 1000 ms late
    whose [pts] is negative is consumed by the validity check before the
    lateness test; it is not delivered, but the drop is not counted. *)
Lemma late_invalid_frame_not_counted :
  let d := sample_decoder (-1) 1000 in
  let r := display_iteration d 2000000000 2000000000 in
  500 < 2000000000 / 1000000 - 1000 /\
  fst r = D_skip_invalid /\
  fst r <> D_drop_late /\
  perf_monitor (snd r) = Some (PerfMonitor 0) /\
  perf_monitor d = Some (PerfMonitor 0).
Proof. vm_compute. repeat split; discriminate. Qed.

Lemma late_frame_dropped_witness :
  let d := sample_decoder 0 1000 in
  let r := display_iteration d 2000000000 2000000000 in
  fst r = D_drop_late /\
  delivered (snd r) = [] /\
  perf_monitor (snd r) = Some (PerfMonitor (u32 (0 + 1))).
Proof.
  intros d r.
  destruct (late_frame_dropped d 2000000000 2000000000
              (Buffered (Some 1%positive) 0 1000 true false false false))
    as (Hdel & _ & _ & _ & Hvalid & _);
    [reflexivity|reflexivity|discriminate|reflexivity|reflexivity
    |vm_compute; discriminate
    |vm_compute; split; [reflexivity|discriminate]|].
  destruct Hvalid as [Ho Hpm]; [cbn; lia|done|].
  split; [exact Ho|]. split; [exact Hdel|exact Hpm].
Defined.



End DecoderSpec.

(** * Further properties of the code *)

(** ** Lists *)

Lemma list_lookup_map {A B} (f : A -> B) (l : list A) (i : nat) :
  map f l !! i = f <$> (l !! i).
Proof.
  revert i. induction l as [|a l IH]; intros [|i]; try done. apply IH.
Qed.

(** ** Ring buffer: invariants, ownership, abort *)

Module RingBufferMore.
Import RingBuffer RingBufferSpec.

Lemma land3_range p :
  0 <= p < RING_BUFFER_SIZE ->
  0 <= Z.land (p + 1) (RING_BUFFER_SIZE - 1) < RING_BUFFER_SIZE.
Proof. intros H. apply pos_cases in H as [-> | [-> | [-> | ->]]]; by vm_compute. Qed.

Lemma wf_store rb i s :
  rb_wf rb -> rb_wf (store_slot rb i s).
Proof.
  intros (Hl & Hw & Hr). split; [|done].
  cbn. by rewrite length_insert.
Qed.

Lemma wf_step rb op : rb_wf rb -> rb_wf (snd (rb_step rb op)).
Proof.
  intros Hwf. pose proof Hwf as (Hl & Hw & Hr).
  destruct op as [|slot f ts|slot| |slot]; cbn [rb_step snd].
  - unfold lockfree_ringbuffer_write_begin, cas_state.
    destruct (slot_at rb (write_pos rb)) as [s|]; [|done].
    destruct (decide (state s = SLOT_EMPTY)); [|done].
    cbn [snd]. split; [cbn; by rewrite length_insert|].
    split; [by apply land3_range|done].
  - unfold lockfree_ringbuffer_write_commit.
    destruct (RING_BUFFER_SIZE <=? slot); [done|].
    destruct (slot_at rb slot); [|done].
    by apply (wf_store _ slot (Slot f ts SLOT_READY)) in Hwf.
  - unfold lockfree_ringbuffer_write_abort.
    destruct (RING_BUFFER_SIZE <=? slot); [done|].
    destruct (slot_at rb slot); [|done]. by apply wf_store.
  - unfold lockfree_ringbuffer_read_begin, cas_state.
    destruct (slot_at rb (read_pos rb)) as [s|] eqn:Hs; [|done].
    destruct (decide (state s = SLOT_READY)); [|done].
    unfold slot_at, store_slot, set_slots; cbn [slots].
    unfold slot_at in Hs.
    rewrite list_lookup_insert_eq by (by eapply lookup_lt_Some).
    cbn [snd]. split; [cbn; by rewrite !length_insert|].
    split; [done|by apply land3_range].
  - unfold lockfree_ringbuffer_read_complete.
    destruct (RING_BUFFER_SIZE <=? slot); [done|].
    destruct (slot_at rb slot); [|done]. by apply wf_store.
Qed.

(** X1. The array keeps its four slots and both cursors stay inside it
    through any interleaving of producer and consumer calls, whatever
    their arguments. *)
Theorem rb_wf_invariant (rb : lockfree_ringbuffer) (ops : list rb_op) :
  rb_wf rb -> rb_wf (snd (rb_run rb ops)).
Proof.
  revert rb. induction ops as [|op ops IH]; intros rb Hwf; [done|].
  cbn [rb_run]. pose proof (wf_step rb op Hwf) as H1.
  destruct (rb_step rb op) as [cl rb1]. cbn [snd] in H1.
  specialize (IH rb1 H1). by destruct (rb_run rb1 ops).
Qed.


Lemma slot_at_store_eq rb i s sl0 :
  slot_at rb i = Some sl0 -> slot_at (store_slot rb i s) i = Some s.
Proof.
  unfold slot_at, store_slot, set_slots; cbn [slots]. intros H.
  apply list_lookup_insert_eq. by eapply lookup_lt_Some.
Qed.

Lemma slot_at_store_ne rb i j s :
  0 <= i -> 0 <= j -> i <> j ->
  slot_at (store_slot rb i s) j = slot_at rb j.
Proof.
  unfold slot_at, store_slot, set_slots; cbn [slots]. intros Hi Hj Hne.
  apply list_lookup_insert_ne. lia.
Qed.

Lemma held_store rb i s sl :
  0 <= i -> 0 <= s ->
  slot_held rb s ->
  (i = s -> state sl <> SLOT_EMPTY) ->
  slot_held (store_slot rb i sl) s.
Proof.
  intros Hi Hs (sl0 & Hsl0 & Hne) Hst.
  destruct (decide (i = s)) as [->|Hd].
  - exists sl. split; [by eapply slot_at_store_eq|by apply Hst].
  - exists sl0. by rewrite slot_at_store_ne.
Qed.

Lemma held_step rb op s :
  rb_wf rb -> 0 <= s ->
  slot_held rb s ->
  rb_op_ok op ->
  op <> OpWriteAbort s -> op <> OpReadComplete s ->
  slot_held (snd (rb_step rb op)) s /\ fst (rb_step rb op) <> Some s.
Proof.
  intros (Hl & Hw & Hr) Hs Hheld Hok Hna Hnc.
  destruct op as [|slot f ts|slot| |slot]; cbn [rb_step snd fst];
    unfold rb_op_ok in Hok; cbn [rb_op_slot] in Hok.
  - unfold lockfree_ringbuffer_write_begin, cas_state.
    destruct (slot_at rb (write_pos rb)) as [s0|] eqn:Hs0; [|done].
    destruct (decide (state s0 = SLOT_EMPTY)) as [He|]; [|done].
    cbn [snd fst].
    assert (Hd : write_pos rb <> s).
    { intros <-. destruct Hheld as (sl & Hsl & Hne). congruence. }
    split; [|congruence].
    destruct Hheld as (sl & Hsl & Hne). exists sl. split; [|done].
    change (slot_at (store_slot rb (write_pos rb)
              (Slot (frame s0) (timestamp s0) SLOT_WRITING)) s = Some sl).
    rewrite slot_at_store_ne; [done|lia|done|done].
  - split; [|done]. unfold lockfree_ringbuffer_write_commit.
    destruct (RING_BUFFER_SIZE <=? slot); [done|].
    destruct (slot_at rb slot) eqn:E.
    + change (slot_held (store_slot rb slot (Slot f ts SLOT_READY)) s).
      apply held_store; [lia|done|done|done].
    + done.
  - split; [|done]. unfold lockfree_ringbuffer_write_abort.
    destruct (RING_BUFFER_SIZE <=? slot); [done|].
    destruct (slot_at rb slot) eqn:E; [|done].
    apply held_store; [lia|done|done|]. intros ->. by destruct Hna.
  - split; [|done].
    unfold lockfree_ringbuffer_read_begin, cas_state.
    destruct (slot_at rb (read_pos rb)) as [s0|] eqn:Hs0; [|done].
    destruct (decide (state s0 = SLOT_READY)) as [He|]; [|done].
    erewrite slot_at_store_eq by done. cbn [snd state].
    change (slot_held (store_slot (store_slot rb (read_pos rb)
              (Slot (frame s0) (timestamp s0) SLOT_READING)) (read_pos rb)
              (Slot None 0 SLOT_READING)) s).
    apply held_store; [lia|done| |done].
    apply held_store; [lia|done|done|done].
  - split; [|done]. unfold lockfree_ringbuffer_read_complete.
    destruct (RING_BUFFER_SIZE <=? slot); [done|].
    destruct (slot_at rb slot) eqn:E; [|done].
    apply held_store; [lia|done|done|]. intros ->. by destruct Hnc.
Qed.

Lemma held_run rb ops s :
  rb_wf rb -> 0 <= s ->
  slot_held rb s ->
  Forall rb_op_ok ops ->
  OpWriteAbort s ∉ ops -> OpReadComplete s ∉ ops ->
  s ∉ fst (rb_run rb ops).
Proof.
  revert rb. induction ops as [|op ops IH]; intros rb Hwf Hs Hh Hok Hna Hnc.
  - cbn. apply not_elem_of_nil.
  - apply Forall_cons in Hok as [Hok1 Hok].
    apply not_elem_of_cons in Hna as [Hna1 Hna].
    apply not_elem_of_cons in Hnc as [Hnc1 Hnc].
    destruct (held_step rb op s) as [Hh1 Hc1]; try done.
    pose proof (wf_step rb op Hwf) as Hwf1.
    cbn [rb_run]. destruct (rb_step rb op) as [cl rb1].
    cbn [fst snd] in *.
    specialize (IH rb1 Hwf1 Hs Hh1 Hok Hna Hnc).
    destruct (rb_run rb1 ops) as [more rb2]. cbn [fst] in *.
    destruct cl as [s'|]; [|done].
    apply not_elem_of_cons. split; [congruence|done].
Qed.

(** X2. No double ownership: once [write_begin] has claimed slot [s], no
    later [write_begin] returns [s] again, however producer and consumer
    calls interleave, as long as [s] is neither aborted nor completed. *)
Theorem no_double_ownership
    (rb rb1 : lockfree_ringbuffer) (s : Z) (ops : list rb_op) :
  rb_wf rb ->
  lockfree_ringbuffer_write_begin rb = (Some s, rb1) ->
  Forall rb_op_ok ops ->
  OpWriteAbort s ∉ ops ->
  OpReadComplete s ∉ ops ->
  s ∉ fst (rb_run rb1 ops).
Proof.
  intros Hwf Hwb Hok Hna Hnc.
  pose proof (wf_step rb OpWriteBegin Hwf) as Hwf1.
  cbn [rb_step] in Hwf1. rewrite Hwb in Hwf1. cbn [snd] in Hwf1.
  destruct Hwf as (Hl & Hw & Hr).
  revert Hwb. unfold lockfree_ringbuffer_write_begin, cas_state.
  destruct (slot_at rb (write_pos rb)) as [s0|] eqn:Hs0; [|done].
  destruct (decide (state s0 = SLOT_EMPTY)) as [He|]; [|done].
  intros [= <- <-].
  apply held_run; try done; [lia|].
  exists (Slot (frame s0) (timestamp s0) SLOT_WRITING). split; [|done].
  change (slot_at (store_slot rb (write_pos rb)
            (Slot (frame s0) (timestamp s0) SLOT_WRITING)) (write_pos rb) = Some
            (Slot (frame s0) (timestamp s0) SLOT_WRITING)).
  by eapply slot_at_store_eq.
Qed.

Lemma filter_insert_length {A} (P : A -> Prop) `{!forall x, Decision (P x)}
    (l : list A) (i : nat) (x y : A) :
  l !! i = Some x ->
  (length (filter P (<[i:=y]> l)) + (if decide (P x) then 1 else 0)
   = length (filter P l) + (if decide (P y) then 1 else 0))%nat.
Proof.
  revert i. induction l as [|a l IH]; intros [|i] Hi; try done.
  - injection Hi as ->. cbn [insert list_insert]. rewrite !filter_cons.
    destruct (decide (P x)), (decide (P y)); cbn [length]; lia.
  - cbn [insert list_insert]. rewrite !filter_cons.
    specialize (IH i Hi).
    destruct (decide (P a)); cbn [length Nat.add]; [f_equal|]; exact IH.
Qed.

Lemma avail_store rb i sl0 sl :
  slot_at rb i = Some sl0 ->
  lockfree_ringbuffer_available_slots (store_slot rb i sl)
  = lockfree_ringbuffer_available_slots rb
    - (if decide (state sl0 = SLOT_EMPTY) then 1 else 0)
    + (if decide (state sl = SLOT_EMPTY) then 1 else 0).
Proof.
  intros H. unfold lockfree_ringbuffer_available_slots, store_slot, set_slots.
  cbn [slots].
  pose proof (filter_insert_length (fun s => state s = SLOT_EMPTY)
                (slots rb) (Z.to_nat i) sl0 sl H) as E.
  destruct (decide (state sl0 = SLOT_EMPTY)), (decide (state sl = SLOT_EMPTY));
    lia.
Qed.

(** X3. Free-slot accounting: the count of Empty slots stays between 0
    and 4; a successful [write_begin] lowers it by one and a failed one
    leaves it; committing a slot that is being written and [read_begin]
    leave it; [write_abort] and [read_complete] on a slot that is not
    Empty raise it by one. *)
Theorem available_slots_accounting (rb : lockfree_ringbuffer) :
  rb_wf rb ->
  0 <= lockfree_ringbuffer_available_slots rb <= RING_BUFFER_SIZE /\
  (forall s rb',
     lockfree_ringbuffer_write_begin rb = (Some s, rb') ->
     lockfree_ringbuffer_available_slots rb'
     = lockfree_ringbuffer_available_slots rb - 1) /\
  (forall rb',
     lockfree_ringbuffer_write_begin rb = (None, rb') ->
     lockfree_ringbuffer_available_slots rb'
     = lockfree_ringbuffer_available_slots rb) /\
  (forall s sl f ts,
     slot_at rb s = Some sl -> state sl = SLOT_WRITING ->
     lockfree_ringbuffer_available_slots
       (lockfree_ringbuffer_write_commit rb s f ts)
     = lockfree_ringbuffer_available_slots rb) /\
  lockfree_ringbuffer_available_slots (snd (lockfree_ringbuffer_read_begin rb))
  = lockfree_ringbuffer_available_slots rb /\
  (forall s, slot_held rb s -> s < RING_BUFFER_SIZE ->
     lockfree_ringbuffer_available_slots (lockfree_ringbuffer_write_abort rb s)
     = lockfree_ringbuffer_available_slots rb + 1 /\
     lockfree_ringbuffer_available_slots (lockfree_ringbuffer_read_complete rb s)
     = lockfree_ringbuffer_available_slots rb + 1).
Proof.
  intros (Hl & Hw & Hr).
  split.
  { unfold lockfree_ringbuffer_available_slots.
    pose proof (length_filter (fun s => state s = SLOT_EMPTY) (slots rb)) as H.
    rewrite Hl in H. unfold RING_BUFFER_SIZE in *. lia. }
  split.
  { intros s rb'. unfold lockfree_ringbuffer_write_begin, cas_state.
    destruct (slot_at rb (write_pos rb)) as [s0|] eqn:Hs0; [|done].
    destruct (decide (state s0 = SLOT_EMPTY)) as [He|]; [|done].
    intros [= <- <-].
    change (lockfree_ringbuffer_available_slots
              (store_slot rb (write_pos rb)
                 (Slot (frame s0) (timestamp s0) SLOT_WRITING))
            = lockfree_ringbuffer_available_slots rb - 1).
    rewrite (avail_store _ _ s0) by done. cbn [state].
    destruct (decide (state s0 = SLOT_EMPTY)); [|done].
    destruct (decide (SLOT_WRITING = SLOT_EMPTY)); [done|lia]. }
  split.
  { intros rb' H. by rewrite (write_begin_none _ _ H). }
  split.
  { intros s sl f ts Hs Hst. unfold lockfree_ringbuffer_write_commit.
    destruct (RING_BUFFER_SIZE <=? s); [done|]. rewrite Hs.
    change (lockfree_ringbuffer_available_slots
              (store_slot rb s (Slot f ts SLOT_READY))
            = lockfree_ringbuffer_available_slots rb).
    rewrite (avail_store _ _ sl) by done. cbn [state]. rewrite Hst.
    destruct (decide (SLOT_WRITING = SLOT_EMPTY)); [done|].
    destruct (decide (SLOT_READY = SLOT_EMPTY)); [done|lia]. }
  split.
  { unfold lockfree_ringbuffer_read_begin, cas_state.
    destruct (slot_at rb (read_pos rb)) as [s0|] eqn:Hs0; [|done].
    destruct (decide (state s0 = SLOT_READY)) as [He|]; [|done].
    erewrite slot_at_store_eq by done. cbn [snd state].
    change (lockfree_ringbuffer_available_slots
              (store_slot (store_slot rb (read_pos rb)
                 (Slot (frame s0) (timestamp s0) SLOT_READING)) (read_pos rb)
                 (Slot None 0 SLOT_READING))
            = lockfree_ringbuffer_available_slots rb).
    erewrite (avail_store _ _ _) by (by eapply slot_at_store_eq).
    rewrite (avail_store _ _ s0) by done. cbn [state]. rewrite He.
    destruct (decide (SLOT_READY = SLOT_EMPTY)); [done|].
    destruct (decide (SLOT_READING = SLOT_EMPTY)); [done|lia]. }
  intros s (sl & Hs & Hne) Hlt.
  unfold lockfree_ringbuffer_write_abort, lockfree_ringbuffer_read_complete.
  destruct (Z.leb_spec RING_BUFFER_SIZE s) as [?|_]; [lia|]. rewrite Hs.
  rewrite (avail_store _ _ sl) by done. cbn [state].
  destruct (decide (state sl = SLOT_EMPTY)); [done|].
  destruct (decide (SLOT_EMPTY = SLOT_EMPTY)); [lia|done].
Qed.

Lemma write_begin_empty rb s :
  slots rb !! Z.to_nat (write_pos rb) = Some s ->
  state s = SLOT_EMPTY ->
  lockfree_ringbuffer_write_begin rb =
    (Some (write_pos rb),
     Ring (Z.land (write_pos rb + 1) (RING_BUFFER_SIZE - 1)) (read_pos rb)
          (<[Z.to_nat (write_pos rb) :=
               Slot (frame s) (timestamp s) SLOT_WRITING]> (slots rb))
          (frames_written rb) (frames_read rb)
          (write_failures rb) (read_failures rb)).
Proof.
  intros Hs He. unfold lockfree_ringbuffer_write_begin, cas_state, slot_at.
  rewrite Hs. by destruct (decide (state s = SLOT_EMPTY)).
Qed.

Lemma write_abort_held rb slot s :
  slot < RING_BUFFER_SIZE ->
  slots rb !! Z.to_nat slot = Some s ->
  lockfree_ringbuffer_write_abort rb slot =
    Ring (write_pos rb) (read_pos rb)
         (<[Z.to_nat slot := Slot (frame s) (timestamp s) SLOT_EMPTY]> (slots rb))
         (frames_written rb) (frames_read rb)
         (write_failures rb) (read_failures rb).
Proof.
  intros Hlt Hs. unfold lockfree_ringbuffer_write_abort, slot_at.
  destruct (Z.leb_spec RING_BUFFER_SIZE slot) as [?|_]; [lia|]. by rewrite Hs.
Qed.

(** X4. An aborted write leaves its cursor advanced.  From an idle
    buffer, [write_begin] followed by [write_abort] of the claimed slot
    makes all four slots Empty again, but the write cursor is then one
    ahead of the read cursor: a frame enqueued next is not handed out by
    any number of dequeue attempts, and of four frames enqueued next the
    last one is dequeued first. *)
Theorem write_abort_keeps_cursor
    (rb : lockfree_ringbuffer) (a b c d : ptr * Z) :
  rb_idle rb ->
  exists s rb1,
    lockfree_ringbuffer_write_begin rb = (Some s, rb1) /\
    let rb2 := lockfree_ringbuffer_write_abort rb1 s in
    lockfree_ringbuffer_available_slots rb2 = RING_BUFFER_SIZE /\
    write_pos rb2 = Z.land (read_pos rb2 + 1) (RING_BUFFER_SIZE - 1) /\
    (exists rb3,
       enqueue rb2 a = (true, rb3) /\
       forall complete k, fst (drain complete k rb3) = []) /\
    (exists rb6,
       enqueue_all rb2 [a; b; c; d] = Some rb6 /\
       forall complete, fst (drain complete 4 rb6) = [d; a; b; c]).
Proof.
  intros (Hwf & Hall & Hrw).
  destruct (wf_slots4 rb Hwf) as (s0 & s1 & s2 & s3 & Hs).
  destruct Hwf as (_ & Hw & _). apply pos_cases in Hw.
  destruct rb as [wp rp sl fw fr wf rf]; simpl in Hs, Hw, Hrw, Hall; subst sl rp.
  destruct s0 as [f0 t0 st0], s1 as [f1 t1 st1],
           s2 as [f2 t2 st2], s3 as [f3 t3 st3].
  repeat match goal with
         | H : Forall _ (_ :: _) |- _ =>
             apply Forall_cons in H as [? H]
         end.
  simpl in *; subst st0 st1 st2 st3.
  destruct a as [a1 a2], b as [b1 b2], c as [c1 c2], d as [d1 d2].
  destruct Hw as [-> | [-> | [-> | ->]]].
  all: erewrite write_begin_empty by (rb_eval; rb_side); rb_eval.
  all: eexists _, _; split; [reflexivity|]; cbv zeta.
  all: erewrite write_abort_held by (rb_eval; rb_side); rb_eval.
  all: split; [by vm_compute|].
  all: split; [by vm_compute|].
  all: split.
  all: repeat rb_enqueue.
  all: eexists; split; [reflexivity|].
  all: try (intros complete k; apply drain_stuck; unfold slot_at; rb_eval;
            by intros s [= <-]).
  all: intros complete.
  all: repeat rb_dequeue.
  all: reflexivity.
Qed.

Lemma relay_step rb it :
  rb_idle rb ->
  exists rb2,
    enqueue rb it
    = (true, Ring (Z.land (write_pos rb + 1) (RING_BUFFER_SIZE - 1)) (read_pos rb)
          (<[Z.to_nat (write_pos rb) := Slot (fst it) (snd it) SLOT_READY]>
             (slots rb))
          (u64 (frames_written rb + 1)) (frames_read rb)
          (write_failures rb) (read_failures rb)) /\
    dequeue true
      (Ring (Z.land (write_pos rb + 1) (RING_BUFFER_SIZE - 1)) (read_pos rb)
          (<[Z.to_nat (write_pos rb) := Slot (fst it) (snd it) SLOT_READY]>
             (slots rb))
          (u64 (frames_written rb + 1)) (frames_read rb)
          (write_failures rb) (read_failures rb))
    = (Some it, rb2) /\
    rb_idle rb2 /\
    frames_written rb2 = u64 (frames_written rb + 1) /\
    frames_read rb2 = u64 (frames_read rb + 1) /\
    write_failures rb2 = write_failures rb /\
    read_failures rb2 = read_failures rb.
Proof.
  intros (Hwf & Hall & Hrw).
  destruct (wf_slots4 rb Hwf) as (s0 & s1 & s2 & s3 & Hs).
  destruct Hwf as (_ & Hw & _). apply pos_cases in Hw.
  destruct rb as [wp rp sl fw fr wf rf]; simpl in Hs, Hw, Hrw, Hall; subst sl rp.
  destruct s0 as [f0 t0 st0], s1 as [f1 t1 st1],
           s2 as [f2 t2 st2], s3 as [f3 t3 st3].
  repeat match goal with
         | H : Forall _ (_ :: _) |- _ =>
             apply Forall_cons in H as [? H]
         end.
  simpl in *; subst st0 st1 st2 st3.
  destruct it as [a1 a2].
  destruct Hw as [-> | [-> | [-> | ->]]].
  all: erewrite enqueue_empty by (rb_eval; rb_side); rb_eval.
  all: erewrite dequeue_ready by (rb_eval; rb_side); rb_eval.
  all: eexists; split; [reflexivity|]; split; [reflexivity|].
  all: split; [|by repeat split].
  all: split; [by vm_compute|]; split; [|done].
  all: cbn [slots]; by repeat constructor.
Qed.

(** X5. Unbounded relay: from an idle buffer a stream of any length,
    each frame enqueued and then dequeued and completed, passes through
    the four slots in order and unchanged; the buffer is idle again
    afterwards, both frame counters have advanced by the length of the
    stream, no failure was counted, and a further [read_begin] on the
    drained buffer fails and only counts a read failure. *)
Theorem relay_stream (rb : lockfree_ringbuffer) (items : list (ptr * Z)) :
  rb_idle rb ->
  0 <= frames_written rb < 2 ^ 64 ->
  0 <= frames_read rb < 2 ^ 64 ->
  exists rb',
    relay rb items = Some (items, rb') /\
    rb_idle rb' /\
    frames_written rb' = u64 (frames_written rb + Z.of_nat (length items)) /\
    frames_read rb' = u64 (frames_read rb + Z.of_nat (length items)) /\
    write_failures rb' = write_failures rb /\
    read_failures rb' = read_failures rb /\
    lockfree_ringbuffer_read_begin rb'
    = (None, set_read_failures rb' (u64 (read_failures rb' + 1))).
Proof.
  intros Hidle Hfw Hfr.
  assert (Hgen : forall n m,
    exists rb',
      relay rb items = Some (items, rb') /\
      rb_idle rb' /\
      (frames_written rb = u64 n ->
       frames_written rb' = u64 (n + Z.of_nat (length items))) /\
      (frames_read rb = u64 m ->
       frames_read rb' = u64 (m + Z.of_nat (length items))) /\
      write_failures rb' = write_failures rb /\
      read_failures rb' = read_failures rb).
  { clear Hfw Hfr. revert rb Hidle.
    induction items as [|it items IH]; intros rb Hidle n m.
    - exists rb. cbn [relay length]. rewrite !Z.add_0_r.
      repeat (split; [done|]). done.
    - destruct (relay_step rb it Hidle)
        as (rb2 & He & Hd & Hi2 & Hw2 & Hr2 & Hwf2 & Hrf2).
      destruct (IH rb2 Hi2 (n + 1) (m + 1))
        as (rb' & Hr' & Hi' & Hw' & Hrr' & Hwf' & Hrf').
      exists rb'. cbn [relay]. rewrite He, Hd, Hr'.
      split; [done|]. split; [done|].
      replace (Z.of_nat (length (it :: items)))
        with (1 + Z.of_nat (length items)) by (cbn [length]; lia).
      rewrite !Z.add_assoc.
      split; [intros E; apply Hw'; rewrite Hw2, E; unfold u64;
              by rewrite Zplus_mod_idemp_l|].
      split; [intros E; apply Hrr'; rewrite Hr2, E; unfold u64;
              by rewrite Zplus_mod_idemp_l|].
      split; congruence. }
  destruct (Hgen (frames_written rb) (frames_read rb))
    as (rb' & H1 & H2 & H3 & H4 & H5 & H6).
  exists rb'. split; [done|]. split; [done|].
  split; [apply H3; by rewrite u64_small|].
  split; [apply H4; by rewrite u64_small|].
  split; [done|]. split; [done|].
  destruct H2 as ((Hl & Hw & Hr) & Hall & Hrw).
  unfold lockfree_ringbuffer_read_begin, cas_state.
  destruct (slot_at rb' (read_pos rb')) as [s|] eqn:Hs; [|done].
  destruct (decide (state s = SLOT_READY)) as [He|]; [|done].
  unfold slot_at in Hs. eapply Forall_lookup in Hall; [|exact Hs].
  cbn in Hall. congruence.
Qed.

Lemma rb_wf_invariant_witness :
  rb_wf (snd (rb_run lockfree_ringbuffer_init sample_ops)).
Proof. apply (rb_wf_invariant lockfree_ringbuffer_init sample_ops), init_idle. Defined.

Lemma no_double_ownership_witness :
  exists rb1,
    lockfree_ringbuffer_write_begin lockfree_ringbuffer_init = (Some 0, rb1) /\
    0 ∉ fst (rb_run rb1 (tail sample_ops)).
Proof.
  eexists. split; [vm_compute; reflexivity|].
  eapply (no_double_ownership lockfree_ringbuffer_init _ 0 (tail sample_ops)).
  - apply init_idle.
  - vm_compute; reflexivity.
  - repeat first [apply Forall_nil_2 | apply Forall_cons_2];
      cbv [rb_op_ok rb_op_slot]; first [exact I | lia].
  - apply (bool_decide_unpack _). by vm_compute.
  - apply (bool_decide_unpack _). by vm_compute.
Defined.

Lemma available_slots_accounting_witness :
  0 <= lockfree_ringbuffer_available_slots lockfree_ringbuffer_init
    <= RING_BUFFER_SIZE /\
  lockfree_ringbuffer_available_slots
    (snd (lockfree_ringbuffer_read_begin lockfree_ringbuffer_init))
  = lockfree_ringbuffer_available_slots lockfree_ringbuffer_init.
Proof.
  destruct (available_slots_accounting lockfree_ringbuffer_init)
    as (H1 & _ & _ & _ & H5 & _); [apply init_idle|].
  split; [exact H1|exact H5].
Defined.

Lemma write_abort_keeps_cursor_witness :
  exists s rb1 rb6,
    lockfree_ringbuffer_write_begin lockfree_ringbuffer_init = (Some s, rb1) /\
    enqueue_all (lockfree_ringbuffer_write_abort rb1 s) sample_items = Some rb6 /\
    fst (drain true 4 rb6)
    = [(Some 14%positive, 99000); (Some 11%positive, 0);
       (Some 12%positive, 33000); (Some 13%positive, 66000)].
Proof.
  destruct (write_abort_keeps_cursor lockfree_ringbuffer_init
              (Some 11%positive, 0) (Some 12%positive, 33000)
              (Some 13%positive, 66000) (Some 14%positive, 99000))
    as (s & rb1 & Hwb & _ & _ & _ & rb6 & He & Hd); [apply init_idle|].
  exists s, rb1, rb6. split; [exact Hwb|]. split; [exact He|apply Hd].
Defined.

Lemma relay_stream_witness :
  exists rb',
    relay lockfree_ringbuffer_init (sample_items ++ sample_items)
    = Some (sample_items ++ sample_items, rb') /\
    rb_idle rb' /\
    frames_written rb' = 8.
Proof.
  destruct (relay_stream lockfree_ringbuffer_init (sample_items ++ sample_items))
    as (rb' & H1 & H2 & H3 & _); [apply init_idle|cbn; lia|cbn; lia|].
  exists rb'. split; [exact H1|]. split; [exact H2|exact H3].
Defined.

End RingBufferMore.

(** ** Frame cache: invariant, invalidation, pins, free slots *)

Module FrameCacheMore.
Import FrameCache FrameCacheSpec.

Lemma cache_ok_store c i e :
  cache_ok c -> entry_ok e -> cache_ok (store_entry c i e).
Proof.
  intros (Hl & Hall) He. split; cbn.
  - by rewrite length_insert.
  - rewrite Forall_lookup. intros j x Hj.
    destruct (decide (Z.to_nat i = j)) as [<-|Hne].
    + assert (Hlt : (Z.to_nat i < length (entries c))%nat).
      { apply lookup_lt_Some in Hj. by rewrite length_insert in Hj. }
      rewrite list_lookup_insert_eq in Hj by done. by injection Hj as <-.
    + rewrite list_lookup_insert_ne in Hj by done.
      rewrite Forall_lookup in Hall. by eapply Hall.
Qed.

Lemma u32_range z : 0 <= u32 z < 2 ^ 32.
Proof. unfold u32. apply Z.mod_pos_bound. lia. Qed.

Lemma init_cache_ok b : cache_ok (frame_cache_init b).
Proof.
  split; [cbn; by rewrite length_replicate|].
  cbn. apply Forall_replicate. unfold entry_ok, UINT64_MAX. cbn.
  repeat split; try lia. done.
Qed.

(** X6. The representation invariant of the cache (thirty entries, pin
    counts and access times in the range of their C types, every Ready
    entry owning a frame) is kept by every operation: lookup, insertion,
    whether or not the allocations succeed, release and invalidation. *)
Theorem cache_ok_invariant
    (h : frame_heap) (c : frame_cache) (fa : ptr) (p : Z)
    (bg ls : option (list Z)) (w ht now i : Z) (env : alloc_env) :
  cache_ok c ->
  0 <= now <= UINT64_MAX ->
  cache_ok (snd (frame_cache_get c p now)) /\
  cache_ok (snd (frame_cache_put h c fa p bg ls w ht now env)) /\
  cache_ok (frame_cache_release c i) /\
  cache_ok (snd (frame_cache_invalidate h c)).
Proof.
  intros Hok Hnow. pose proof Hok as (Hl & Hall).
  rewrite Forall_lookup in Hall.
  split; [|split; [|split]].
  - unfold frame_cache_get. destruct (negb (enabled c)); [done|].
    destruct (find_ready (entries c) p 0) as [k|]; [|done].
    destruct (entry_at c k) as [e|] eqn:He; [|done].
    cbn [snd]. apply (cache_ok_store c k) with (e := Entry (frame e) (pts e)
      (u32 (ref_count e + 1)) (state e) (bgra_data e) (bgra_linesize e)
      (width e) (height e) now (u32 (access_count e + 1))) in Hok; [done|].
    destruct (Hall _ _ He) as (_ & _ & H3).
    split; [apply u32_range|]. split; done.
  - unfold frame_cache_put. destruct fa as [src|]; [|done].
    destruct (negb (enabled c)); [done|].
    destruct (find_lru_entry c <? 0); [done|].
    destruct (entry_at c (find_lru_entry c)) as [e0|] eqn:He0; [|done].
    destruct (Hall _ _ He0) as (H1 & H2 & _).
    destruct (av_frame_clone _ src (clone_ok env)) as [[cl|] h2]; cbn [snd].
    + match goal with
      | |- cache_ok (set_insertions (set_evictions (store_entry c ?k ?e) _) _) =>
          apply (cache_ok_store c k e) in Hok; [done|]
      end.
      split; [cbn; lia|]. split; [done|]. done.
    + match goal with
      | |- cache_ok (set_evictions (store_entry c ?k ?e) _) =>
          apply (cache_ok_store c k e) in Hok; [done|]
      end.
      split; [done|]. split; done.
  - unfold frame_cache_release. destruct (entry_at c i) as [e|] eqn:He; [|done].
    apply cache_ok_store; [done|].
    destruct (Hall _ _ He) as (_ & H2 & H3).
    split; [apply u32_range|]. split; done.
  - unfold frame_cache_invalidate. cbn [snd]. split; cbn.
    + by rewrite length_map.
    + rewrite Forall_lookup. intros j x Hj.
      rewrite list_lookup_map in Hj.
      destruct (entries c !! j) as [e|] eqn:He; [|done].
      injection Hj as <-. destruct (Hall _ _ He) as (H1 & H2 & _).
      split; [done|]. split; done.
Qed.

Lemma foldl_free_gone (es : list cached_frame) (h : frame_heap) a :
  h !! a = None ->
  foldl (fun hh e => av_frame_free hh (frame e)) h es !! a = None.
Proof.
  revert h. induction es as [|e es IH]; intros h Hn; [done|].
  cbn [foldl]. apply IH. unfold av_frame_free.
  destruct (frame e) as [b|]; [|done].
  destruct (decide (b = a)) as [->|Hne].
  - apply lookup_delete_eq.
  - by rewrite lookup_delete_ne.
Qed.

Lemma foldl_free_freed (es : list cached_frame) (h : frame_heap) e a :
  e ∈ es -> frame e = Some a ->
  foldl (fun hh e => av_frame_free hh (frame e)) h es !! a = None.
Proof.
  revert h. induction es as [|e1 es IH]; intros h Hin Hf.
  - by apply elem_of_nil in Hin.
  - cbn [foldl]. apply elem_of_cons in Hin as [<-|Hin].
    + apply foldl_free_gone. rewrite Hf. apply lookup_delete_eq.
    + by apply IH.
Qed.

Lemma foldl_free_kept (es : list cached_frame) (h : frame_heap) a :
  (forall e, e ∈ es -> frame e <> Some a) ->
  foldl (fun hh e => av_frame_free hh (frame e)) h es !! a = h !! a.
Proof.
  revert h. induction es as [|e1 es IH]; intros h Hn; [done|].
  cbn [foldl]. rewrite IH.
  - unfold av_frame_free. destruct (frame e1) as [b|] eqn:Hb; [|done].
    apply lookup_delete_ne. intros ->. apply (Hn e1); [apply elem_of_cons; by left|done].
  - intros e He. apply Hn. apply elem_of_cons. by right.
Qed.

(** X7. Invalidation empties the cache: every slot is Empty and owns
    neither a frame nor converted pixels; every frame the cache owned is
    freed, pinned or not, and no other frame is touched; the generation
    number goes up by one and the four counters stay; on an enabled cache
    every lookup afterwards misses, whatever the pts. *)
Theorem invalidate_empties_cache (h : frame_heap) (c : frame_cache) :
  let h' := fst (frame_cache_invalidate h c) in
  let c' := snd (frame_cache_invalidate h c) in
  length (entries c') = length (entries c) /\
  Forall (fun e => state e = CACHE_EMPTY /\ frame e = None /\ bgra_data e = None)
         (entries c') /\
  (forall e a, e ∈ entries c -> frame e = Some a -> h' !! a = None) /\
  (forall a, (forall e, e ∈ entries c -> frame e <> Some a) -> h' !! a = h !! a) /\
  current_gen c' = u32 (current_gen c + 1) /\
  (hits c', misses c', evictions c', insertions c')
  = (hits c, misses c, evictions c, insertions c) /\
  (enabled c = true ->
   forall p now,
     frame_cache_get c' p now = (None, set_misses c' (u64 (misses c' + 1)))).
Proof.
  cbv zeta. unfold frame_cache_invalidate. cbn [fst snd].
  split; [cbn; by rewrite length_map|].
  assert (HE : Forall (fun e => state e = CACHE_EMPTY /\ frame e = None /\
                                bgra_data e = None)
      (map (fun e => set_bgra_data (set_frame (set_state e CACHE_EMPTY) None) None)
           (entries c))).
  { rewrite Forall_lookup. intros j x Hj. rewrite list_lookup_map in Hj.
    destruct (entries c !! j) as [e|]; [|done]. by injection Hj as <-. }
  split; [exact HE|].
  split; [intros e a; apply foldl_free_freed|].
  split; [intros a; apply foldl_free_kept|].
  split; [done|]. split; [done|].
  intros Hen p now. apply get_miss; [done|].
  intros k e Hk Hst. cbn [entries set_current_gen set_entries] in Hk.
  rewrite Forall_lookup in HE. destruct (HE k e Hk) as (H1 & _). congruence.
Qed.

(** X8. Use after destruction is inert.  [frame_cache_destroy] frees
    every frame the cache owned and no other, and leaves a zeroed, thus
    disabled, cache: every later lookup returns nothing and counts
    nothing, and every later insertion is refused without cloning or
    changing anything. *)
Theorem destroy_disables_cache (h : frame_heap) (c : frame_cache) :
  let h' := fst (frame_cache_destroy h c) in
  let c' := snd (frame_cache_destroy h c) in
  (forall e a, e ∈ entries c -> frame e = Some a -> h' !! a = None) /\
  (forall a, (forall e, e ∈ entries c -> frame e <> Some a) -> h' !! a = h !! a) /\
  enabled c' = false /\
  (forall p now, frame_cache_get c' p now = (None, c')) /\
  (forall hh fa p bg ls w ht now env,
     frame_cache_put hh c' fa p bg ls w ht now env = (false, hh, c')).
Proof.
  cbv zeta. unfold frame_cache_destroy. cbn [fst snd].
  split; [intros e a; apply foldl_free_freed|].
  split; [intros a; apply foldl_free_kept|].
  split; [done|]. split; [done|].
  intros hh fa p bg ls w ht now env. unfold frame_cache_put.
  by destruct fa.
Qed.

(** X9. Lookup and release pair up: after a hit on entry [k], releasing
    that entry puts its pin count back to what it was before the lookup,
    so the pair leaves nothing behind but the access time, the access
    count and one counted hit. *)
Theorem get_release_roundtrip
    (c : frame_cache) (p now : Z) (k : nat) (e : cached_frame) :
  enabled c = true ->
  entries c !! k = Some e ->
  state e = CACHE_READY -> pts e = p ->
  (forall k' e', (k' < k)%nat -> entries c !! k' = Some e' ->
     state e' = CACHE_READY -> pts e' <> p) ->
  0 <= ref_count e < 2 ^ 32 - 1 ->
  exists c1,
    frame_cache_get c p now = (Some (Z.of_nat k), c1) /\
    frame_cache_release c1 (Z.of_nat k)
    = set_hits
        (store_entry c (Z.of_nat k)
           (Entry (frame e) (pts e) (ref_count e) (state e)
                  (bgra_data e) (bgra_linesize e) (width e) (height e)
                  now (u32 (access_count e + 1))))
        (u64 (hits c + 1)).
Proof.
  intros Hen Hk Hst Hp Hfirst Hrc.
  rewrite (get_hit c p now k e) by done.
  eexists. split; [reflexivity|].
  assert (Hlt : (k < length (entries c))%nat) by (by eapply lookup_lt_Some).
  unfold frame_cache_release, entry_at, store_entry, set_hits, set_entries.
  cbn [entries]. rewrite !Nat2Z.id.
  rewrite list_lookup_insert_eq by done.
  unfold set_ref_count. cbn.
  rewrite list_insert_insert_eq.
  rewrite (u32_small (ref_count e + 1)) by lia.
  replace (ref_count e + 1 - 1) with (ref_count e) by lia.
  by rewrite u32_small by lia.
Qed.

(** X10. An unbalanced release pins for good: releasing an occupied entry
    whose pin count is already zero wraps the count to [2^32 - 1], and
    the eviction scan does not select that entry any more. *)
Theorem release_underflow_pins
    (c : frame_cache) (k : nat) (e : cached_frame) :
  entries c !! k = Some e ->
  ref_count e = 0 ->
  state e <> CACHE_EMPTY ->
  entries (frame_cache_release c (Z.of_nat k))
  = <[k := set_ref_count e 4294967295]> (entries c) /\
  find_lru_entry (frame_cache_release c (Z.of_nat k)) <> Z.of_nat k.
Proof.
  intros Hk Hrc Hst.
  assert (Hlt : (k < length (entries c))%nat) by (by eapply lookup_lt_Some).
  assert (E : entries (frame_cache_release c (Z.of_nat k))
              = <[k := set_ref_count e 4294967295]> (entries c)).
  { unfold frame_cache_release, entry_at. rewrite Nat2Z.id, Hk.
    unfold store_entry; cbn [entries set_entries]. rewrite Nat2Z.id, Hrc.
    done. }
  split; [exact E|].
  intros Hf. unfold find_lru_entry in Hf. rewrite E in Hf.
  apply find_lru_loop_sound in Hf as [Hf|(k' & e' & Hk' & He' & Hc)]; [lia|].
  assert (k' = k) as -> by lia.
  rewrite list_lookup_insert_eq in He' by done. injection He' as <-.
  destruct Hc as [Hc|[_ Hc]]; [done|]. cbn in Hc. lia.
Qed.

Lemma find_lru_loop_first_empty es i old idx k e :
  es !! k = Some e -> state e = CACHE_EMPTY ->
  (forall j x, (j < k)%nat -> es !! j = Some x -> state x <> CACHE_EMPTY) ->
  find_lru_loop es i old idx = i + Z.of_nat k.
Proof.
  revert i old idx k. induction es as [|a es IH]; intros i old idx k Hk He Hb.
  - done.
  - destruct k as [|k]; cbn [find_lru_loop].
    + injection Hk as ->. destruct (decide (state e = CACHE_EMPTY)); [lia|done].
    + destruct (decide (state a = CACHE_EMPTY)) as [Ha|_].
      { by destruct (Hb 0%nat a); [lia|done|]. }
      assert (Hrec : forall o x, find_lru_loop es (i + 1) o x = i + Z.of_nat (S k)).
      { intros o x. rewrite (IH (i + 1) o x k); [lia|done|done|].
        intros j y Hj Hy. apply (Hb (S j)); [lia|done]. }
      destruct (_ && _); apply Hrec.
Qed.

Lemma put_first_empty
    (h : frame_heap) (c : frame_cache) (src : positive) (fr : AVFrame) (p : Z)
    (w ht now : Z) (env : alloc_env) (k : nat) (e0 : cached_frame) :
  enabled c = true ->
  entries c !! k = Some e0 ->
  state e0 = CACHE_EMPTY -> frame e0 = None ->
  (forall j x, (j < k)%nat -> entries c !! j = Some x -> state x <> CACHE_EMPTY) ->
  h !! src = Some fr ->
  clone_ok env = true ->
  exists a,
    h !! a = None /\
    frame_cache_put h c (Some src) p None None w ht now env
    = (true, <[a := fr]> h,
       Cache (<[k := Entry (Some a) p 0 CACHE_READY None (bgra_linesize e0)
                        (width e0) (height e0) now 0]> (entries c))
             (current_gen c) (hits c) (misses c) (evictions c)
             (u64 (insertions c + 1)) (enabled c) (cache_converted_frames c)
             (max_entries c)).
Proof.
  intros Hen Hk Hst Hfr Hfirst Hsrc Hcl.
  exists (fresh (dom h)).
  split; [apply not_elem_of_dom, is_fresh|].
  unfold frame_cache_put. rewrite Hen. cbn [negb].
  assert (Hf : find_lru_entry c = Z.of_nat k).
  { unfold find_lru_entry.
    rewrite (find_lru_loop_first_empty _ 0 _ _ k e0) by done. lia. }
  rewrite Hf. destruct (Z.ltb_spec (Z.of_nat k) 0) as [?|_]; [lia|].
  unfold entry_at. rewrite Nat2Z.id, Hk, Hfr. cbn [av_frame_free].
  unfold av_frame_clone. rewrite Hsrc, Hcl.
  unfold store_entry, set_evictions, set_insertions, set_entries. cbn.
  by rewrite Nat2Z.id, Hen.
Qed.


(** X11. Insertion prefers a free slot: when the cache has an Empty slot,
    [frame_cache_put] stores the clone in the first one, Ready with the
    given pts, the current time and no pin; every other entry and every
    live frame stays as it is, nothing is counted as an eviction and one
    insertion is counted. *)
Theorem put_uses_first_empty
    (h : frame_heap) (c : frame_cache) (src : positive) (fr : AVFrame) (p : Z)
    (w ht now : Z) (env : alloc_env) (k : nat) (e0 : cached_frame) :
  enabled c = true ->
  entries c !! k = Some e0 ->
  state e0 = CACHE_EMPTY -> frame e0 = None ->
  (forall j x, (j < k)%nat -> entries c !! j = Some x -> state x <> CACHE_EMPTY) ->
  h !! src = Some fr ->
  clone_ok env = true ->
  exists a,
    h !! a = None /\
    frame_cache_put h c (Some src) p None None w ht now env
    = (true, <[a := fr]> h,
       Cache (<[k := Entry (Some a) p 0 CACHE_READY None (bgra_linesize e0)
                        (width e0) (height e0) now 0]> (entries c))
             (current_gen c) (hits c) (misses c) (evictions c)
             (u64 (insertions c + 1)) (enabled c) (cache_converted_frames c)
             (max_entries c)).
Proof. apply put_first_empty. Qed.

Lemma put_all_fill env items :
  clone_ok env = true ->
  forall (h : frame_heap) (c : frame_cache) (n : nat) (m : Z),
  enabled c = true ->
  (n + length items <= length (entries c))%nat ->
  (forall j x, (j < n)%nat -> entries c !! j = Some x -> state x <> CACHE_EMPTY) ->
  (forall j x, (n <= j)%nat -> entries c !! j = Some x ->
     state x = CACHE_EMPTY /\ frame x = None) ->
  (forall src p now, (src, p, now) ∈ items -> is_Some (h !! src)) ->
  insertions c = u64 m ->
  exists h' c',
    put_all h c items env = Some (h', c') /\
    enabled c' = true /\
    length (entries c') = length (entries c) /\
    evictions c' = evictions c /\
    insertions c' = u64 (m + Z.of_nat (length items)) /\
    (forall a, is_Some (h !! a) -> h' !! a = h !! a) /\
    (forall j, (j < n)%nat -> entries c' !! j = entries c !! j) /\
    (forall j, (n + length items <= j)%nat -> entries c' !! j = entries c !! j) /\
    (forall k src p now,
       items !! k = Some (src, p, now) ->
       exists e a,
         entries c' !! (n + k)%nat = Some e /\
         state e = CACHE_READY /\ pts e = p /\ ref_count e = 0 /\
         last_access_time e = now /\
         frame e = Some a /\ h !! a = None /\ h' !! a = h !! src).
Proof.
  intros Hcl. induction items as [|[[src p] now] items IH];
    intros h c n m Hen Hlen Hfull Hfree Hlive Hins.
  - exists h, c. cbn [put_all length]. rewrite Z.add_0_r.
    repeat (split; [done|]). by intros k src p now Hk.
  - cbn [length] in Hlen.
    destruct (lookup_lt_is_Some_2 (entries c) n) as [e0 He0]; [lia|].
    destruct (Hfree n e0) as [Hst0 Hfr0]; [lia|done|].
    destruct (Hlive src p now) as [fr Hfr]; [apply elem_of_cons; by left|].
    destruct (put_first_empty h c src fr p 0 0 now env n e0)
      as (a & Ha & Hput); try done.
    cbn [put_all]. rewrite Hput.
    match type of Hput with
    | _ = (true, ?h1, ?c1) =>
        destruct (IH h1 c1 (S n) (m + 1))
          as (h' & c' & Hall & Hen' & Hlen' & Hev' & Hins' & Hkeep & Hlo & Hhi & Hnew)
    end.
    + done.
    + cbn [entries]. rewrite length_insert. lia.
    + cbn [entries]. intros j x Hj Hx.
      destruct (decide (j = n)) as [->|Hne].
      * rewrite list_lookup_insert_eq in Hx by lia. by injection Hx as <-.
      * rewrite list_lookup_insert_ne in Hx by done. apply (Hfull j); [lia|done].
    + cbn [entries]. intros j x Hj Hx.
      rewrite list_lookup_insert_ne in Hx by lia. apply (Hfree j); [lia|done].
    + intros src' p' now' Hin.
      destruct (Hlive src' p' now') as [fr' Hfr']; [apply elem_of_cons; by right|].
      exists fr'. rewrite lookup_insert_ne; [done|]. intros ->. congruence.
    + cbn [insertions]. rewrite Hins. unfold u64.
      by rewrite Zplus_mod_idemp_l.
    + cbn [entries enabled evictions] in *. rewrite length_insert in Hlen'.
      exists h', c'. split; [done|]. split; [done|]. split; [done|].
      split; [done|].
      split; [rewrite Hins'; f_equal; cbn [length]; lia|].
      assert (Hkeep0 : forall b, is_Some (h !! b) -> h' !! b = h !! b).
      { intros b Hb. rewrite Hkeep.
        - apply lookup_insert_ne. intros ->. destruct Hb as [? Hb]. congruence.
        - rewrite lookup_insert_ne; [done|].
          intros ->. destruct Hb as [? Hb]. congruence. }
      split; [exact Hkeep0|].
      split; [intros j Hj; rewrite Hlo by lia;
              by rewrite list_lookup_insert_ne by lia|].
      split; [intros j Hj; cbn [length] in Hj; rewrite Hhi by lia;
              by rewrite list_lookup_insert_ne by lia|].
      intros [|k] src' p' now' Hk.
      * injection Hk as <- <- <-. rewrite Nat.add_0_r, Hlo by lia.
        rewrite list_lookup_insert_eq by lia.
        eexists _, a. split; [reflexivity|]. cbn.
        repeat (split; [done|]).
        rewrite Hkeep by (rewrite lookup_insert_eq; by eexists).
        by rewrite lookup_insert_eq.
      * destruct (Hnew k src' p' now' Hk)
          as (e & a' & H1 & H2 & H3 & H4 & H5 & H6 & H7 & H8).
        exists e, a'. replace (n + S k)%nat with (S n + k)%nat by lia.
        repeat (split; [done|]).
        assert (Hne : a <> a').
        { intros ->. rewrite lookup_insert_eq in H7. done. }
        rewrite lookup_insert_ne in H7 by done.
        split; [done|]. rewrite H8.
        apply lookup_insert_ne. intros ->.
        destruct (Hlive src' p' now') as [? Hx];
          [apply elem_of_cons; right; by eapply list_elem_of_lookup_2|].
        congruence.
Qed.

(** X12. Filling the cache: up to thirty frames put into a freshly
    initialized cache are all accepted, whatever their pts, when the
    clones succeed; they occupy the slots in order of arrival, each Ready
    and unpinned with its pts and time of insertion and owning a new clone
    of its frame; nothing is evicted, the caller's frames stay live, and a
    lookup of a pts that was not put earlier in the sequence returns the
    slot it was put in. *)
Theorem fill_from_init
    (h : frame_heap) (b : bool) (items : list (positive * Z * Z))
    (env : alloc_env) :
  clone_ok env = true ->
  (length items <= Z.to_nat FRAME_CACHE_SIZE)%nat ->
  (forall src p now, (src, p, now) ∈ items -> is_Some (h !! src)) ->
  exists h' c',
    put_all h (frame_cache_init b) items env = Some (h', c') /\
    evictions c' = 0 /\
    insertions c' = Z.of_nat (length items) /\
    (forall a, is_Some (h !! a) -> h' !! a = h !! a) /\
    (forall k src p now,
       items !! k = Some (src, p, now) ->
       (exists e a,
          entries c' !! k = Some e /\
          state e = CACHE_READY /\ pts e = p /\ ref_count e = 0 /\
          last_access_time e = now /\
          frame e = Some a /\ h !! a = None /\ h' !! a = h !! src) /\
       ((forall k' src' p' now', (k' < k)%nat ->
           items !! k' = Some (src', p', now') -> p' <> p) ->
        forall t, fst (frame_cache_get c' p t) = Some (Z.of_nat k))).
Proof.
  intros Hcl Hlen Hlive.
  destruct (put_all_fill env items Hcl h (frame_cache_init b) 0 0)
    as (h' & c' & Hall & Hen' & Hlen' & Hev' & Hins' & Hkeep & _ & _ & Hnew).
  - done.
  - cbn. rewrite length_replicate. lia.
  - intros j x Hj. lia.
  - intros j x _ Hx. cbn in Hx. apply lookup_replicate in Hx as [-> _]. done.
  - done.
  - done.
  - exists h', c'. split; [done|]. split; [done|].
    split.
    { rewrite Hins'. apply u64_small.
      change (Z.to_nat FRAME_CACHE_SIZE) with 30%nat in Hlen. lia. }
    split; [done|].
    intros k src p now Hk. split; [by apply Hnew|].
    intros Hfirst t.
    destruct (Hnew k src p now Hk) as (e & a & H1 & H2 & H3 & _).
    rewrite (get_hit c' p t k e); try done.
    intros k' e' Hlt He' Hst'.
    destruct (lookup_lt_is_Some_2 items k') as [[[src' p'] now'] Hk'].
    { apply lookup_lt_Some in Hk. lia. }
    destruct (Hnew k' src' p' now' Hk') as (e2 & a2 & G1 & _ & G3 & _).
    cbn [Nat.add] in G1. rewrite G1 in He'. injection He' as <-.
    rewrite G3. by eapply Hfirst.
Qed.

Lemma cache_ok_invariant_witness :
  cache_ok (snd (frame_cache_get (frame_cache_init true) 0 5000)) /\
  cache_ok (snd (frame_cache_put sample_heap (frame_cache_init true)
                   (Some 31%positive) 0 None None 0 0 5000 (sample_env true))) /\
  cache_ok (frame_cache_release (frame_cache_init true) 0) /\
  cache_ok (snd (frame_cache_invalidate sample_heap (frame_cache_init true))).
Proof.
  apply (cache_ok_invariant sample_heap (frame_cache_init true) (Some 31%positive)
           0 None None 0 0 5000 0 (sample_env true)).
  - apply init_cache_ok.
  - unfold UINT64_MAX. lia.
Defined.

Lemma invalidate_empties_cache_witness :
  let r := frame_cache_invalidate sample_heap (sample_cache true) in
  fst r !! 6%positive = None /\
  fst r !! 31%positive = sample_heap !! 31%positive /\
  frame_cache_get (snd r) 166665 7000
  = (None, set_misses (snd r) (u64 (misses (snd r) + 1))).
Proof.
  destruct (invalidate_empties_cache sample_heap (sample_cache true))
    as (_ & _ & H3 & H4 & _ & _ & H7).
  cbv zeta. split; [|split].
  - apply (H3 (sample_entry true 5) 6%positive); [|reflexivity].
    apply (list_elem_of_lookup_2 _ 5%nat). vm_compute; reflexivity.
  - apply H4. intros e He.
    apply list_elem_of_lookup_1 in He as [i He].
    unfold sample_cache in He. cbn [entries] in He.
    rewrite list_lookup_map in He.
    destruct (seq 0 (Z.to_nat FRAME_CACHE_SIZE) !! i) as [j|] eqn:Hj; [|done].
    apply lookup_seq in Hj as [-> Hlt]. injection He as <-.
    change (Z.to_nat FRAME_CACHE_SIZE) with 30%nat in Hlt.
    cbn [sample_entry frame]. intros [= Heq]. lia.
  - apply H7. reflexivity.
Defined.

Lemma destroy_disables_cache_witness :
  let r := frame_cache_destroy sample_heap (sample_cache false) in
  fst r !! 6%positive = None /\
  frame_cache_get (snd r) 166665 7000 = (None, snd r) /\
  frame_cache_put (fst r) (snd r) (Some 31%positive) 0 None None 0 0 8000
    (sample_env true)
  = (false, fst r, snd r).
Proof.
  destruct (destroy_disables_cache sample_heap (sample_cache false))
    as (H1 & _ & _ & H4 & H5).
  cbv zeta. split; [|split; [apply H4|apply H5]].
  apply (H1 (sample_entry false 5) 6%positive); [|reflexivity].
  apply (list_elem_of_lookup_2 _ 5%nat). vm_compute; reflexivity.
Defined.

Lemma get_release_roundtrip_witness :
  exists c1,
    frame_cache_get (sample_cache false) 166665 7000 = (Some 5, c1) /\
    entries (frame_cache_release c1 5) !! 5%nat
    = Some (Entry (Some 6%positive) 166665 0 CACHE_READY None [0; 0; 0; 0]
                  0 0 7000 1).
Proof.
  destruct (get_release_roundtrip (sample_cache false) 166665 7000 5
              (sample_entry false 5)) as (c1 & H1 & H2).
  - reflexivity.
  - vm_compute; reflexivity.
  - reflexivity.
  - vm_compute; reflexivity.
  - intros k' e' Hlt He' _.
    assert (Hc : (k' = 0 \/ k' = 1 \/ k' = 2 \/ k' = 3 \/ k' = 4)%nat) by lia.
    destruct Hc as [-> | [-> | [-> | [-> | ->]]]];
      vm_compute in He'; injection He' as <-; vm_compute; discriminate.
  - vm_compute. split; [discriminate|reflexivity].
  - exists c1. split; [exact H1|].
    change (frame_cache_release c1 5) with (frame_cache_release c1 (Z.of_nat 5)).
    rewrite H2. vm_compute; reflexivity.
Defined.

Lemma release_underflow_pins_witness :
  ref_count <$> (entries (frame_cache_release (sample_cache false) 5) !! 5%nat)
  = Some 4294967295 /\
  find_lru_entry (frame_cache_release (sample_cache false) 5) <> 5.
Proof.
  destruct (release_underflow_pins (sample_cache false) 5 (sample_entry false 5))
    as (H1 & H2).
  - vm_compute; reflexivity.
  - reflexivity.
  - discriminate.
  - split; [|exact H2].
    change (frame_cache_release (sample_cache false) 5)
      with (frame_cache_release (sample_cache false) (Z.of_nat 5)).
    rewrite H1. vm_compute; reflexivity.
Defined.

Lemma put_uses_first_empty_witness :
  exists a c',
    sample_heap !! a = None /\
    frame_cache_put sample_heap (frame_cache_init false) (Some 31%positive)
      999999 None None 0 0 5000 (sample_env true)
    = (true, <[a := Frame 31 999990]> sample_heap, c') /\
    evictions c' = 0.
Proof.
  destruct (put_uses_first_empty sample_heap (frame_cache_init false) 31
              (Frame 31 999990) 999999 0 0 5000 (sample_env true) 0 empty_entry)
    as (a & H1 & H2).
  - reflexivity.
  - vm_compute; reflexivity.
  - reflexivity.
  - reflexivity.
  - intros j x Hj. lia.
  - vm_compute; reflexivity.
  - reflexivity.
  - exists a. eexists. split; [exact H1|]. split; [exact H2|reflexivity].
Defined.

Lemma fill_from_init_witness :
  exists h' c',
    put_all sample_heap (frame_cache_init false) sample_puts (sample_env true)
    = Some (h', c') /\
    insertions c' = 3 /\
    fst (frame_cache_get c' 33333 9000) = Some 1.
Proof.
  destruct (fill_from_init sample_heap false sample_puts (sample_env true))
    as (h' & c' & H1 & _ & H3 & _ & H5).
  - reflexivity.
  - vm_compute. lia.
  - intros src p now Hin.
    assert (src = 31%positive) as ->.
    { unfold sample_puts in Hin. rewrite !elem_of_cons in Hin.
      destruct Hin as [Hin | [Hin | [Hin | Hin]]];
        [congruence..|by apply elem_of_nil in Hin]. }
    eexists. vm_compute; reflexivity.
  - exists h', c'. split; [exact H1|]. split; [exact H3|].
    destruct (H5 1%nat 31%positive 33333 2000) as [_ H6]; [reflexivity|].
    apply (H6 ltac:(intros k' src' p' now' Hlt Hk';
                    assert (k' = 0%nat) as -> by lia;
                    injection Hk' as <- <- <-; discriminate) 9000).
Defined.

End FrameCacheMore.

(** ** Decoder: delivery, breaker, flushes, playback control *)

Module DecoderMore.
Import Decoder DecoderSpec.

Lemma hw_run_active_step d n ret rest :
  hw_decoding_active d = true ->
  hw_run d n (ret :: rest) =
    if ret <? 0 then
      if n + 1 >? 5 then hw_run (set_hw_decoding_active d false) 0 rest
      else hw_run d (n + 1) rest
    else hw_run d n rest.
Proof.
  intros Ha. cbn [hw_run]. unfold hw_transfer_block. rewrite Ha. cbn [andb].
  destruct (ret <? 0); [|done]. by destruct (n + 1 >? 5).
Qed.

Lemma count_failures_nonneg rets : 0 <= count_failures rets.
Proof.
  induction rets as [|r rets IH]; cbn [count_failures]; [lia|].
  destruct (r <? 0); lia.
Qed.

(** X13. The breaker trips on the sixth failed transfer, counted over the
    whole run: starting with the accelerated path active and
    [hw_failure_count = n], after any sequence of transfer results the
    path is still active exactly when [n] plus the number of failures in
    the sequence is at most 5, and the counter then holds that sum;
    successful transfers in between change nothing.  Otherwise the path
    is off and the counter is back at 0. *)
Theorem hw_breaker_trips_on_sixth_failure
    (d : ffmpeg_decoder) (n : Z) (rets : list Z) :
  hw_decoding_active d = true ->
  0 <= n <= 5 ->
  hw_run d n rets =
    if n + count_failures rets <=? 5
    then (d, n + count_failures rets)
    else (set_hw_decoding_active d false, 0).
Proof.
  intros Ha. revert n. induction rets as [|ret rets IH]; intros n Hn.
  - cbn [hw_run count_failures]. rewrite Z.add_0_r.
    destruct (Z.leb_spec n 5); [done|lia].
  - rewrite hw_run_active_step by done. cbn [count_failures].
    pose proof (count_failures_nonneg rets) as Hc.
    destruct (ret <? 0).
    + destruct (Z.gtb_spec (n + 1) 5) as [Hgt|Hle].
      * rewrite hw_run_inactive by done.
        destruct (Z.leb_spec (n + (1 + count_failures rets)) 5); [lia|done].
      * rewrite IH by lia. by rewrite Z.add_assoc.
    + rewrite IH by lia. done.
Qed.

(** The signed time until display, as the loop computes it. *)
Lemma time_until_exact (display_time now_ms : Z) :
  - 9223372036854 <= display_time - now_ms <= 9223372036854 ->
  s64 (s64 (display_time - now_ms) * 1000000) = (display_time - now_ms) * 1000000.
Proof.
  intros H. rewrite (s64_small (display_time - now_ms)) by lia.
  apply s64_small. lia.
Qed.

(** X14. A due frame is shown.  When the decoder is playing and not
    stopping, a sink is set, and the ready frame under the read index is
    valid, has its payload, and is due (not more than 500 ms late and not
    more than 3 ms early), the pass hands its pts to the sink, records it
    as the playback position and in the clock, and gives the slot back;
    the epoch of the clock is not touched. *)
Theorem display_emits_due_frame
    (d : ffmpeg_decoder) (now_ns now2_ns : Z) (bf : buffered_frame)
    (cb op : positive) :
  stopping d = false ->
  playing d = true ->
  count (buffer d) <> 0 ->
  frames (buffer d) !! Z.to_nat (read_idx (buffer d)) = Some bf ->
  ready bf = true ->
  0 <= pts bf ->
  system_time bf <> 0 ->
  - 500 <= system_time bf - now_ns / 1000000 <= 3 ->
  video_cb d = Some cb -> opaque d = Some op ->
  is_hw_frame bf = false \/ nv12_present bf = true \/
    (zero_copy bf = true /\ frame bf <> None) ->
  let r := display_iteration d now_ns now2_ns in
  fst r = D_emit /\
  delivered (snd r) = delivered d ++ [pts bf] /\
  frame_pts (snd r) = u64 (pts bf) /\
  clock (snd r) =
    Clock (system_start (clock d)) (media_start_pts (clock d)) (pts bf)
          (now2_ns / 1000000) (playback_rate (clock d)) /\
  buffer (snd r) = consume_slot (buffer d) (read_idx (buffer d)) bf /\
  count (buffer (snd r)) = count (buffer d) - 1 /\
  read_idx (buffer (snd r)) = Z.rem (read_idx (buffer d) + 1) 3.
Proof.
  intros Hstop Hplay Hcnt Hbf Hready Hpts Hst Hdue Hcb Hop Hpay.
  cbv zeta. unfold display_iteration.
  rewrite Hstop, Hplay. cbn [negb].
  destruct (Z.eqb_spec (count (buffer d)) 0) as [?|_]; [done|].
  rewrite Hbf, Hready. cbn [negb orb].
  destruct (Z.ltb_spec (pts bf) 0) as [?|_]; [lia|].
  destruct (Z.eqb_spec (system_time bf) 0) as [?|_]; [done|]. cbn [orb].
  rewrite time_until_exact by lia.
  destruct (Z.ltb_spec ((system_time bf - now_ns / 1000000) * 1000000)
              (-500000000)) as [?|_]; [lia|].
  destruct (Z.gtb_spec ((system_time bf - now_ns / 1000000) * 1000000)
              3000000) as [?|_]; [lia|].
  rewrite Hcb, Hop.
  assert (Hp : negb (zero_copy bf && bool_decide (frame bf <> None))
               && is_hw_frame bf && negb (nv12_present bf) = false).
  { destruct Hpay as [->|[->|[-> Hf]]].
    - by rewrite andb_false_r.
    - by rewrite andb_false_r.
    - by rewrite bool_decide_eq_true_2. }
  rewrite Hp. cbn. done.
Qed.










Lemma decoder_frames_settled s fs :
  waiting_for_first_frame s = false -> decoder_frames s fs = s.
Proof.
  intros Hw. induction fs as [|[[p n] n2] fs IH]; [done|].
  cbn [decoder_frames]. unfold decoder_first_frame. rewrite Hw. cbn [andb].
  exact IH.
Qed.

(** X18. The epoch is set once per episode.  The first decoded frame with
    a timestamp that arrives while a first frame is awaited resets the
    clock to the current millisecond and its own pts, so that at rate 1.0
    its own deadline is the moment it was decoded; the flag is cleared,
    and whatever frames follow, the clock and the rest of the session
    stay as that frame left them.  A frame without a timestamp does not
    end the wait. *)
Theorem first_frame_sets_epoch_once
    (s : decoder_session) (pts_us now_ns now2_ns : Z) (later : list (Z * Z * Z)) :
  waiting_for_first_frame s = true ->
  pts_us <> AV_NOPTS_VALUE ->
  0 <= now_ns < 2 ^ 64 ->
  let s1 := decoder_first_frame s pts_us now_ns now2_ns in
  waiting_for_first_frame s1 = false /\
  system_start (clock (dec s1)) = now_ns / 1000000 /\
  media_start_pts (clock (dec s1)) = pts_us /\
  playback_rate (clock (dec s1)) = playback_rate (clock (dec s)) /\
  pts_offset s1 = s64 (pts_us * 1000) /\
  start_time_ns s1 = (if waiting_for_first_audio s then now2_ns else start_time_ns s) /\
  buffer (dec s1) = buffer (dec s) /\
  (playback_rate (clock (dec s)) = lit_1 ->
   clock_get_system_time_for_pts (dec s1) pts_us = Some (now_ns / 1000000)) /\
  decoder_frames s1 later = s1 /\
  decoder_first_frame s AV_NOPTS_VALUE now_ns now2_ns = s.
Proof.
  intros Hw Hp Hnow. cbv zeta.
  assert (E : decoder_first_frame s pts_us now_ns now2_ns =
    Session (clock_reset (dec s) pts_us now_ns)
            (interrupt_request s) (looping s) false
            (waiting_for_first_audio s) (global_timeline_start_ms s)
            (s64 (pts_us * 1000))
            (if waiting_for_first_audio s then now2_ns else start_time_ns s)).
  { unfold decoder_first_frame. rewrite Hw.
    destruct (Z.eqb_spec pts_us AV_NOPTS_VALUE); [done|done]. }
  rewrite E. cbn [waiting_for_first_frame dec pts_offset start_time_ns].
  do 7 (split; [done|]).
  split.
  { intros Hr. rewrite clock_deadline_rate_one.
    - cbn. rewrite Z.sub_diag. change (0 / 1000) with 0. rewrite Z.add_0_r.
      f_equal. apply u64_small. split; [apply Z.div_pos; lia|].
      apply Z.div_lt_upper_bound; lia.
    - done.
    - cbn. rewrite Z.sub_diag. lia. }
  split; [by apply decoder_frames_settled|].
  unfold decoder_first_frame.
  by rewrite Z.eqb_refl, andb_false_r.
Qed.

(** X19. A seek survives a pause.  A seek requested on an initialized
    decoder and still pending when the decoder is put into the
    paused-ready state is requested again, with the same target, by a
    resume within the recency bound; the playback position that was
    preserved is the one [get_position] reported.  Without a pending
    seek the resume requests none. *)
Theorem seek_survives_pause_ready
    (d : ffmpeg_decoder) (position_us t0 t1 : Z) :
  initialized d = true ->
  0 <= t0 <= t1 -> t1 < 2 ^ 64 ->
  t1 / 1000000 - t0 / 1000000 <= 10000 ->
  let d1 := ffmpeg_decoder_pause_ready (ffmpeg_decoder_seek d position_us) t0 in
  let r := ffmpeg_decoder_resume d1 t1 in
  fst r = true /\
  seek_request (snd r) = true /\
  seek_target (snd r) = position_us /\
  state (snd r) = DECODER_STATE_PLAYING /\
  playing (snd r) = true /\
  preserved_playback_position d1 = ffmpeg_decoder_get_position d /\
  (seek_request d = false ->
   let r0 := ffmpeg_decoder_resume (ffmpeg_decoder_pause_ready d t0) t1 in
   fst r0 = true /\ seek_request (snd r0) = false).
Proof.
  intros Hi Ht Ht1 Hle. cbv zeta.
  assert (Hb : forall x, 0 <= x <= t1 -> 0 <= x / 1000000 < 2 ^ 64).
  { intros x Hx. split; [apply Z.div_pos; lia|].
    apply Z.div_lt_upper_bound; lia. }
  assert (Hm : t0 / 1000000 <= t1 / 1000000) by (apply Z.div_le_mono; lia).
  pose proof (Hb t0 ltac:(lia)). pose proof (Hb t1 ltac:(lia)).
  unfold ffmpeg_decoder_seek, ffmpeg_decoder_get_position. rewrite Hi.
  cbn [negb].
  unfold ffmpeg_decoder_pause_ready. cbn [initialized set_seek_target
    set_seek_request negb]. rewrite Hi. cbn [negb].
  split.
  { rewrite resume_fresh; [done|done|done|].
    cbn. rewrite u64_small by lia. lia. }
  rewrite resume_fresh; [|done|done|cbn; rewrite u64_small by lia; lia].
  cbn. do 5 (split; [done|]).
  intros Hsk. rewrite Hsk.
  rewrite resume_fresh; [|cbn; done|done|cbn; rewrite u64_small by lia; lia].
  cbn. done.
Qed.

(** X20. Only the paused-ready state can be resumed.  After [stop], and
    after [play] on an initialized decoder, [resume] returns false and
    changes nothing, and [is_paused_ready] answers false; [pause] leaves
    the state and that answer as they are; and a resume that has failed
    once fails at every later time as well, without further change. *)
Theorem resume_only_from_paused_ready
    (d : ffmpeg_decoder) (s : decoder_session) (tl t1 t2 : Z) (created : bool) :
  ffmpeg_decoder_resume (ffmpeg_decoder_stop d) t1
  = (false, ffmpeg_decoder_stop d) /\
  ffmpeg_decoder_is_paused_ready (ffmpeg_decoder_stop d) = false /\
  (let s' := ffmpeg_decoder_play_with_timeline s tl created in
   initialized (dec s) = true ->
   ffmpeg_decoder_resume (dec s') t1 = (false, dec s') /\
   ffmpeg_decoder_is_paused_ready (dec s') = false /\
   state (dec s') = DECODER_STATE_PLAYING /\
   ffmpeg_decoder_is_playing (dec s') = true /\
   stopping (dec s') = false /\
   thread_running (dec s') = true /\
   display_thread_created (dec s')
   = display_thread_created (dec s) || created /\
   waiting_for_first_frame s' = true) /\
  state (ffmpeg_decoder_pause d) = state d /\
  ffmpeg_decoder_is_paused_ready (ffmpeg_decoder_pause d)
  = ffmpeg_decoder_is_paused_ready d /\
  ffmpeg_decoder_is_playing (ffmpeg_decoder_pause d) = false /\
  (fst (ffmpeg_decoder_resume d t1) = false ->
   ffmpeg_decoder_resume (snd (ffmpeg_decoder_resume d t1)) t2
   = (false, snd (ffmpeg_decoder_resume d t1))).
Proof.
  split.
  { unfold ffmpeg_decoder_resume, ffmpeg_decoder_stop. cbn.
    by destruct (initialized d). }
  split.
  { unfold ffmpeg_decoder_is_paused_ready, ffmpeg_decoder_stop. cbn.
    by rewrite andb_false_r. }
  split.
  { cbv zeta. intros Hi. unfold ffmpeg_decoder_play_with_timeline.
    rewrite Hi. cbn [negb dec waiting_for_first_frame].
    unfold ffmpeg_decoder_resume, ffmpeg_decoder_is_paused_ready,
      ffmpeg_decoder_is_playing.
    cbn.
    destruct (display_thread_created (dec s)) eqn:Hdc, created; cbn;
      rewrite ?Hdc; destruct (thread_running (dec s)) eqn:Htr; cbn;
      rewrite ?Hi, ?Htr, ?Hdc; cbn; repeat split; done. }
  split; [done|]. split; [done|]. split; [done|].
  unfold ffmpeg_decoder_resume.
  destruct (initialized d) eqn:Hi; cbn [negb].
  - destruct (bool_decide (state d = DECODER_STATE_PAUSED_READY)) eqn:Hs;
      cbn [negb].
    + destruct (u64 (t1 / 1000000 - state_preserved_time d) >? 10000) eqn:Hgt.
      * intros _. cbn. by rewrite Hi.
      * done.
    + intros _. cbn. by rewrite Hi, Hs.
  - intros _. cbn. by rewrite Hi.
Qed.

(** *** The theorems at the sample decoder *)

Lemma hw_breaker_trips_on_sixth_failure_witness :
  hw_run (sample_decoder 0 1000) 0 [-1; 0; -1; 0; -1; 0; -1; 0; -1; 0]
  = (sample_decoder 0 1000, 5) /\
  hw_run (sample_decoder 0 1000) 0 [-1; 0; -1; 0; -1; 0; -1; 0; -1; 0; -1]
  = (set_hw_decoding_active (sample_decoder 0 1000) false, 0).
Proof.
  split.
  - rewrite (hw_breaker_trips_on_sixth_failure (sample_decoder 0 1000) 0);
      [reflexivity|reflexivity|lia].
  - rewrite (hw_breaker_trips_on_sixth_failure (sample_decoder 0 1000) 0);
      [reflexivity|reflexivity|lia].
Defined.

Lemma display_emits_due_frame_witness :
  let r := display_iteration (sample_decoder 0 1000) 1002000000 1002500000 in
  fst r = D_emit /\
  delivered (snd r) = [0] /\
  count (buffer (snd r)) = 1.
Proof.
  destruct (display_emits_due_frame (sample_decoder 0 1000) 1002000000 1002500000
              (Buffered (Some 1%positive) 0 1000 true false false false)
              8%positive 9%positive)
    as (H1 & H2 & _ & _ & _ & H6 & _);
    [reflexivity|reflexivity|discriminate|reflexivity|reflexivity
    |cbn; lia|discriminate|vm_compute; split; discriminate
    |reflexivity|reflexivity|by left|].
  cbv zeta. split; [exact H1|]. split; [exact H2|exact H6].
Defined.




Lemma first_frame_sets_epoch_once_witness :
  let s1 := decoder_first_frame (sample_session 0 1000) 40000 5000000000 5000000100 in
  clock_get_system_time_for_pts (dec s1) 40000 = Some 5000 /\
  decoder_frames s1 [(73333, 5030000000, 5030000100); (106666, 5060000000, 5060000100)]
  = s1.
Proof.
  destruct (first_frame_sets_epoch_once (sample_session 0 1000) 40000
              5000000000 5000000100
              [(73333, 5030000000, 5030000100); (106666, 5060000000, 5060000100)])
    as (_ & _ & _ & _ & _ & _ & _ & H8 & H9 & _);
    [reflexivity|discriminate|lia|].
  cbv zeta. split; [exact (H8 eq_refl)|exact H9].
Defined.

Lemma seek_survives_pause_ready_witness :
  let d1 := ffmpeg_decoder_pause_ready
              (ffmpeg_decoder_seek (sample_decoder 0 1000) 5000000) 5000000000 in
  fst (ffmpeg_decoder_resume d1 8000000000) = true /\
  seek_target (snd (ffmpeg_decoder_resume d1 8000000000)) = 5000000.
Proof.
  destruct (seek_survives_pause_ready (sample_decoder 0 1000) 5000000
              5000000000 8000000000)
    as (H1 & _ & H3 & _); [reflexivity|lia|lia|vm_compute; discriminate|].
  cbv zeta. split; [exact H1|exact H3].
Defined.

Lemma resume_only_from_paused_ready_witness :
  let s' := ffmpeg_decoder_play_with_timeline (sample_session 0 1000) 0 true in
  ffmpeg_decoder_resume (dec s') 8000000000 = (false, dec s') /\
  ffmpeg_decoder_resume
    (snd (ffmpeg_decoder_resume
            (ffmpeg_decoder_pause_ready (sample_decoder 0 1000) 5000000000)
            16000000000))
    17000000000
  = (false,
     snd (ffmpeg_decoder_resume
            (ffmpeg_decoder_pause_ready (sample_decoder 0 1000) 5000000000)
            16000000000)).
Proof.
  destruct (resume_only_from_paused_ready
              (ffmpeg_decoder_pause_ready (sample_decoder 0 1000) 5000000000)
              (sample_session 0 1000) 0 16000000000 17000000000 true)
    as (_ & _ & H3 & _ & _ & _ & H7).
  cbv zeta. split.
  - destruct (resume_only_from_paused_ready
                (sample_decoder 0 1000) (sample_session 0 1000) 0
                8000000000 0 true) as (_ & _ & H & _).
    destruct H as (H & _); [reflexivity|exact H].
  - apply H7. vm_compute; reflexivity.
Defined.

End DecoderMore.

(** ** Video source: the playlist timeline *)

Module VideoSourceSpec.
Import VideoSource.

Lemma sum_us_app ds1 ds2 : sum_us (ds1 ++ ds2) = sum_us ds1 + sum_us ds2.
Proof.
  unfold sum_us. induction ds1 as [|d ds1 IH]; cbn [foldr app]; [done|].
  rewrite IH. lia.
Qed.

Lemma sum_us_nonneg ds : Forall (fun d => 0 < d) ds -> 0 <= sum_us ds.
Proof.
  unfold sum_us. induction 1 as [|d ds Hd _ IH]; cbn [foldr]; lia.
Qed.

Lemma sum_us_pos ds : ds <> [] -> Forall (fun d => 0 < d) ds -> 0 < sum_us ds.
Proof.
  intros Hne Hall. destruct Hall as [|d ds Hd Hall]; [done|].
  pose proof (sum_us_nonneg ds Hall). unfold sum_us in *. cbn [foldr]. lia.
Qed.

Lemma find_position_spec ds :
  forall i acc e,
  Forall (fun d => 0 < d) ds ->
  0 <= acc -> acc + sum_us ds < 2 ^ 63 ->
  acc <= e < 2 ^ 63 ->
  (e < acc + sum_us ds ->
   exists k d,
     find_position ds i acc e
     = Some (i + Z.of_nat k, e - acc - sum_us (take k ds)) /\
     ds !! k = Some d /\
     0 <= e - acc - sum_us (take k ds) < d) /\
  (acc + sum_us ds <= e -> find_position ds i acc e = None).
Proof.
  induction ds as [|d ds IH]; intros i acc e Hall Hacc Hsum He.
  - unfold sum_us in *. cbn [foldr] in *. split; [lia|done].
  - apply Forall_cons in Hall as [Hd Hall].
    pose proof (sum_us_nonneg ds Hall) as Hnn.
    assert (Hs : sum_us (d :: ds) = d + sum_us ds) by done.
    rewrite Hs in *. cbn [find_position].
    rewrite (s64_small (acc + d)) by lia.
    destruct (Z.ltb_spec e (acc + d)) as [Hlt|Hge].
    + split; [|lia]. intros _. exists 0%nat, d.
      rewrite s64_small by lia. cbn [take]. unfold sum_us at 1 2. cbn [foldr].
      rewrite !Z.add_0_r, !Z.sub_0_r. split; [done|]. split; [done|lia].
    + destruct (IH (i + 1) (acc + d) e Hall) as [IH1 IH2]; [lia|lia|lia|].
      split.
      * intros Hlt. destruct IH1 as (k & d' & Hf & Hk & Hoff); [lia|].
        exists (S k), d'. rewrite Hf. cbn [take].
        assert (Hs' : sum_us (d :: take k ds) = d + sum_us (take k ds)) by done.
        rewrite Hs'. split; [f_equal; f_equal; lia|]. split; [done|lia].
      * intros Hle. apply IH2. lia.
Qed.

(** The elapsed microseconds, as the function computes them. *)
Lemma elapsed_exact start now_ms :
  0 <= start <= now_ms -> now_ms < 2 ^ 64 ->
  (now_ms - start) * 1000 < 2 ^ 63 ->
  s64 (u64 (now_ms - start) * 1000) = (now_ms - start) * 1000.
Proof.
  intros H1 H2 H3. rewrite u64_small by lia. apply s64_small. lia.
Qed.

Lemma position_within (s : fvs_source) (now_ns : Z) :
  timeline_start_time s <> 0 ->
  Forall (fun d => 0 < d) (durations s) ->
  durations s <> [] ->
  total_duration s = sum_us (durations s) ->
  sum_us (durations s) < 2 ^ 63 ->
  0 <= timeline_start_time s <= now_ns / 1000000 ->
  now_ns / 1000000 < 2 ^ 64 ->
  let elapsed_us := (now_ns / 1000000 - timeline_start_time s) * 1000 in
  elapsed_us < 2 ^ 63 ->
  (loop s = false -> elapsed_us < total_duration s) ->
  let e := if loop s then elapsed_us mod total_duration s else elapsed_us in
  exists k d,
    calculate_timeline_position s now_ns
    = (Z.of_nat k, e - sum_us (take k (durations s))) /\
    durations s !! k = Some d /\
    0 <= e - sum_us (take k (durations s)) < d.
Proof.
  intros Hst Hall Hne Htot Hsum Hnow Hnow2. cbv zeta. intros He Hnl.
  pose proof (sum_us_pos _ Hne Hall) as Hpos.
  unfold calculate_timeline_position.
  destruct (Z.eqb_spec (timeline_start_time s) 0) as [?|_]; [done|].
  destruct (Z.eqb_spec (Z.of_nat (length (durations s))) 0) as [Hz|_].
  { destruct (durations s); [done|]. cbn [length] in Hz. lia. }
  cbn [orb]. rewrite elapsed_exact by lia.
  destruct (Z.gtb_spec (total_duration s) 0) as [_|?]; [|lia].
  rewrite andb_true_r.
  set (e0 := (now_ns / 1000000 - timeline_start_time s) * 1000) in *.
  assert (He0 : 0 <= e0) by (subst e0; nia).
  set (e := if loop s then e0 mod total_duration s else e0).
  assert (Hrem : (if loop s then Z.rem e0 (total_duration s) else e0) = e).
  { subst e. destruct (loop s); [|done]. apply Z.rem_mod_nonneg; lia. }
  rewrite Hrem.
  assert (Hrange : 0 <= e < sum_us (durations s)).
  { subst e. destruct (loop s).
    - rewrite Htot. apply Z.mod_pos_bound. lia.
    - specialize (Hnl eq_refl). lia. }
  destruct (find_position_spec (durations s) 0 0 e Hall) as [H1 _];
    [lia|lia|lia|].
  destruct H1 as (k & d & Hf & Hk & Hoff); [lia|].
  exists k, d. rewrite Hf. rewrite Z.sub_0_r in *. rewrite Z.add_0_l.
  done.
Qed.

(** X21. The position on the timeline.  With a timeline started, a cache
    of positive durations whose sum is [total_duration], and the elapsed
    time in range, [calculate_timeline_position] returns a file of the
    playlist and an offset inside it, such that the durations of the files
    before it plus the offset are the elapsed microseconds, taken modulo
    the length of the playlist when looping. *)
Theorem timeline_position_within (s : fvs_source) (now_ns : Z) :
  timeline_start_time s <> 0 ->
  Forall (fun d => 0 < d) (durations s) ->
  durations s <> [] ->
  total_duration s = sum_us (durations s) ->
  sum_us (durations s) < 2 ^ 63 ->
  0 <= timeline_start_time s <= now_ns / 1000000 ->
  now_ns / 1000000 < 2 ^ 64 ->
  let elapsed_us := (now_ns / 1000000 - timeline_start_time s) * 1000 in
  elapsed_us < 2 ^ 63 ->
  (loop s = false -> elapsed_us < total_duration s) ->
  let e := if loop s then elapsed_us mod total_duration s else elapsed_us in
  exists k d,
    calculate_timeline_position s now_ns
    = (Z.of_nat k, e - sum_us (take k (durations s))) /\
    durations s !! k = Some d /\
    0 <= e - sum_us (take k (durations s)) < d.
Proof. apply position_within. Qed.

(** X22. Off the timeline.  Without a timeline start or without cached
    durations the position is the start of the first file; without
    looping, once the elapsed time has reached the length of the playlist
    the position stays at the last file, at its full duration. *)
Theorem timeline_position_past_end (s : fvs_source) (now_ns : Z) :
  (timeline_start_time s = 0 \/ durations s = [] ->
   calculate_timeline_position s now_ns = (0, 0)) /\
  (timeline_start_time s <> 0 ->
   loop s = false ->
   Forall (fun d => 0 < d) (durations s) ->
   durations s <> [] ->
   sum_us (durations s) < 2 ^ 63 ->
   0 <= timeline_start_time s <= now_ns / 1000000 ->
   now_ns / 1000000 < 2 ^ 64 ->
   sum_us (durations s)
     <= (now_ns / 1000000 - timeline_start_time s) * 1000 < 2 ^ 63 ->
   calculate_timeline_position s now_ns
   = (Z.of_nat (length (durations s)) - 1, List.last (durations s) 0)).
Proof.
  split.
  - intros H. unfold calculate_timeline_position.
    destruct H as [->| ->]; [done|]. cbn. by rewrite orb_true_r.
  - intros Hst Hl Hall Hne Hsum Hnow Hnow2 He.
    unfold calculate_timeline_position.
    destruct (Z.eqb_spec (timeline_start_time s) 0) as [?|_]; [done|].
    destruct (Z.eqb_spec (Z.of_nat (length (durations s))) 0) as [Hz|_].
    { destruct (durations s); [done|]. cbn [length] in Hz. lia. }
    cbn [orb]. rewrite elapsed_exact by lia. rewrite Hl. cbn [andb].
    destruct (find_position_spec (durations s) 0 0
                ((now_ns / 1000000 - timeline_start_time s) * 1000) Hall)
      as [_ H2]; [lia|lia|lia|].
    rewrite H2 by lia. f_equal.
    replace (Z.to_nat (Z.of_nat (length (durations s)) - 1))
      with (length (durations s) - 1)%nat by lia.
    clear -Hne. induction (durations s) as [|a [|b l] IH]; [done|done|].
    cbn [length List.last nth Nat.sub] in *. rewrite <- IH by done.
    by rewrite Nat.sub_0_r.
Qed.

Lemma probed_duration_pos r : 0 < probed_duration r.
Proof.
  unfold probed_duration, default_duration. destruct r as [| |d]; try lia.
  destruct (Z.eqb_spec d AV_NOPTS_VALUE); cbn [orb]; [lia|].
  destruct (Z.leb_spec d 0); lia.
Qed.

Lemma probed_durations_pos probes :
  Forall (fun d => 0 < d) (map probed_duration probes).
Proof.
  induction probes as [|r probes IH]; cbn [map]; constructor; [|done].
  apply probed_duration_pos.
Qed.

Lemma cache_loop_spec probes :
  forall ds total,
  cache_durations_loop probes ds total
  = (ds ++ map probed_duration probes,
     snd (cache_durations_loop probes ds total)) /\
  (0 <= total -> total + sum_us (map probed_duration probes) < 2 ^ 63 ->
   snd (cache_durations_loop probes ds total)
   = total + sum_us (map probed_duration probes)).
Proof.
  induction probes as [|r probes IH]; intros ds total.
  - cbn. rewrite app_nil_r. unfold sum_us. cbn. split; [done|lia].
  - cbn [cache_durations_loop map].
    destruct (IH (ds ++ [probed_duration r]) (s64 (total + probed_duration r)))
      as [IH1 IH2].
    split.
    + rewrite IH1 at 1. cbn [snd]. by rewrite <- app_assoc.
    + intros Ht Hs.
      assert (Hc : sum_us (probed_duration r :: map probed_duration probes)
                   = probed_duration r + sum_us (map probed_duration probes))
        by done.
      rewrite Hc in *.
      pose proof (probed_duration_pos r) as Hp.
      assert (Hn : 0 <= sum_us (map probed_duration probes))
        by apply sum_us_nonneg, probed_durations_pos.
      rewrite (s64_small (total + probed_duration r)) in IH2 by lia.
      rewrite (s64_small (total + probed_duration r)) by lia.
      rewrite IH2 by lia. lia.
Qed.

Lemma cache_durations_facts (s : fvs_source) (probes : list probe_result) :
  let s' := cache_durations s probes in
  durations s' = map probed_duration probes /\
  Forall (fun d => 0 < d) (durations s') /\
  (sum_us (durations s') < 2 ^ 63 -> total_duration s' = sum_us (durations s')) /\
  timeline_start_time s' = timeline_start_time s /\
  loop s' = loop s.
Proof.
  cbv zeta. unfold cache_durations.
  destruct (cache_loop_spec probes [] 0) as [H1 H2].
  destruct (cache_durations_loop probes [] 0) as [ds total] eqn:E.
  cbn [snd] in *. injection H1 as ->. cbn [app].
  cbn [set_durations durations total_duration timeline_start_time loop].
  split; [done|]. split.
  { apply probed_durations_pos. }
  split; [|done]. intros Hs. rewrite H2 by lia. lia.
Qed.

(** X23. The duration cache.  [cache_durations] records one duration per
    file of the playlist, in order: the duration the file reports when it
    is positive, and thirty minutes when the file cannot be opened, has no
    stream information, or reports no or a non-positive duration.  Every
    cached duration is therefore positive, and [total_duration] is their
    sum as long as the sum fits an [int64_t]. *)
Theorem cache_durations_positive (s : fvs_source) (probes : list probe_result) :
  let s' := cache_durations s probes in
  length (durations s') = length probes /\
  Forall (fun d => 0 < d) (durations s') /\
  (forall i r, probes !! i = Some r ->
     durations s' !! i
     = Some (match r with
             | ProbeDuration d => if 0 <? d then d else 1800000000
             | _ => 1800000000
             end)) /\
  (sum_us (durations s') < 2 ^ 63 -> total_duration s' = sum_us (durations s')).
Proof.
  cbv zeta.
  destruct (cache_durations_facts s probes) as (Hd & Hpos & Htot & _).
  cbv zeta in *. rewrite Hd in *.
  split; [by rewrite length_map|]. split; [done|]. split; [|done].
  intros i r Hi. rewrite list_lookup_map, Hi. cbn. f_equal.
  unfold probed_duration, default_duration, AV_NOPTS_VALUE.
  destruct r as [| |d]; try done.
  destruct (Z.eqb_spec d (- 2 ^ 63)), (Z.leb_spec d 0), (Z.ltb_spec 0 d);
    cbn [orb]; lia.
Qed.

Lemma activate_facts g s now_ns probes :
  let r := fvs_activate_timeline g s now_ns probes in
  fst r = (if g =? 0 then now_ns / 1000000 else g) /\
  timeline_start_time (snd r) = fst r /\
  timeline_active (snd r) = true /\
  deactivate_timer_active (snd r) = false /\
  loop (snd r) = loop s /\
  (durations s = [] -> durations (snd r) = map probed_duration probes) /\
  (durations s = [] -> sum_us (map probed_duration probes) < 2 ^ 63 ->
   total_duration (snd r) = sum_us (map probed_duration probes)) /\
  (durations s <> [] ->
   durations (snd r) = durations s /\ total_duration (snd r) = total_duration s).
Proof.
  cbv zeta. unfold fvs_activate_timeline. cbn [fst snd durations].
  split; [done|].
  destruct (Z.eqb_spec (Z.of_nat (length (durations s))) 0) as [Hz|Hnz].
  - assert (Hnil : durations s = []).
    { destruct (durations s); [done|]. cbn [length] in Hz. lia. }
    match goal with
    | |- context [cache_durations ?s1 probes] =>
        destruct (cache_durations_facts s1 probes) as (Hd & _ & Htot & Hts & Hl)
    end.
    cbv zeta in *. cbn in *. unfold cache_durations in *.
    destruct (cache_durations_loop probes [] 0) as [ds total].
    cbn in *. subst ds.
    repeat split; try done.
  - assert (Hnil : durations s <> []).
    { intros E. rewrite E in Hnz. done. }
    cbn. repeat split; done.
Qed.

(** X24. Activation puts a source on the timeline.  A source with an
    empty duration cache, activated when its playlist is not empty, finds
    itself at the start of the first file at the moment of a first
    activation, and at every later moment at a file of the playlist and
    an offset inside that file's cached duration; the timeline start it
    adopts is the global one, claimed at this activation if no source had
    claimed it before. *)
Theorem activation_gives_position
    (g : Z) (s : fvs_source) (now0 now1 : Z) (probes : list probe_result) :
  durations s = [] -> probes <> [] ->
  loop s = true ->
  sum_us (map probed_duration probes) < 2 ^ 63 ->
  0 <= g -> (g = 0 -> 0 < now0 / 1000000) ->
  let r := fvs_activate_timeline g s now0 probes in
  fst r <= now1 / 1000000 < 2 ^ 64 ->
  (now1 / 1000000 - fst r) * 1000 < 2 ^ 63 ->
  fst r = (if g =? 0 then now0 / 1000000 else g) /\
  timeline_start_time (snd r) = fst r /\
  (exists k d,
     fst (calculate_timeline_position (snd r) now1) = Z.of_nat k /\
     probed_duration <$> (probes !! k) = Some d /\
     0 <= snd (calculate_timeline_position (snd r) now1) < d) /\
  (g = 0 -> calculate_timeline_position (snd r) now0 = (0, 0)).
Proof.
  intros Hnil Hne Hloop Hsum Hg Hg0. cbv zeta. intros Hnow He.
  destruct (activate_facts g s now0 probes)
    as (Hfst & Hts & _ & _ & Hl & Hd & Htot & _). cbv zeta in *.
  specialize (Hd Hnil). specialize (Htot Hnil Hsum).
  set (r := fvs_activate_timeline g s now0 probes) in *.
  assert (Hpos : 0 < fst r).
  { rewrite Hfst. destruct (Z.eqb_spec g 0); [by apply Hg0|lia]. }
  assert (Hall : Forall (fun d => 0 < d) (durations (snd r))).
  { rewrite Hd. apply probed_durations_pos. }
  assert (Hne' : durations (snd r) <> []).
  { rewrite Hd. by destruct probes. }
  split; [done|]. split; [done|]. split.
  - destruct (position_within (snd r) now1) as (k & d & Hc & Hk & Hoff);
      try done; try (rewrite ?Hts, ?Hd, ?Htot; lia).
    { rewrite Hl, Hloop. done. }
    exists k, d. rewrite Hc. cbn [fst snd]. split; [done|].
    rewrite Hd, list_lookup_map in Hk. split; [done|].
    exact Hoff.
  - intros ->. cbn [Z.eqb] in Hfst.
    destruct (position_within (snd r) now0) as (k & d & Hc & Hk & Hoff);
      try done; try (rewrite ?Hts, ?Hd, ?Htot, ?Hfst; lia).
    { rewrite Hl, Hloop. done. }
    rewrite Hc. rewrite Hl, Hloop, Hts, Hfst in *.
    rewrite Z.sub_diag, Z.mul_0_l in *.
    assert (Ht : 0 < total_duration (snd r)).
    { rewrite Htot, <- Hd. by apply sum_us_pos. }
    rewrite Z.mod_0_l in * by lia.
    assert (k = 0%nat) as ->.
    { destruct k as [|k]; [done|]. exfalso.
      destruct (durations (snd r)) as [|d0 l] eqn:E; [done|].
      apply Forall_cons in Hall as [Hd0 Hall].
      cbn [take] in Hoff.
      assert (sum_us (d0 :: take k l) = d0 + sum_us (take k l)) as Hs by done.
      rewrite Hs in Hoff.
      assert (0 <= sum_us (take k l)); [|lia].
      apply sum_us_nonneg. by apply Forall_take. }
    cbn [take]. done.
Qed.

Lemma activate_all_shared g acts :
  g <> 0 ->
  fst (activate_all g acts) = g /\
  Forall (fun s => timeline_start_time s = g /\ timeline_active s = true)
         (snd (activate_all g acts)).
Proof.
  intros Hg. induction acts as [|[[s now_ns] probes] acts IH].
  - cbn. split; [done|constructor].
  - cbn [activate_all].
    destruct (activate_facts g s now_ns probes) as (Hf & Hts & Hta & _).
    cbv zeta in *.
    destruct (fvs_activate_timeline g s now_ns probes) as [g1 s1].
    cbn [fst snd] in *.
    assert (g1 = g) as ->.
    { rewrite Hf. by destruct (Z.eqb_spec g 0). }
    destruct IH as [IH1 IH2].
    destruct (activate_all g acts) as [g2 ss]. cbn [fst snd] in *.
    split; [done|]. constructor; [done|done].
Qed.

(** X25. One timeline for all sources.  Whatever sources are activated
    one after the other, at whatever later times, all of them adopt the
    same timeline start: the millisecond at which the first of them was
    activated if the global timeline was unset, the global timeline
    otherwise; the global timeline holds that value afterwards, and a
    reset unsets it. *)
Theorem global_timeline_shared
    (g : Z) (s : fvs_source) (now_ns : Z) (probes : list probe_result)
    (acts : list (fvs_source * Z * list probe_result)) :
  g <> 0 \/ now_ns / 1000000 <> 0 ->
  let start := if g =? 0 then now_ns / 1000000 else g in
  fst (activate_all g ((s, now_ns, probes) :: acts)) = start /\
  Forall (fun s' => timeline_start_time s' = start /\ timeline_active s' = true)
         (snd (activate_all g ((s, now_ns, probes) :: acts))) /\
  fmgnice_reset_global_timeline start = 0.
Proof.
  intros Hnz. cbv zeta. cbn [activate_all].
  destruct (activate_facts g s now_ns probes) as (Hf & Hts & Hta & _).
  cbv zeta in *.
  destruct (fvs_activate_timeline g s now_ns probes) as [g1 s1].
  cbn [fst snd] in *. rewrite <- Hf.
  assert (Hg1 : g1 <> 0).
  { rewrite Hf. destruct (Z.eqb_spec g 0); [|done].
    destruct Hnz; [done|done]. }
  destruct (activate_all_shared g1 acts Hg1) as [H1 H2].
  destruct (activate_all g1 acts) as [g2 ss]. cbn [fst snd] in *.
  split; [done|]. split; [|done]. constructor; [done|done].
Qed.

(** *** The theorems at the sample playlist *)

Lemma timeline_position_within_witness :
  let s := snd (fvs_activate_timeline 0 sample_source 5000000000 sample_probes) in
  exists k d,
    calculate_timeline_position s 6905000000000
    = (Z.of_nat k,
       ((6905000000000 / 1000000 - 5000) * 1000) mod 1950000000
       - sum_us (take k [60000000; 1800000000; 90000000])) /\
    [60000000; 1800000000; 90000000] !! k = Some d /\
    0 <= ((6905000000000 / 1000000 - 5000) * 1000) mod 1950000000
         - sum_us (take k [60000000; 1800000000; 90000000]) < d.
Proof.
  apply (timeline_position_within
           (snd (fvs_activate_timeline 0 sample_source 5000000000 sample_probes))
           6905000000000).
  - vm_compute; discriminate.
  - vm_compute. repeat constructor.
  - discriminate.
  - reflexivity.
  - vm_compute; reflexivity.
  - vm_compute. split; discriminate.
  - vm_compute; reflexivity.
  - vm_compute; reflexivity.
  - discriminate.
Defined.

Lemma timeline_position_past_end_witness :
  calculate_timeline_position
    (Source 0 false 5000 true [60000000; 90000000] 150000000 0 false)
    205000000000
  = (1, 90000000).
Proof.
  destruct (timeline_position_past_end
              (Source 0 false 5000 true [60000000; 90000000] 150000000 0 false)
              205000000000) as [_ H].
  apply H.
  - discriminate.
  - reflexivity.
  - vm_compute. repeat constructor.
  - discriminate.
  - vm_compute; reflexivity.
  - vm_compute. split; discriminate.
  - vm_compute; reflexivity.
  - vm_compute. split; [discriminate|reflexivity].
Defined.

Lemma cache_durations_positive_witness :
  durations (cache_durations sample_source sample_probes) !! 1%nat
  = Some 1800000000 /\
  total_duration (cache_durations sample_source sample_probes) = 1950000000.
Proof.
  destruct (cache_durations_positive sample_source sample_probes)
    as (_ & _ & H3 & H4).
  split.
  - apply (H3 1%nat ProbeOpenFailed). reflexivity.
  - rewrite H4; [reflexivity|vm_compute; reflexivity].
Defined.

Lemma activation_gives_position_witness :
  let r := fvs_activate_timeline 0 sample_source 5000000000 sample_probes in
  fst r = 5000 /\
  calculate_timeline_position (snd r) 5000000000 = (0, 0) /\
  exists k d,
    fst (calculate_timeline_position (snd r) 6905000000000) = Z.of_nat k /\
    probed_duration <$> (sample_probes !! k) = Some d /\
    0 <= snd (calculate_timeline_position (snd r) 6905000000000) < d.
Proof.
  destruct (activation_gives_position 0 sample_source 5000000000 6905000000000
              sample_probes)
    as (H1 & _ & H3 & H4).
  - reflexivity.
  - discriminate.
  - reflexivity.
  - vm_compute; reflexivity.
  - lia.
  - intros _. vm_compute; reflexivity.
  - vm_compute. split; [discriminate|reflexivity].
  - vm_compute; reflexivity.
  - cbv zeta. split; [exact H1|]. split; [exact (H4 eq_refl)|exact H3].
Defined.

Lemma global_timeline_shared_witness :
  Forall (fun s' => timeline_start_time s' = 5000 /\ timeline_active s' = true)
    (snd (activate_all 0
            [(sample_source, 5000000000, sample_probes);
             (sample_source, 9000000000, sample_probes);
             (sample_source, 12000000000, sample_probes)])).
Proof.
  destruct (global_timeline_shared 0 sample_source 5000000000 sample_probes
              [(sample_source, 9000000000, sample_probes);
               (sample_source, 12000000000, sample_probes)])
    as (_ & H & _).
  - right. vm_compute; discriminate.
  - exact H.
Defined.

End VideoSourceSpec.

(** ** Aligned memory *)

Module AlignedMemorySpec.
Import AlignedMemory.

Lemma land_u64_r x y : 0 <= x < 2 ^ 64 -> Z.land x (u64 y) = Z.land x y.
Proof.
  intros Hx. unfold u64. rewrite <- (Z.land_ones y 64) by lia.
  rewrite (Z.land_comm y), Z.land_assoc, Z.land_ones by lia.
  by rewrite Z.mod_small.
Qed.

Lemma pow2_bounds k : 0 <= k < 64 -> 0 < 2 ^ k <= 2 ^ 63.
Proof.
  intros Hk. split; [apply Z.pow_pos_nonneg; lia|].
  apply Z.pow_le_mono_r; lia.
Qed.

(** Masking with the complement of [2^k - 1] rounds down to a multiple
    of [2^k]. *)
Lemma land_not_mask x k :
  0 <= x < 2 ^ 64 -> 0 <= k < 64 ->
  Z.land x (not64 (u64 (2 ^ k - 1))) = x - x mod 2 ^ k.
Proof.
  intros Hx Hk. pose proof (pow2_bounds k Hk) as Hp.
  unfold not64. rewrite (u64_small (2 ^ k - 1)) by lia.
  rewrite land_u64_r by done.
  rewrite <- Z.ldiff_land.
  replace (2 ^ k - 1) with (Z.ones k) by (rewrite Z.ones_equiv; lia).
  rewrite Z.ldiff_ones_r by lia.
  rewrite Z.shiftr_div_pow2, Z.shiftl_mul_pow2 by lia.
  pose proof (Z.div_mod x (2 ^ k)). lia.
Qed.

Lemma align_size_value size k :
  0 <= k < 64 ->
  align_size size (2 ^ k)
  = u64 (size + 2 ^ k - 1) - u64 (size + 2 ^ k - 1) mod 2 ^ k.
Proof.
  intros Hk. unfold align_size. apply land_not_mask; [apply u64_range|done].
Qed.

Lemma is_aligned_mod p k :
  0 <= k < 64 -> is_aligned p (2 ^ k) = (p mod 2 ^ k =? 0).
Proof.
  intros Hk. pose proof (pow2_bounds k Hk) as Hp. unfold is_aligned.
  rewrite (u64_small (2 ^ k - 1)) by lia.
  replace (2 ^ k - 1) with (Z.ones k) by (rewrite Z.ones_equiv; lia).
  by rewrite Z.land_ones by lia.
Qed.

(** X26. Rounding a size up to an alignment.  For a power-of-two
    alignment [2^k] and a size that leaves room for the rounding,
    [align_size] returns the least multiple of the alignment that is not
    below the size: it is a multiple, at least the size and less than the
    size plus the alignment, and a size that is a multiple already comes
    back unchanged; the result passes [is_aligned].  A size within one
    alignment of [2^64] is rounded to 0. *)
Theorem align_size_rounds_up (size k : Z) :
  0 <= k < 64 ->
  0 <= size < 2 ^ 64 ->
  (size + 2 ^ k - 1 < 2 ^ 64 ->
   align_size size (2 ^ k) mod 2 ^ k = 0 /\
   size <= align_size size (2 ^ k) < size + 2 ^ k /\
   (forall m, size <= m -> m mod 2 ^ k = 0 -> align_size size (2 ^ k) <= m) /\
   (size mod 2 ^ k = 0 -> align_size size (2 ^ k) = size) /\
   is_aligned (align_size size (2 ^ k)) (2 ^ k) = true) /\
  (2 ^ 64 <= size + 2 ^ k - 1 -> align_size size (2 ^ k) = 0).
Proof.
  intros Hk Hs. pose proof (pow2_bounds k Hk) as Hp.
  rewrite is_aligned_mod, align_size_value by done.
  set (a := 2 ^ k) in *.
  split.
  - intros Hfit. rewrite (u64_small (size + a - 1)) by lia.
    pose proof (Z.mod_pos_bound (size + a - 1) a ltac:(lia)) as Hm.
    pose proof (Z.div_mod (size + a - 1) a ltac:(lia)) as Hdm.
    assert (Hmul : (size + a - 1 - (size + a - 1) mod a) mod a = 0).
    { replace (size + a - 1 - (size + a - 1) mod a)
        with (((size + a - 1) / a) * a) by lia.
      apply Z.mod_mul. lia. }
    split; [done|]. split; [lia|]. split; [|split].
    + intros m Hsm Hmm.
      apply Z.mod_divide in Hmm as [q Hq]; [|lia]. subst m.
      assert (Hle : (size + a - 1) / a < q + 1).
      { apply Z.div_lt_upper_bound; [lia|]. nia. }
      nia.
    + intros Hsz. apply Z.mod_divide in Hsz as [q Hq]; [|lia]. subst size.
      replace (q * a + a - 1) with ((a - 1) + q * a) by lia.
      rewrite Z.mod_add by lia. rewrite Z.mod_small by lia. lia.
    + by apply Z.eqb_eq.
  - intros Hov.
    assert (Hu : u64 (size + a - 1) = size + a - 1 - 2 ^ 64).
    { unfold u64.
      replace (size + a - 1) with ((size + a - 1 - 2 ^ 64) + 1 * 2 ^ 64)
        at 1 by lia.
      rewrite Z.mod_add by lia. apply Z.mod_small. lia. }
    rewrite Hu. rewrite (Z.mod_small (size + a - 1 - 2 ^ 64)) by lia. lia.
Qed.

Lemma copy_chunks_spec src d0 n :
  forall i dst,
  (32 * (i + n) <= length src)%nat ->
  (32 * (i + n) <= length d0)%nat ->
  dst = take (32 * i) src ++ drop (32 * i) d0 ->
  copy_chunks dst src i n = take (32 * (i + n)) src ++ drop (32 * (i + n)) d0.
Proof.
  induction n as [|n IH]; intros i dst Hs Hd ->.
  - cbn [copy_chunks]. by rewrite Nat.add_0_r.
  - cbn [copy_chunks]. rewrite (IH (S i)); [f_equal; f_equal; lia|lia|lia|].
    unfold store_chunk.
    assert (Hl : length (take (32 * i) src) = (32 * i)%nat)
      by (rewrite length_take; lia).
    rewrite take_app_length' by done.
    rewrite drop_app_ge by lia. rewrite Hl, drop_drop.
    replace (32 * i + (32 * i + 32 - 32 * i))%nat with (32 * S i)%nat by lia.
    rewrite app_assoc, take_take_drop. f_equal. f_equal. lia.
Qed.

(** X27. The aligned copy is a copy.  Whatever the alignment of the two
    buffers and whatever path is taken (32-byte stores and a remainder,
    or the plain fallback), [aligned_memcpy] leaves in the destination
    exactly what [memcpy] of the same size leaves: the first [size] bytes
    of the source followed by the destination's bytes beyond them. *)
Theorem aligned_memcpy_is_memcpy
    (dst_addr src_addr size : Z) (dst src : list Z) :
  0 <= size ->
  (Z.to_nat size <= length dst)%nat ->
  (Z.to_nat size <= length src)%nat ->
  aligned_memcpy dst_addr src_addr dst src size = memcpy dst src size /\
  length (aligned_memcpy dst_addr src_addr dst src size) = length dst.
Proof.
  intros Hsz Hd Hs.
  assert (Hlen : length (memcpy dst src size) = length dst).
  { unfold memcpy. rewrite length_app, length_take, length_drop. lia. }
  assert (E : aligned_memcpy dst_addr src_addr dst src size = memcpy dst src size);
    [|by rewrite E].
  unfold aligned_memcpy.
  destruct (_ && _ && _); [|done].
  pose proof (Z.div_mod size 32 ltac:(lia)) as Hdm.
  pose proof (Z.mod_pos_bound size 32 ltac:(lia)) as Hm.
  assert (Hq : 0 <= size / 32) by (apply Z.div_pos; lia).
  change 31 with (Z.ones 5). rewrite Z.land_ones by lia.
  change (2 ^ 5) with 32.
  set (c := Z.to_nat (size / 32)).
  assert (Hc : (32 * c + Z.to_nat (size mod 32) = Z.to_nat size)%nat)
    by (subst c; lia).
  rewrite (copy_chunks_spec src dst c 0 dst); [|lia|lia|done].
  cbn [Nat.add].
  replace (Z.to_nat (size / 32 * 32)) with (32 * c)%nat by (subst c; lia).
  unfold memcpy.
  destruct (Z.eqb_spec (size mod 32) 0) as [Hz|Hnz]; cbn [negb].
  - replace (Z.to_nat size) with (32 * c)%nat by lia. done.
  - assert (Hl : length (take (32 * c) src) = (32 * c)%nat)
      by (rewrite length_take; lia).
    rewrite take_app_length' by done.
    rewrite drop_app_ge by lia. rewrite Hl, drop_drop.
    replace (32 * c + (32 * c + Z.to_nat (size mod 32) - 32 * c))%nat
      with (Z.to_nat size) by lia.
    rewrite app_assoc, take_take_drop. by rewrite Hc.
Qed.

Lemma align_size_rounds_up_witness :
  align_size 1000 SIMD_ALIGNMENT = 1024 /\
  align_size (2 ^ 64 - 5) SIMD_ALIGNMENT = 0.
Proof.
  destruct (align_size_rounds_up 1000 5) as [H1 _]; [lia|lia|].
  destruct H1 as (Hm & Hr & _); [lia|].
  destruct (align_size_rounds_up (2 ^ 64 - 5) 5) as [_ H2]; [lia|lia|].
  change (2 ^ 5) with SIMD_ALIGNMENT in *.
  split; [|apply H2; unfold SIMD_ALIGNMENT; lia].
  unfold SIMD_ALIGNMENT in *.
  pose proof (Z.div_mod (align_size 1000 32) 32 ltac:(lia)). lia.
Defined.

Lemma aligned_memcpy_is_memcpy_witness :
  aligned_memcpy 64 128 (replicate 70 0) (seq_bytes 70) 67
  = take 67 (seq_bytes 70) ++ [0; 0; 0].
Proof.
  destruct (aligned_memcpy_is_memcpy 64 128 67 (replicate 70 0) (seq_bytes 70))
    as [H _]; [lia|vm_compute; lia|vm_compute; lia|].
  rewrite H. vm_compute; reflexivity.
Defined.

End AlignedMemorySpec.

(** ** Frame pool: buffers are handed out once *)

Module FramePoolSpec.
Import AlignedMemory FramePool.

Lemma claim_first_spec flags i :
  match claim_first flags i with
  | Some (k, r) =>
      exists j, k = (i + j)%nat /\ flags !! j = Some false /\
                (forall j', (j' < j)%nat -> flags !! j' = Some true) /\
                r = <[j := true]> flags
  | None => Forall (fun u => u = true) flags
  end.
Proof.
  revert i. induction flags as [|u flags IH]; intros i; cbn [claim_first].
  - constructor.
  - destruct u.
    + specialize (IH (S i)). destruct (claim_first flags (S i)) as [[k r]|].
      * destruct IH as (j & -> & Hj & Hb & ->). exists (S j).
        split; [lia|]. split; [done|]. split; [|done].
        intros [|j'] Hlt; [done|]. apply Hb. lia.
      * by constructor.
    + exists 0%nat. split; [lia|]. split; [done|]. split; [|done].
      intros j' Hlt. lia.
Qed.

Lemma find_buffer_spec bufs a i :
  match find_buffer bufs a i with
  | Some k => exists j, k = (i + j)%nat /\ bufs !! j = Some (Some a)
  | None => Some a ∉ bufs
  end.
Proof.
  revert i. induction bufs as [|b bufs IH]; intros i; cbn [find_buffer].
  - apply not_elem_of_nil.
  - destruct (decide (b = Some a)) as [->|Hne].
    + exists 0%nat. split; [lia|done].
    + specialize (IH (S i)). destruct (find_buffer bufs a (S i)) as [k|].
      * destruct IH as (j & -> & Hj). exists (S j). split; [lia|done].
      * apply not_elem_of_cons. split; [congruence|done].
Qed.

Lemma alloc_fresh m size ok p m' :
  aligned_alloc_simd m size ok = (p, m') ->
  (forall a, is_Some (m !! a) -> m' !! a = m !! a) /\
  (forall a, p = Some a -> m !! a = None /\ m' !! a = Some size).
Proof.
  unfold aligned_alloc_simd. destruct ok; intros [= <- <-].
  - assert (Hf : m !! fresh (dom m) = None) by apply not_elem_of_dom, is_fresh.
    split.
    + intros a [x Ha]. apply lookup_insert_ne. intros <-. congruence.
    + intros a [= <-]. split; [done|]. apply lookup_insert_eq.
  - split; [done|]. by intros a.
Qed.

Lemma init_buffers_spec fs oks :
  forall m bufs m',
  init_buffers m fs oks = (bufs, m') ->
  length bufs = length oks /\
  (forall a, is_Some (m !! a) -> m' !! a = m !! a) /\
  (forall a, Some a ∈ bufs -> m !! a = None /\ m' !! a = Some fs) /\
  (Forall (fun o => o = (true, true)) oks ->
   NoDup bufs /\ Forall (fun b => exists a, b = Some a) bufs).
Proof.
  induction oks as [|[o1 o2] oks IH]; intros m bufs m'; cbn [init_buffers].
  - intros [= <- <-]. split; [done|]. split; [done|].
    split; [by intros a Ha%elem_of_nil|].
    intros _. split; constructor.
  - destruct (aligned_alloc_simd m fs o1) as [p m1] eqn:E1.
    assert (E2 : exists p' m2,
               match p with Some _ => (p, m1) | None => bmalloc m1 fs o2 end
               = (p', m2) /\
               (forall a, is_Some (m !! a) -> m2 !! a = m !! a) /\
               (forall a, p' = Some a -> m !! a = None /\ m2 !! a = Some fs) /\
               (o1 = true -> exists a, p' = Some a)).
    { destruct (alloc_fresh _ _ _ _ _ E1) as [K1 K2].
      destruct p as [a|].
      - exists (Some a), m1. split; [done|]. split; [done|]. split; [done|].
        intros _. by exists a.
      - destruct (bmalloc m1 fs o2) as [p' m2] eqn:E3.
        exists p', m2. split; [done|].
        destruct (alloc_fresh m1 fs o2 p' m2 E3) as [L1 L2].
        split; [|split].
        + intros a Ha. rewrite L1; [by apply K1|]. by rewrite K1.
        + intros a Ha. destruct (L2 a Ha) as [L3 L4]. split; [|done].
          destruct (m !! a) eqn:Hm; [|done].
          rewrite K1 in L3 by (by eexists). congruence.
        + intros ->. unfold aligned_alloc_simd in E1. done. }
    destruct E2 as (p' & m2 & -> & K1 & K2 & K3).
    destruct (init_buffers m2 fs oks) as [ps m3] eqn:E4.
    intros [= <- <-].
    destruct (IH m2 ps m3 E4) as (I1 & I2 & I3 & I4).
    split; [cbn [length]; lia|]. split; [|split].
    + intros a Ha. rewrite I2; [by apply K1|]. by rewrite K1.
    + intros a Ha. apply elem_of_cons in Ha as [Ha|Ha].
      * destruct (K2 a) as [K4 K5]; [done|]. split; [done|].
        rewrite I2; [done|]. by rewrite K5.
      * destruct (I3 a Ha) as [I5 I6]. split; [|done].
        destruct (m !! a) eqn:Hm; [|done].
        rewrite K1 in I5 by (by eexists). congruence.
    + intros Hall. apply Forall_cons in Hall as [[= -> ->] Hall].
      destruct (I4 Hall) as [I5 I6]. destruct (K3 eq_refl) as [a ->].
      split; constructor; try done; [|by exists a].
      intros Hin. destruct (I3 a Hin) as [I7 _].
      destruct (K2 a eq_refl) as [_ K5]. congruence.
Qed.

Lemma handed_out_get pool m oks size ok a p pool1 m1 :
  handed_out pool m a ->
  get_frame_buffer pool m size oks ok = (p, pool1, m1) ->
  handed_out pool1 m1 a /\ p <> Some a.
Proof.
  intros [Hlive Hflag] Hget.
  assert (Houtside : forall (pl : frame_pool_t) (mm : block_heap) (ex : bool),
    handed_out pl mm a ->
    (let '(q, m') := aligned_alloc_simd mm (align_size size SIMD_ALIGNMENT) ok in
     (q,
      Pool (buffers pl) (used pl) (buffer_size pl) (initialized pl)
           (if ex then s32 (allocation_count pl + 1) else allocation_count pl)
           (pool_hits pl) (s32 (pool_misses pl + 1)),
      m')) = (p, pool1, m1) ->
    handed_out pool1 m1 a /\ p <> Some a).
  { intros pl mm ex [Hl Hf].
    destruct (aligned_alloc_simd mm _ ok) as [q m'] eqn:E.
    intros [= <- <- <-]. destruct (alloc_fresh _ _ _ _ _ E) as [K1 K2].
    split; [split|].
    - by rewrite K1.
    - done.
    - intros ->. destruct (K2 a eq_refl) as [K3 _].
      destruct Hl as [x Hx]. congruence. }
  assert (Hfrom : forall (pl : frame_pool_t) (mm : block_heap),
    handed_out pl mm a ->
    match claim_first (used pl) 0 with
    | Some (i, flags) =>
        (nth i (buffers pl) None,
         Pool (buffers pl) flags (buffer_size pl) (initialized pl)
              (allocation_count pl) (s32 (pool_hits pl + 1)) (pool_misses pl),
         mm)
    | None =>
        let '(q, m') := aligned_alloc_simd mm (align_size size SIMD_ALIGNMENT) ok in
        (q,
         Pool (buffers pl) (used pl) (buffer_size pl) (initialized pl)
              (s32 (allocation_count pl + 1))
              (pool_hits pl) (s32 (pool_misses pl + 1)),
         m')
    end = (p, pool1, m1) ->
    handed_out pool1 m1 a /\ p <> Some a).
  { intros pl mm [Hl Hf].
    pose proof (claim_first_spec (used pl) 0) as Hc.
    destruct (claim_first (used pl) 0) as [[k flags]|].
    - destruct Hc as (j & -> & Hj & Hb & ->). cbn [Nat.add].
      intros [= <- <- <-]. split; [split; [done|]|].
      + cbn [buffers used]. intros i Hi.
        destruct (decide (j = i)) as [->|Hne].
        * apply list_lookup_insert_eq. by eapply lookup_lt_Some.
        * rewrite list_lookup_insert_ne by done. by apply Hf.
      + intros Hn.
        destruct (buffers pl !! j) as [b|] eqn:Hbj.
        * rewrite (nth_lookup_Some _ _ _ _ Hbj) in Hn. subst b.
          specialize (Hf j Hbj). congruence.
        * rewrite nth_overflow in Hn; [done|]. by apply lookup_ge_None.
    - apply (Houtside pl mm true). by split. }
  revert Hget. unfold get_frame_buffer.
  destruct (negb (initialized pool) || (buffer_size pool <? size)).
  - destruct (negb (initialized pool) && (size <=? MAX_FRAME_SIZE)) eqn:Hlazy.
    + destruct (init_frame_pool pool m MAX_FRAME_SIZE oks) as [pl mm] eqn:Ei.
      apply Hfrom. revert Ei. unfold init_frame_pool.
      apply andb_prop in Hlazy as [Hni _]. apply negb_true_iff in Hni.
      rewrite Hni.
      destruct (init_buffers m _ _) as [bufs m'] eqn:Eb. intros [= <- <-].
      destruct (init_buffers_spec _ _ _ _ _ Eb) as (_ & I2 & I3 & _).
      split; [by rewrite I2|]. cbn [buffers used]. intros i Hi.
      destruct (I3 a) as [I4 _]; [by eapply list_elem_of_lookup_2|].
      destruct Hlive as [x Hx]. congruence.
    + apply (Houtside pool m false). by split.
  - apply Hfrom. by split.
Qed.

Lemma handed_out_release pool m b a :
  handed_out pool m a -> b <> Some a ->
  handed_out (fst (release_frame_buffer pool m b))
             (snd (release_frame_buffer pool m b)) a.
Proof.
  intros [Hlive Hflag] Hne. unfold release_frame_buffer.
  destruct b as [b|]; [|by split].
  pose proof (find_buffer_spec (buffers pool) b 0) as Hf.
  destruct (find_buffer (buffers pool) b 0) as [k|]; cbn [fst snd].
  - destruct Hf as (j & -> & Hj). cbn [Nat.add]. split; [done|].
    cbn [buffers used]. intros i Hi.
    rewrite list_lookup_insert_ne; [by apply Hflag|].
    intros ->. congruence.
  - split; [|done]. cbn [aligned_free].
    rewrite lookup_delete_ne; [done|]. congruence.
Qed.

Lemma handed_out_run oks ops :
  forall pool m a,
  handed_out pool m a ->
  OpRelease (Some a) ∉ ops ->
  Some a ∉ fst (fst (pool_run pool m oks ops)).
Proof.
  induction ops as [|[size ok|b] ops IH]; intros pool m a Hh Hn.
  - apply not_elem_of_nil.
  - cbn [pool_run]. apply not_elem_of_cons in Hn as [_ Hn].
    destruct (get_frame_buffer pool m size oks ok) as [[p pool1] m1] eqn:E.
    destruct (handed_out_get _ _ _ _ _ _ _ _ _ Hh E) as [Hh1 Hp].
    specialize (IH pool1 m1 a Hh1 Hn).
    destruct (pool_run pool1 m1 oks ops) as [[ps pool2] m2].
    cbn [fst] in *. apply not_elem_of_cons. split; [congruence|done].
  - cbn [pool_run]. apply not_elem_of_cons in Hn as [Hb Hn].
    assert (Hne : b <> Some a) by congruence.
    pose proof (handed_out_release pool m b a Hh Hne) as Hh1.
    destruct (release_frame_buffer pool m b) as [pool1 m1].
    by apply IH.
Qed.

(** X28. The pool hands a buffer out once.  A buffer obtained from
    [get_frame_buffer] on an initialized pool of ten distinct allocated
    buffers, whether it comes from the pool or from the allocator, is not
    returned by any later [get_frame_buffer], however gets and releases
    of other buffers follow one another, until it is released itself. *)
Theorem pool_buffer_handed_out_once
    (pool pool1 : frame_pool_t) (m m1 : block_heap) (size : Z)
    (oks : nat -> bool * bool) (ok : bool) (a : positive) (ops : list pool_op) :
  pool_ok pool m ->
  get_frame_buffer pool m size oks ok = (Some a, pool1, m1) ->
  OpRelease (Some a) ∉ ops ->
  Some a ∉ fst (fst (pool_run pool1 m1 oks ops)).
Proof.
  intros (Hi & Hlb & Hlu & Hnd & Hall) Hget Hn.
  apply handed_out_run; [|done].
  assert (Hor : negb (initialized pool) || (buffer_size pool <? size)
                = (buffer_size pool <? size)) by (by rewrite Hi).
  assert (Hand : negb (initialized pool) && (size <=? MAX_FRAME_SIZE) = false)
    by (by rewrite Hi).
  revert Hget. unfold get_frame_buffer. rewrite Hor, Hand. clear Hor Hand.
  assert (Houtside : forall ex : bool,
    (let '(q, m') := aligned_alloc_simd m (align_size size SIMD_ALIGNMENT) ok in
     (q,
      Pool (buffers pool) (used pool) (buffer_size pool) (initialized pool)
           (if ex then s32 (allocation_count pool + 1) else allocation_count pool)
           (pool_hits pool) (s32 (pool_misses pool + 1)),
      m')) = (Some a, pool1, m1) ->
    handed_out pool1 m1 a).
  { intros ex. destruct (aligned_alloc_simd m _ ok) as [q m'] eqn:E.
    intros [= -> <- <-]. destruct (alloc_fresh _ _ _ _ _ E) as [K1 K2].
    destruct (K2 a eq_refl) as [K3 K4]. split; [by rewrite K4|].
    cbn [buffers used]. intros i Hbi. exfalso.
    rewrite Forall_lookup in Hall. destruct (Hall i _ Hbi) as (a' & [= <-] & [x Hx]).
    congruence. }
  destruct (buffer_size pool <? size); [apply (Houtside false)|].
  pose proof (claim_first_spec (used pool) 0) as Hc.
  destruct (claim_first (used pool) 0) as [[k flags]|]; [|apply (Houtside true)].
  destruct Hc as (j & -> & Hj & Hb & ->). cbn [Nat.add].
  intros [= Hn' <- <-].
  assert (Hbj : buffers pool !! j = Some (Some a)).
  { destruct (buffers pool !! j) as [b|] eqn:Hbj.
    - by rewrite (nth_lookup_Some _ _ _ _ Hbj) in Hn'; subst b.
    - rewrite nth_overflow in Hn'; [done|]. by apply lookup_ge_None. }
  split.
  - rewrite Forall_lookup in Hall. destruct (Hall j _ Hbj) as (a' & [= <-] & Hl).
    done.
  - cbn [buffers used]. intros i Hbi.
    assert (i = j) as -> by (by eapply NoDup_lookup).
    apply list_lookup_insert_eq. by eapply lookup_lt_Some.
Qed.

Lemma claim_first_prefix k rest i :
  claim_first (replicate k true ++ false :: rest) i
  = Some ((i + k)%nat, replicate k true ++ true :: rest).
Proof.
  revert i. induction k as [|k IH]; intros i; cbn [replicate app claim_first].
  - by rewrite Nat.add_0_r.
  - rewrite IH. do 2 f_equal. lia.
Qed.

Lemma claim_first_full k i : claim_first (replicate k true) i = None.
Proof.
  revert i. induction k as [|k IH]; intros i; cbn [replicate claim_first]; [done|].
  by rewrite IH.
Qed.

Lemma get_from_pool pool m size oks ok k j :
  initialized pool = true ->
  size <= buffer_size pool ->
  used pool = replicate k true ++ replicate (S j) false ->
  get_frame_buffer pool m size oks ok
  = (nth k (buffers pool) None,
     Pool (buffers pool) (replicate (S k) true ++ replicate j false)
          (buffer_size pool) (initialized pool) (allocation_count pool)
          (s32 (pool_hits pool + 1)) (pool_misses pool),
     m).
Proof.
  intros Hi Hs Hu.
  assert (Hor : negb (initialized pool) || (buffer_size pool <? size) = false).
  { rewrite Hi. cbn. apply Z.ltb_ge. lia. }
  unfold get_frame_buffer. rewrite Hor, Hu. cbn [replicate].
  rewrite claim_first_prefix. cbn [Nat.add].
  do 3 f_equal. cbn [replicate]. change (true :: replicate k true)
    with (replicate (S k) true). rewrite replicate_S_end.
  by rewrite <- app_assoc.
Qed.

Lemma iter_hits n h :
  Nat.iter n (fun h => s32 (h + 1)) (s32 (h + 1))
  = s32 (Nat.iter n (fun h => s32 (h + 1)) h + 1).
Proof. symmetry. exact (Nat.iter_succ_r n (fun h => s32 (h + 1)) h). Qed.

Lemma pool_run_gets oks size ok n :
  forall pool m k j,
  initialized pool = true ->
  size <= buffer_size pool ->
  length (buffers pool) = (k + n + j)%nat ->
  used pool = replicate k true ++ replicate (n + j) false ->
  pool_run pool m oks (replicate n (OpGet size ok))
  = (take n (drop k (buffers pool)),
     Pool (buffers pool) (replicate (k + n) true ++ replicate j false)
          (buffer_size pool) (initialized pool) (allocation_count pool)
          (Nat.iter n (fun h => s32 (h + 1)) (pool_hits pool)) (pool_misses pool),
     m).
Proof.
  induction n as [|n IH]; intros pool m k j Hi Hs Hl Hu.
  - cbn [replicate pool_run take Nat.iter]. rewrite Nat.add_0_r.
    cbn [Nat.add] in Hu. rewrite <- Hu. by destruct pool.
  - cbn [replicate pool_run]. cbn [Nat.add] in Hu.
    rewrite (get_from_pool pool m size oks ok k (n + j)) by done.
    rewrite (IH _ m (S k) j); [|done|done|cbn [buffers]; lia|done].
    cbn [buffers buffer_size initialized allocation_count pool_hits pool_misses].
    replace (S k + n)%nat with (k + S n)%nat by lia.
    destruct (lookup_lt_is_Some_2 (buffers pool) k) as [x Hx]; [lia|].
    rewrite (nth_lookup_Some _ _ _ _ Hx), (drop_S _ x k) by done.
    cbn [take Nat.iter]. by rewrite iter_hits.
Qed.

(** X29. The pool serves ten buffers, then the allocator.  On an
    initialized pool of ten distinct buffers none of which is in use,
    successive requests that fit the buffer size are served with the ten
    buffers of the pool, in order and without allocating; the eleventh is
    served with a new block from the allocator, outside the pool, and is
    counted as a miss and an extra allocation; and when one of the ten is
    released, the next request is served with that buffer again. *)
Theorem pool_serves_ten_then_allocates
    (pool : frame_pool_t) (m : block_heap) (size : Z)
    (oks : nat -> bool * bool) (ok : bool) (n k : nat) :
  pool_ok pool m ->
  used pool = replicate (Z.to_nat FRAME_POOL_SIZE) false ->
  size <= buffer_size pool ->
  (n <= Z.to_nat FRAME_POOL_SIZE)%nat ->
  (k < Z.to_nat FRAME_POOL_SIZE)%nat ->
  let r := pool_run pool m oks (replicate n (OpGet size ok)) in
  fst (fst r) = take n (buffers pool) /\
  NoDup (fst (fst r)) /\
  snd r = m /\
  buffers (snd (fst r)) = buffers pool /\
  let full := pool_run pool m oks (replicate 10 (OpGet size ok)) in
  (exists a pool' m',
     (get_frame_buffer (snd (fst full)) (snd full) size oks true
      = (Some a, pool', m')) /\
     (Some a ∉ buffers pool) /\ m !! a = None /\
     m' !! a = Some (align_size size SIMD_ALIGNMENT) /\
     pool_misses pool' = s32 (pool_misses pool + 1) /\
     allocation_count pool' = s32 (allocation_count pool + 1)) /\
  (let '(pool1, m1) :=
     release_frame_buffer (snd (fst full)) (snd full) (nth k (buffers pool) None) in
   fst (fst (get_frame_buffer pool1 m1 size oks ok)) = nth k (buffers pool) None).
Proof.
  intros (Hi & Hlb & Hlu & Hnd & Hall) Hu Hs Hn Hk.
  change (Z.to_nat FRAME_POOL_SIZE) with 10%nat in *. cbv zeta.
  assert (Hun : used pool = replicate 0 true ++ replicate (n + (10 - n)) false).
  { rewrite Hu. replace (n + (10 - n))%nat with 10%nat by lia. done. }
  rewrite (pool_run_gets oks size ok n pool m 0 (10 - n) Hi Hs ltac:(lia) Hun).
  cbn [fst snd drop buffers].
  split; [done|].
  split.
  { pose proof Hnd as Hnd'. rewrite <- (take_drop n (buffers pool)) in Hnd'.
    by apply NoDup_app in Hnd' as [? _]. }
  split; [done|]. split; [done|].
  assert (Hu10 : used pool = replicate 0 true ++ replicate (10 + 0) false)
    by (by rewrite Hu).
  rewrite (pool_run_gets oks size ok 10 pool m 0 0 Hi Hs ltac:(lia) Hu10).
  cbn [fst snd buffers]. split.
  - unfold get_frame_buffer.
    cbn [initialized buffer_size used buffers allocation_count pool_misses
         pool_hits].
    assert (Hor : negb (initialized pool) || (buffer_size pool <? size) = false).
    { rewrite Hi. cbn. apply Z.ltb_ge. lia. }
    rewrite Hor. rewrite app_nil_r.
    change (0 + 10)%nat with 10%nat. rewrite claim_first_full.
    unfold aligned_alloc_simd.
    assert (Hf : m !! fresh (dom m) = None) by apply not_elem_of_dom, is_fresh.
    eexists _, _, _. split; [reflexivity|].
    split.
    { intros Hin. apply list_elem_of_lookup_1 in Hin as [i Hin].
      rewrite Forall_lookup in Hall.
      destruct (Hall i _ Hin) as (a' & [= <-] & [x Hx]). congruence. }
    split; [done|]. split; [apply lookup_insert_eq|]. by cbn.
  - unfold release_frame_buffer.
    destruct (lookup_lt_is_Some_2 (buffers pool) k) as [b Hb]; [lia|].
    rewrite (nth_lookup_Some _ _ _ _ Hb).
    rewrite Forall_lookup in Hall. destruct (Hall k _ Hb) as (a & -> & _).
    cbn [buffers used].
    pose proof (find_buffer_spec (buffers pool) a 0) as Hf.
    destruct (find_buffer (buffers pool) a 0) as [i|].
    + destruct Hf as (j & -> & Hj). cbn [Nat.add].
      assert (j = k) as -> by (by eapply NoDup_lookup).
      rewrite app_nil_r. change (0 + 10)%nat with 10%nat.
      assert (Hsplit : <[k := false]> (replicate 10 true)
                       = replicate k true ++ replicate 1 false
                         ++ replicate (10 - k - 1) true).
      { clear -Hk. do 10 (destruct k as [|k]; [reflexivity|]). lia. }
      unfold get_frame_buffer.
      cbn [initialized buffer_size used buffers].
      assert (Hor : negb (initialized pool) || (buffer_size pool <? size) = false).
      { rewrite Hi. cbn. apply Z.ltb_ge. lia. }
      rewrite Hor, Hsplit. cbn [replicate app].
      rewrite claim_first_prefix. cbn [Nat.add fst].
      by rewrite (nth_lookup_Some _ _ _ _ Hb).
    + exfalso. apply Hf. by eapply list_elem_of_lookup_2.
Qed.

Lemma max_frame_size_aligned :
  align_size MAX_FRAME_SIZE SIMD_ALIGNMENT = MAX_FRAME_SIZE.
Proof. by vm_compute. Qed.

Lemma init_pool_ok (m : block_heap) :
  let r := init_frame_pool frame_pool_zero m MAX_FRAME_SIZE all_ok in
  pool_ok (fst r) (snd r) /\
  buffer_size (fst r) = MAX_FRAME_SIZE /\
  used (fst r) = replicate (Z.to_nat FRAME_POOL_SIZE) false /\
  (allocation_count (fst r), pool_hits (fst r), pool_misses (fst r)) = (0, 0, 0) /\
  Forall (fun b => exists a, b = Some a /\ m !! a = None /\
                             snd r !! a = Some MAX_FRAME_SIZE)
         (buffers (fst r)) /\
  (forall a, is_Some (m !! a) -> snd r !! a = m !! a).
Proof.
  cbv zeta. unfold init_frame_pool. cbn [initialized frame_pool_zero].
  rewrite max_frame_size_aligned.
  destruct (init_buffers m MAX_FRAME_SIZE
              (map all_ok (seq 0 (Z.to_nat FRAME_POOL_SIZE)))) as [bufs m'] eqn:E.
  destruct (init_buffers_spec _ _ _ _ _ E) as (I1 & I2 & I3 & I4).
  destruct I4 as [I5 I6].
  { apply Forall_forall. intros x Hx. by repeat (apply elem_of_cons in Hx as [->|Hx]; [done|]);
      apply elem_of_nil in Hx. }
  cbn [fst snd buffers used buffer_size allocation_count pool_hits pool_misses].
  assert (Hall : Forall (fun b => exists a, b = Some a /\ m !! a = None /\
                                            m' !! a = Some MAX_FRAME_SIZE) bufs).
  { rewrite Forall_lookup. intros i b Hb.
    rewrite Forall_lookup in I6. destruct (I6 i b Hb) as [a ->].
    destruct (I3 a) as [I7 I8]; [by eapply list_elem_of_lookup_2|].
    by exists a. }
  assert (Hlen : length bufs = Z.to_nat FRAME_POOL_SIZE).
  { rewrite I1, length_map, length_seq. done. }
  split; [|repeat (split; [done|]); done].
  unfold pool_ok. cbn [buffers used initialized].
  split; [done|]. split; [done|].
  split; [by rewrite length_replicate|]. split; [done|].
  eapply Forall_impl; [exact Hall|]. intros b (a & -> & _ & Ha).
  exists a. split; [done|]. by eexists.
Qed.

(** X30. The first request sets the pool up.  On the pool as the program
    starts with it, a request of at most [MAX_FRAME_SIZE] bytes allocates
    the ten buffers, each of [MAX_FRAME_SIZE] bytes at an address not in
    use before and all distinct, leaves every block allocated before as it
    was, and is served with the first of them, counted as a hit; a larger
    request is served by the allocator and leaves the pool as it was but
    for one miss. *)
Theorem first_request_initializes_pool (m : block_heap) (size : Z) (ok : bool) :
  0 <= size ->
  (size <= MAX_FRAME_SIZE ->
   let r := get_frame_buffer frame_pool_zero m size all_ok ok in
   pool_ok (snd (fst r)) (snd r) /\
   buffer_size (snd (fst r)) = MAX_FRAME_SIZE /\
   buffers (snd (fst r)) !! 0%nat = Some (fst (fst r)) /\
   used (snd (fst r)) = true :: replicate 9 false /\
   pool_hits (snd (fst r)) = 1 /\
   Forall (fun b => exists a, b = Some a /\ m !! a = None /\
                              snd r !! a = Some MAX_FRAME_SIZE)
          (buffers (snd (fst r))) /\
   (forall a, is_Some (m !! a) -> snd r !! a = m !! a)) /\
  (MAX_FRAME_SIZE < size ->
   let r := get_frame_buffer frame_pool_zero m size all_ok ok in
   snd (fst r)
   = Pool (buffers frame_pool_zero) (used frame_pool_zero) 0 false 0 0 1 /\
   (forall a, fst (fst r) = Some a ->
      m !! a = None /\ snd r !! a = Some (align_size size SIMD_ALIGNMENT))).
Proof.
  intros Hsz. split.
  - intros Hle. cbv zeta.
    destruct (init_pool_ok m) as (Hok & Hbs & Hu & Hc & Hall & Hkeep).
    cbv zeta in *. unfold get_frame_buffer.
    cbn [initialized frame_pool_zero negb orb andb].
    destruct (Z.leb_spec size MAX_FRAME_SIZE) as [_|?]; [|lia].
    destruct (init_frame_pool frame_pool_zero m MAX_FRAME_SIZE all_ok)
      as [pool1 m1] eqn:E.
    cbn [fst snd] in *. rewrite Hu.
    change (Z.to_nat FRAME_POOL_SIZE) with 10%nat. cbn [replicate claim_first].
    cbn [fst snd buffers used buffer_size pool_hits].
    destruct Hok as (Hi & Hlb & Hlu & Hnd & Hall').
    injection Hc as Hc1 Hc2 Hc3.
    split; [|split; [done|split; [|split; [done|split; [|done]]]]].
    + split; [done|]. split; [done|]. split; [done|]. done.
    + destruct (lookup_lt_is_Some_2 (buffers pool1) 0) as [b Hb];
        [rewrite Hlb; vm_compute; lia|].
      by rewrite (nth_lookup_Some _ _ _ _ Hb).
    + rewrite Hc2. by vm_compute.
  - intros Hgt. cbv zeta. unfold get_frame_buffer.
    cbn [initialized frame_pool_zero negb orb andb].
    destruct (Z.leb_spec size MAX_FRAME_SIZE) as [?|_]; [lia|].
    destruct (aligned_alloc_simd m (align_size size SIMD_ALIGNMENT) ok)
      as [p m'] eqn:E.
    cbn [fst snd]. split; [done|].
    intros a ->. destruct (alloc_fresh _ _ _ _ _ E) as [_ K]. by apply K.
Qed.

(** *** The theorems at the pool after its first use *)

Lemma pool_buffer_handed_out_once_witness :
  let r0 := init_frame_pool frame_pool_zero ∅ MAX_FRAME_SIZE all_ok in
  let r := get_frame_buffer (fst r0) (snd r0) 4096 all_ok true in
  fst (fst r)
  ∉ fst (fst (pool_run (snd (fst r)) (snd r) all_ok
                [OpGet 4096 true; OpRelease None; OpGet (2 * MAX_FRAME_SIZE) true;
                 OpGet 4096 true])).
Proof.
  cbv zeta.
  destruct (init_pool_ok ∅) as (Hok & Hbs & Hu & _). cbv zeta in *.
  destruct (init_frame_pool frame_pool_zero ∅ MAX_FRAME_SIZE all_ok)
    as [pool0 m0]. cbn [fst snd] in *.
  destruct (get_frame_buffer pool0 m0 4096 all_ok true) as [[p pool1] m1] eqn:E.
  cbn [fst snd].
  assert (Hp : exists a, p = Some a).
  { pose proof Hok as (Hi & Hlb & Hlu & Hnd & Hall).
    rewrite (get_from_pool pool0 m0 4096 all_ok true 0 9) in E;
      [|done|rewrite Hbs; unfold MAX_FRAME_SIZE; lia|by rewrite Hu].
    injection E as <- _ _.
    destruct (lookup_lt_is_Some_2 (buffers pool0) 0) as [b Hb];
      [rewrite Hlb; vm_compute; lia|].
    rewrite (nth_lookup_Some _ _ _ _ Hb).
    rewrite Forall_lookup in Hall. destruct (Hall _ _ Hb) as (a & -> & _).
    by exists a. }
  destruct Hp as [a ->].
  apply (pool_buffer_handed_out_once pool0 pool1 m0 m1 4096 all_ok true a);
    [exact Hok|exact E|].
  intros Hin.
  repeat (apply elem_of_cons in Hin as [Hin|Hin]; [discriminate Hin|]).
  by apply elem_of_nil in Hin.
Defined.

Lemma pool_serves_ten_then_allocates_witness :
  let r0 := init_frame_pool frame_pool_zero ∅ MAX_FRAME_SIZE all_ok in
  fst (fst (pool_run (fst r0) (snd r0) all_ok (replicate 3 (OpGet 4096 true))))
  = take 3 (buffers (fst r0)).
Proof.
  cbv zeta.
  destruct (init_pool_ok ∅) as (Hok & Hbs & Hu & _). cbv zeta in *.
  destruct (init_frame_pool frame_pool_zero ∅ MAX_FRAME_SIZE all_ok)
    as [pool0 m0]. cbn [fst snd] in *.
  destruct (pool_serves_ten_then_allocates pool0 m0 4096 all_ok true 3 0)
    as (H & _); [exact Hok|exact Hu|rewrite Hbs; unfold MAX_FRAME_SIZE; lia
                |vm_compute; lia|vm_compute; lia|].
  exact H.
Defined.

Lemma first_request_initializes_pool_witness :
  let r := get_frame_buffer frame_pool_zero ∅ 4096 all_ok true in
  pool_ok (snd (fst r)) (snd r) /\
  buffers (snd (fst r)) !! 0%nat = Some (fst (fst r)).
Proof.
  destruct (first_request_initializes_pool ∅ 4096 true) as [H _]; [lia|].
  destruct H as (H1 & _ & H3 & _); [unfold MAX_FRAME_SIZE; lia|].
  cbv zeta. split; [exact H1|exact H3].
Defined.

End FramePoolSpec.
